(** * IsoTarget: the dual-view transform, history and compositing core

    A shallow embedding of [src/IsoTarget.py] (class [OrthogonalMatchUI]).
    [src/IsoTarget_classroom.py] carries the same handlers; it differs in the
    canvas size only, see [DISPLAY_W].

    Conventions of the embedding.
    - Python [float] is IEEE binary64, modelled by Rocq's primitive floats.
      Python [int] is [Z].  Where the source mixes the integer literal [0]
      (or [1]) with floats, the literal is read as the float of equal value,
      which is what Python's coercion does before every operation involved.
    - A Python [dict] that is mutated in place and may be referenced from
      several places (the five state dictionaries and the inner adjustment
      dictionaries) lives in an explicit object store and is named by a
      reference; assignment copies the reference, [.copy()] allocates.
    - A handler is modelled by its body.  [Label.config] and the [set] of
      a Tk variable are writes to the widget record.  [ttk.Scale.set]
      limits the value to the range of the scale, stores it, and runs the
      command of the scale before it returns; an exception of the command
      is reported by the toolkit and does not reach the caller.  The
      command of the rotation scale, [_rotate_active], returns at once
      wherever a handler sets that scale, [_ignore_rotation_callback] being
      raised around each such call; the command of an adjustment scale runs
      [_adjust_image], see [scale_set].
    - Pillow is outside the repository: raster geometry (canvas, paste,
      band merge) is modelled on pixel grids, the numeric kernels
      (resampling, rotation, luma weights, enhancement, filters) are the
      operations of the [Pillow] interface. *)

From Stdlib Require Import ZArith Floats Bool List Lia.
From Stdlib Require Ascii String.
From stdpp Require Import base option list gmap.
Import ListNotations.

Set Warnings "-inexact-float".
Set Default Proof Using "Type".

Local Open Scope Z_scope.

(** ** Python numbers *)

Module PyNum.

(** [int(f)]: truncation toward zero; [None] when Python raises
    ([ValueError] on NaN, [OverflowError] on an infinity). *)
Definition py_int (f : float) : option Z :=
  match Prim2SF f with
  | S754_zero _ => Some 0
  | S754_finite s m e =>
      let mag := if 0 <=? e then Z.shiftl (Zpos m) e
                 else Z.shiftr (Zpos m) (- e) in
      Some (if s then - mag else mag)
  | S754_infinity _ | S754_nan => None
  end.

(** [float(z)] for an integer of magnitude below [2^63]. *)
Definition float_of_int (z : Z) : float :=
  if z <? 0 then (- PrimFloat.of_uint63 (Uint63.of_Z (- z)))%float
  else PrimFloat.of_uint63 (Uint63.of_Z z).

(** Two-argument [min] and [max]: the first argument is kept unless the
    second compares strictly below (above) it. *)
Definition py_min (a b : float) : float := if (b <? a)%float then b else a.
Definition py_max (a b : float) : float := if (a <? b)%float then b else a.

(** C's [fmod]: the exact remainder, with the sign of [x]. *)
Definition c_fmod (x y : float) : float :=
  match Prim2SF x, Prim2SF y with
  | S754_finite sx mx ex, S754_finite _ my ey =>
      let e := Z.min ex ey in
      let r := Z.modulo (Z.shiftl (Zpos mx) (ex - e))
                        (Z.shiftl (Zpos my) (ey - e)) in
      let f := Z.ldexp (float_of_int r) e in
      if sx then (- f)%float else f
  | S754_zero _, S754_finite _ _ _ => x
  | S754_zero _, S754_infinity _ => x
  | S754_finite _ _ _, S754_infinity _ => x
  | _, _ => nan
  end.

(** [x % y] on floats, [y] non-zero (CPython's [float_rem]). *)
Definition py_float_mod (x y : float) : float :=
  let m := c_fmod x y in
  if (m =? 0)%float then (if (y <? 0)%float then (-0)%float else 0%float)
  else if Bool.eqb (y <? 0)%float (m <? 0)%float then m
  else (m + y)%float.

End PyNum.
Import PyNum.

(** ** Keys *)

(** The views ['ap'] and ['lat']. *)
Inductive View := ap | lat.

(** The four image slots, the keys of [self.images]. *)
Inductive Slot := drr_ap | kv_ap | drr_lat | kv_lat.

Definition View_eqb (a b : View) : bool :=
  match a, b with ap, ap | lat, lat => true | _, _ => false end.

(** [f'drr_{view}'] and [f'kv_{view}']. *)
Definition drr_ (v : View) : Slot := match v with ap => drr_ap | lat => drr_lat end.
Definition kv_ (v : View) : Slot := match v with ap => kv_ap | lat => kv_lat end.

(** ['ap' if 'ap' in key else 'lat']. *)
Definition view_of_slot (k : Slot) : View :=
  match k with drr_ap | kv_ap => ap | drr_lat | kv_lat => lat end.

(** A dictionary with the keys ['ap'] and ['lat']. *)
Record PerView (A : Type) := mkPerView { on_ap : A; on_lat : A }.
Arguments mkPerView {A} _ _.
Arguments on_ap {A} _.
Arguments on_lat {A} _.

Definition getv {A} (d : PerView A) (v : View) : A :=
  match v with ap => on_ap d | lat => on_lat d end.
Definition setv {A} (d : PerView A) (v : View) (x : A) : PerView A :=
  match v with
  | ap => mkPerView x (on_lat d)
  | lat => mkPerView (on_ap d) x
  end.

(** A dictionary keyed by the four slots. *)
Record Slots (A : Type) := mkSlots
  { at_drr_ap : A; at_kv_ap : A; at_drr_lat : A; at_kv_lat : A }.
Arguments mkSlots {A} _ _ _ _.
Arguments at_drr_ap {A} _.
Arguments at_kv_ap {A} _.
Arguments at_drr_lat {A} _.
Arguments at_kv_lat {A} _.

Definition gets {A} (d : Slots A) (k : Slot) : A :=
  match k with
  | drr_ap => at_drr_ap d | kv_ap => at_kv_ap d
  | drr_lat => at_drr_lat d | kv_lat => at_kv_lat d
  end.
Definition sets {A} (d : Slots A) (k : Slot) (x : A) : Slots A :=
  match k with
  | drr_ap => mkSlots x (at_kv_ap d) (at_drr_lat d) (at_kv_lat d)
  | kv_ap => mkSlots (at_drr_ap d) x (at_drr_lat d) (at_kv_lat d)
  | drr_lat => mkSlots (at_drr_ap d) (at_kv_ap d) x (at_kv_lat d)
  | kv_lat => mkSlots (at_drr_ap d) (at_kv_ap d) (at_drr_lat d) x
  end.
Definition all_slots {A} (x : A) : Slots A := mkSlots x x x x.

(** [self.kv_offsets]: keys ['ap_x'], ['ap_y'], ['lat_x'], ['lat_y']. *)
Record KvOffsets := mkKv { ap_x : Z; ap_y : Z; lat_x : Z; lat_y : Z }.

(** [d[f'{view}_x']] and [d[f'{view}_y']]. *)
Definition get_x (d : KvOffsets) (v : View) : Z :=
  match v with ap => ap_x d | lat => lat_x d end.
Definition get_y (d : KvOffsets) (v : View) : Z :=
  match v with ap => ap_y d | lat => lat_y d end.
(** [d[f'{view}_x'] += dx]. *)
Definition add_x (d : KvOffsets) (v : View) (dx : Z) : KvOffsets :=
  match v with
  | ap => mkKv (ap_x d + dx) (ap_y d) (lat_x d) (lat_y d)
  | lat => mkKv (ap_x d) (ap_y d) (lat_x d + dx) (lat_y d)
  end.
(** [d['ap_y'] += dy; d['lat_y'] += dy]. *)
Definition add_y_both (d : KvOffsets) (dy : Z) : KvOffsets :=
  mkKv (ap_x d) (ap_y d + dy) (lat_x d) (lat_y d + dy).

(** ** Rasters *)

(** An image is its size and its pixel grid; the pixel type is the mode:
    [RGB] triples for mode ["RGB"], one byte for mode ["L"]. *)
Record Raster (P : Type) := mkRaster
  { width : Z; height : Z; getpixel : Z -> Z -> P }.
Arguments mkRaster {P} _ _ _.
Arguments width {P} _.
Arguments height {P} _.
Arguments getpixel {P} _ _ _.

Definition RGB : Type := Z * Z * Z.
Definition RGBImage : Type := Raster RGB.
Definition LImage : Type := Raster Z.

Module Image.

(** [Image.new(mode, (w, h), color)]. *)
Definition new {P} (size : Z * Z) (color : P) : Raster P :=
  mkRaster (fst size) (snd size) (fun _ _ => color).

(** Whether [(x, y)] lies in the [w] by [h] box whose corner is [(ox, oy)]. *)
Definition in_box (ox oy w h x y : Z) : bool :=
  (ox <=? x) && (x <? ox + w) && (oy <=? y) && (y <? oy + h).

(** [dst.paste(src, (ox, oy))]: [src] covers the box at [(ox, oy)], clipped
    to [dst]; the other pixels of [dst] stay. *)
Definition paste {P} (dst src : Raster P) (box : Z * Z) : Raster P :=
  mkRaster (width dst) (height dst)
    (fun x y =>
       if in_box (fst box) (snd box) (width src) (height src) x y
       then getpixel src (x - fst box) (y - snd box)
       else getpixel dst x y).

(** [Image.merge("RGB", (r, g, b))] of three ["L"] bands. *)
Definition merge (r g b : LImage) : RGBImage :=
  mkRaster (width r) (height r)
    (fun x y => (getpixel r x y, getpixel g x y, getpixel b x y)).

(** [im.convert('RGB')] of an ["L"] image. *)
Definition convert_RGB (im : LImage) : RGBImage :=
  mkRaster (width im) (height im)
    (fun x y => let v := getpixel im x y in (v, v, v)).

(** [im.point(f)] on an ["L"] image: the table [[f(i) for i in range(256)]]
    is built first ([None] when [f] raises), then looked up per pixel. *)
Definition lut (f : Z -> option Z) : option (list Z) :=
  mapM f (map Z.of_nat (seq 0 256)).
Definition point (f : Z -> option Z) (im : LImage) : option LImage :=
  match lut f with
  | Some t =>
      Some (mkRaster (width im) (height im)
              (fun x y => nth (Z.to_nat (getpixel im x y)) t 0))
  | None => None
  end.

End Image.

Module ImageChops.

(** [ImageChops.subtract(a, b)] and [ImageChops.add(a, b)] with the
    default scale 1.0 and offset 0: the result is clipped to a byte. *)
Definition subtract (a b : LImage) : LImage :=
  mkRaster (width a) (height a)
    (fun x y => Z.max 0 (getpixel a x y - getpixel b x y)).
Definition add (a b : LImage) : LImage :=
  mkRaster (width a) (height a)
    (fun x y => Z.min 255 (getpixel a x y + getpixel b x y)).

End ImageChops.

Inductive Enhancer := Brightness | Contrast | Sharpness.

(** The numeric kernels of Pillow the program calls.  They are total,
    deterministic functions of their arguments. *)
Class Pillow := {
  (** pixel [(x, y)] of [im.resize((w, h), LANCZOS)] *)
  lanczos : RGBImage -> Z -> Z -> Z -> Z -> RGB;
  (** pixel [(x, y)] of [im.rotate(angle, expand=False)] *)
  rotated : RGBImage -> float -> Z -> Z -> RGB;
  (** the luma transform of [convert("L")] *)
  luma : Z -> Z -> Z -> Z;
  (** how [Image.blend] stores an interpolated channel value in a byte *)
  to_uint8 : float -> Z;
  (** [im.thumbnail(size)] *)
  thumbnail : RGBImage -> Z * Z -> RGBImage;
  (** [ImageEnhance.X(im).enhance(factor)] in mode ["RGB"] and mode ["L"] *)
  enhance_RGB : Enhancer -> RGBImage -> float -> RGBImage;
  enhance_L : Enhancer -> LImage -> float -> LImage;
  (** [ImageOps] and [ImageFilter] on mode ["L"] *)
  equalize : LImage -> LImage;
  autocontrast : LImage -> Z -> LImage;
  GaussianBlur : float -> LImage -> LImage;
  UnsharpMask : float -> Z -> Z -> LImage -> LImage;
  MedianFilter : Z -> LImage -> LImage;
  SMOOTH_MORE : LImage -> LImage;
  (** [x ** y] on floats *)
  float_pow : float -> float -> float
}.

Section Rendering.
Context `{Pillow}.

(** [im.resize((w, h), LANCZOS)]: the result has the requested size. *)
Definition resize (im : RGBImage) (size : Z * Z) : RGBImage :=
  mkRaster (fst size) (snd size) (lanczos im (fst size) (snd size)).

(** [im.rotate(angle, expand=False)]: the canvas keeps its size. *)
Definition rotate (im : RGBImage) (angle : float) : RGBImage :=
  mkRaster (width im) (height im) (rotated im angle).

(** The luminance of a pixel. *)
Definition luminance (p : RGB) : Z := let '(r, g, b) := p in luma r g b.

(** [im.convert("L")] of an ["RGB"] image. *)
Definition convert_L (im : RGBImage) : LImage :=
  mkRaster (width im) (height im) (fun x y => luminance (getpixel im x y)).

(** One channel of [Image.blend(im1, im2, alpha)]:
    [im1 * (1.0 - alpha) + im2 * alpha]. *)
Definition blend_channel (alpha : float) (a b : Z) : Z :=
  to_uint8 (float_of_int a * (1 - alpha) + float_of_int b * alpha)%float.

Definition blend_pixel (alpha : float) (p q : RGB) : RGB :=
  let '(r1, g1, b1) := p in
  let '(r2, g2, b2) := q in
  (blend_channel alpha r1 r2, blend_channel alpha g1 g2,
   blend_channel alpha b1 b2).

(** [Image.blend(im1, im2, alpha)]. *)
Definition blend (im1 im2 : RGBImage) (alpha : float) : RGBImage :=
  mkRaster (width im1) (height im1)
    (fun x y => blend_pixel alpha (getpixel im1 x y) (getpixel im2 x y)).

(** [_create_color_overlay]. *)
Definition _create_color_overlay (drr_img kv_img : RGBImage) : RGBImage :=
  let r := convert_L drr_img in
  let gb := convert_L kv_img in
  Image.merge r gb gb.

(** *** The six filter recipes *)

Definition _f_content_balance (img : RGBImage) : RGBImage :=
  let g := convert_L img in
  let base := equalize g in
  let blur := GaussianBlur 2 g in
  let detail := ImageChops.subtract g blur in
  let mix := ImageChops.add base detail in
  let mix := autocontrast mix 1 in
  let mix := UnsharpMask 1.2 120 3 mix in
  Image.convert_RGB mix.

Definition _f_collins_bone (img : RGBImage) : RGBImage :=
  let g := convert_L img in
  let g := autocontrast g 2 in
  let high := UnsharpMask 2.0 170 3 g in
  let high := enhance_L Contrast high 1.25 in
  Image.convert_RGB high.

Definition _f_rizzler_low_dose (img : RGBImage) : RGBImage :=
  let g := convert_L img in
  let g := GaussianBlur 1 g in
  let g := enhance_L Sharpness g 1.15 in
  let g := enhance_L Contrast g 1.05 in
  Image.convert_RGB g.

(** The gamma curve [lambda i: int(((i / 255.0) ** gamma) * 255)]. *)
Definition gamma_curve (gamma : float) (i : Z) : option Z :=
  py_int (float_pow (float_of_int i / 255.0) gamma * 255)%float.

(** [None] when building the gamma table raises. *)
Definition _f_soft_tissue (img : RGBImage) : option RGBImage :=
  let g := convert_L img in
  let g := MedianFilter 3 g in
  let gamma := 0.9%float in
  match Image.point (gamma_curve gamma) g with
  | Some g =>
      let g := enhance_L Contrast g 1.08 in
      let g := SMOOTH_MORE g in
      Some (Image.convert_RGB g)
  | None => None
  end.

Definition _f_jayhawk_local_contrast (img : RGBImage) : RGBImage :=
  let g := convert_L img in
  let g := equalize g in
  let g := UnsharpMask 3 180 2 g in
  let g := enhance_L Contrast g 1.10 in
  let g := enhance_L Sharpness g 1.08 in
  Image.convert_RGB g.

Definition _f_radfilter_match_assist (img : RGBImage) : RGBImage :=
  let g := convert_L img in
  let g := MedianFilter 3 g in
  let g := autocontrast g 1 in
  let blur1 := GaussianBlur 2 g in
  let blur2 := GaussianBlur 6 g in
  let hp1 := ImageChops.subtract g blur1 in
  let hp2 := ImageChops.subtract g blur2 in
  let mix := ImageChops.add (ImageChops.add g hp1) hp2 in
  let mix := UnsharpMask 1.2 110 3 mix in
  let mix := enhance_L Contrast mix 1.06 in
  Image.convert_RGB mix.

End Rendering.

(** ** The object store *)

(** A reference names a dictionary object. *)
Definition ref : Type := nat.

(** A fresh object holding [x]. *)
Definition alloc {A} (m : gmap nat A) (x : A) : gmap nat A * ref :=
  let l := fresh (dom m) in (<[l:=x]> m, l).

(** The three kinds of dictionary the program shares by reference: the
    offsets dictionary, the dictionaries from a view to a number (rotations,
    zoom levels, and each inner dictionary of the adjustment values), and the
    dictionary from a view to a pan tuple. *)
Record Heap := mkHeap {
  kv_cells : gmap nat KvOffsets;
  num_cells : gmap nat (PerView float);
  pan_cells : gmap nat (PerView (float * float))
}.

Definition empty_heap : Heap := mkHeap ∅ ∅ ∅.

Definition read_kv (h : Heap) (l : ref) : KvOffsets :=
  default (mkKv 0 0 0 0) (kv_cells h !! l).
Definition read_num (h : Heap) (l : ref) : PerView float :=
  default (mkPerView 0%float 0%float) (num_cells h !! l).
Definition read_pan (h : Heap) (l : ref) : PerView (float * float) :=
  default (mkPerView (0%float, 0%float) (0%float, 0%float)) (pan_cells h !! l).

(** In-place update of the object behind a reference. *)
Definition write_kv (h : Heap) (l : ref) (d : KvOffsets) : Heap :=
  mkHeap (<[l:=d]> (kv_cells h)) (num_cells h) (pan_cells h).
Definition write_num (h : Heap) (l : ref) (d : PerView float) : Heap :=
  mkHeap (kv_cells h) (<[l:=d]> (num_cells h)) (pan_cells h).
Definition write_pan (h : Heap) (l : ref) (d : PerView (float * float)) : Heap :=
  mkHeap (kv_cells h) (num_cells h) (<[l:=d]> (pan_cells h)).

(** A dictionary literal: a new object. *)
Definition new_kv (h : Heap) (d : KvOffsets) : Heap * ref :=
  let '(m, l) := alloc (kv_cells h) d in
  (mkHeap m (num_cells h) (pan_cells h), l).
Definition new_num (h : Heap) (d : PerView float) : Heap * ref :=
  let '(m, l) := alloc (num_cells h) d in
  (mkHeap (kv_cells h) m (pan_cells h), l).
Definition new_pan (h : Heap) (d : PerView (float * float)) : Heap * ref :=
  let '(m, l) := alloc (pan_cells h) d in
  (mkHeap (kv_cells h) (num_cells h) m, l).

(** [d.copy()]: a new object with the contents of [d]. *)
Definition copy_kv (h : Heap) (l : ref) : Heap * ref := new_kv h (read_kv h l).
Definition copy_num (h : Heap) (l : ref) : Heap * ref := new_num h (read_num h l).
Definition copy_pan (h : Heap) (l : ref) : Heap * ref := new_pan h (read_pan h l).

(** ** The state of [OrthogonalMatchUI] *)

(** The keys of [self.adjustment_values]. *)
Inductive AdjType := brightness | contrast | sharpness.

Record Adjustments (A : Type) := mkAdj
  { at_brightness : A; at_contrast : A; at_sharpness : A }.
Arguments mkAdj {A} _ _ _.
Arguments at_brightness {A} _.
Arguments at_contrast {A} _.
Arguments at_sharpness {A} _.

Definition geta {A} (d : Adjustments A) (k : AdjType) : A :=
  match k with
  | brightness => at_brightness d
  | contrast => at_contrast d
  | sharpness => at_sharpness d
  end.

(** The entries of the filter menu. *)
Inductive FilterName :=
| Select_Filter
| Washburn_Ichabod_Balance
| Low_Dose_Boost
| Skeletal_Emphasis_Collins
| Local_Contrast_Jayhawk
| Soft_Tissue_Enhance
| RadFilter_Match_Assist.

(** The texts of the status bar. *)
Inductive Status :=
| Ready
| AP_view_selected
| Lateral_view_selected
| No_initial_state_to_reset
| Restored_to_default
| Nothing_to_undo
| Undo_successful
| No_image_loaded_for (k : Slot)
| Selected (k : Slot)
| Adjusted (adj_type : AdjType) (value : float)
| Reset_adjustments_for (k : Slot)
| Please_select_a_filter
| Load_a_dataset_first
| Applied (name : FilterName) (k : Slot)
| Filter_error
| Dataset_not_found
| Loaded (n : Z)
| No_valid_images_found.

(** The state dictionaries by value: [self.initial_state], and what a
    history entry holds when its references are followed. *)
Record Snapshot := mkSnapshot {
  s_kv_offsets : KvOffsets;
  s_rotations : PerView float;
  s_zoom_levels : PerView float;
  s_pan_offsets : PerView (float * float);
  s_adjustment_values : Adjustments (PerView float);
  s_alpha : float;
  s_use_color_overlay : bool
}.

(** The dictionary [st] that [_save_state] appends to [self.history]: five
    references to dictionaries and two plain values. *)
Record Entry := mkEntry {
  e_kv_offsets : ref;
  e_rotations : ref;
  e_zoom_levels : ref;
  e_pan_offsets : ref;
  e_adjustment_values : Adjustments ref;
  e_alpha : float;
  e_use_color_overlay : bool
}.

(** The values the widgets show.  A label holds the number its text is
    formatted from. *)
Record Widgets := mkWidgets {
  rotation_scale : float;
  rotation_label : float;
  zoom_label : Z;
  brightness_scale : float;
  contrast_scale : float;
  sharpness_scale : float;
  brightness_val : float;
  contrast_val : float;
  sharpness_val : float;
  status_var : Status;
  (** the match canvas with the yellow border, if any *)
  canvas_borders : option View;
  (** the thumbnail with the yellow border, if any *)
  thumbnail_border : option Slot;
  adj_img_var : Slot
}.

(** [self.tk_images]: what the two match canvases and the four thumbnail
    canvases display. *)
Record TkImages := mkTk {
  match_canvas : PerView (option RGBImage);
  thumbnails : Slots (option RGBImage)
}.

Record App := mkApp {
  images : Slots (option RGBImage);
  original_images : Slots (option RGBImage);
  kv_offsets : ref;
  rotations : ref;
  zoom_levels : ref;
  pan_offsets : ref;
  adjustment_values : Adjustments ref;
  alpha : float;
  use_color_overlay : bool;
  filter_var : FilterName;
  current_adjustment_image : Slot;
  history : list Entry;
  initial_state : option Snapshot;
  drag_start : option (Z * Z);
  active_view : option View;
  _ignore_rotation_callback : bool;
  widgets : Widgets;
  tk_images : TkImages;
  heap : Heap
}.

(** Field updates of [App] and [Widgets]. *)
Definition set_images v (st : App) : App :=
  mkApp
    v (original_images st) (kv_offsets st) (rotations st) (zoom_levels st)
    (pan_offsets st) (adjustment_values st) (alpha st) (use_color_overlay st)
    (filter_var st) (current_adjustment_image st) (history st)
    (initial_state st) (drag_start st) (active_view st)
    (_ignore_rotation_callback st) (widgets st) (tk_images st) (heap st).
Definition set_original_images v (st : App) : App :=
  mkApp
    (images st) v (kv_offsets st) (rotations st) (zoom_levels st)
    (pan_offsets st) (adjustment_values st) (alpha st) (use_color_overlay st)
    (filter_var st) (current_adjustment_image st) (history st)
    (initial_state st) (drag_start st) (active_view st)
    (_ignore_rotation_callback st) (widgets st) (tk_images st) (heap st).
Definition set_kv_offsets v (st : App) : App :=
  mkApp
    (images st) (original_images st) v (rotations st) (zoom_levels st)
    (pan_offsets st) (adjustment_values st) (alpha st) (use_color_overlay st)
    (filter_var st) (current_adjustment_image st) (history st)
    (initial_state st) (drag_start st) (active_view st)
    (_ignore_rotation_callback st) (widgets st) (tk_images st) (heap st).
Definition set_rotations v (st : App) : App :=
  mkApp
    (images st) (original_images st) (kv_offsets st) v (zoom_levels st)
    (pan_offsets st) (adjustment_values st) (alpha st) (use_color_overlay st)
    (filter_var st) (current_adjustment_image st) (history st)
    (initial_state st) (drag_start st) (active_view st)
    (_ignore_rotation_callback st) (widgets st) (tk_images st) (heap st).
Definition set_zoom_levels v (st : App) : App :=
  mkApp
    (images st) (original_images st) (kv_offsets st) (rotations st) v
    (pan_offsets st) (adjustment_values st) (alpha st) (use_color_overlay st)
    (filter_var st) (current_adjustment_image st) (history st)
    (initial_state st) (drag_start st) (active_view st)
    (_ignore_rotation_callback st) (widgets st) (tk_images st) (heap st).
Definition set_pan_offsets v (st : App) : App :=
  mkApp
    (images st) (original_images st) (kv_offsets st) (rotations st)
    (zoom_levels st) v (adjustment_values st) (alpha st)
    (use_color_overlay st) (filter_var st) (current_adjustment_image st)
    (history st) (initial_state st) (drag_start st) (active_view st)
    (_ignore_rotation_callback st) (widgets st) (tk_images st) (heap st).
Definition set_adjustment_values v (st : App) : App :=
  mkApp
    (images st) (original_images st) (kv_offsets st) (rotations st)
    (zoom_levels st) (pan_offsets st) v (alpha st) (use_color_overlay st)
    (filter_var st) (current_adjustment_image st) (history st)
    (initial_state st) (drag_start st) (active_view st)
    (_ignore_rotation_callback st) (widgets st) (tk_images st) (heap st).
Definition set_alpha v (st : App) : App :=
  mkApp
    (images st) (original_images st) (kv_offsets st) (rotations st)
    (zoom_levels st) (pan_offsets st) (adjustment_values st) v
    (use_color_overlay st) (filter_var st) (current_adjustment_image st)
    (history st) (initial_state st) (drag_start st) (active_view st)
    (_ignore_rotation_callback st) (widgets st) (tk_images st) (heap st).
Definition set_use_color_overlay v (st : App) : App :=
  mkApp
    (images st) (original_images st) (kv_offsets st) (rotations st)
    (zoom_levels st) (pan_offsets st) (adjustment_values st) (alpha st) v
    (filter_var st) (current_adjustment_image st) (history st)
    (initial_state st) (drag_start st) (active_view st)
    (_ignore_rotation_callback st) (widgets st) (tk_images st) (heap st).
Definition set_filter_var v (st : App) : App :=
  mkApp
    (images st) (original_images st) (kv_offsets st) (rotations st)
    (zoom_levels st) (pan_offsets st) (adjustment_values st) (alpha st)
    (use_color_overlay st) v (current_adjustment_image st) (history st)
    (initial_state st) (drag_start st) (active_view st)
    (_ignore_rotation_callback st) (widgets st) (tk_images st) (heap st).
Definition set_current_adjustment_image v (st : App) : App :=
  mkApp
    (images st) (original_images st) (kv_offsets st) (rotations st)
    (zoom_levels st) (pan_offsets st) (adjustment_values st) (alpha st)
    (use_color_overlay st) (filter_var st) v (history st) (initial_state st)
    (drag_start st) (active_view st) (_ignore_rotation_callback st)
    (widgets st) (tk_images st) (heap st).
Definition set_history v (st : App) : App :=
  mkApp
    (images st) (original_images st) (kv_offsets st) (rotations st)
    (zoom_levels st) (pan_offsets st) (adjustment_values st) (alpha st)
    (use_color_overlay st) (filter_var st) (current_adjustment_image st) v
    (initial_state st) (drag_start st) (active_view st)
    (_ignore_rotation_callback st) (widgets st) (tk_images st) (heap st).
Definition set_initial_state v (st : App) : App :=
  mkApp
    (images st) (original_images st) (kv_offsets st) (rotations st)
    (zoom_levels st) (pan_offsets st) (adjustment_values st) (alpha st)
    (use_color_overlay st) (filter_var st) (current_adjustment_image st)
    (history st) v (drag_start st) (active_view st)
    (_ignore_rotation_callback st) (widgets st) (tk_images st) (heap st).
Definition set_drag_start v (st : App) : App :=
  mkApp
    (images st) (original_images st) (kv_offsets st) (rotations st)
    (zoom_levels st) (pan_offsets st) (adjustment_values st) (alpha st)
    (use_color_overlay st) (filter_var st) (current_adjustment_image st)
    (history st) (initial_state st) v (active_view st)
    (_ignore_rotation_callback st) (widgets st) (tk_images st) (heap st).
Definition set_active_view v (st : App) : App :=
  mkApp
    (images st) (original_images st) (kv_offsets st) (rotations st)
    (zoom_levels st) (pan_offsets st) (adjustment_values st) (alpha st)
    (use_color_overlay st) (filter_var st) (current_adjustment_image st)
    (history st) (initial_state st) (drag_start st) v
    (_ignore_rotation_callback st) (widgets st) (tk_images st) (heap st).
Definition set_ignore_rotation_callback v (st : App) : App :=
  mkApp
    (images st) (original_images st) (kv_offsets st) (rotations st)
    (zoom_levels st) (pan_offsets st) (adjustment_values st) (alpha st)
    (use_color_overlay st) (filter_var st) (current_adjustment_image st)
    (history st) (initial_state st) (drag_start st) (active_view st) v
    (widgets st) (tk_images st) (heap st).
Definition set_widgets (f : Widgets -> Widgets) (st : App) : App :=
  mkApp
    (images st) (original_images st) (kv_offsets st) (rotations st)
    (zoom_levels st) (pan_offsets st) (adjustment_values st) (alpha st)
    (use_color_overlay st) (filter_var st) (current_adjustment_image st)
    (history st) (initial_state st) (drag_start st) (active_view st)
    (_ignore_rotation_callback st) (f (widgets st)) (tk_images st) (heap st).
Definition set_tk_images v (st : App) : App :=
  mkApp
    (images st) (original_images st) (kv_offsets st) (rotations st)
    (zoom_levels st) (pan_offsets st) (adjustment_values st) (alpha st)
    (use_color_overlay st) (filter_var st) (current_adjustment_image st)
    (history st) (initial_state st) (drag_start st) (active_view st)
    (_ignore_rotation_callback st) (widgets st) v (heap st).
Definition set_heap v (st : App) : App :=
  mkApp
    (images st) (original_images st) (kv_offsets st) (rotations st)
    (zoom_levels st) (pan_offsets st) (adjustment_values st) (alpha st)
    (use_color_overlay st) (filter_var st) (current_adjustment_image st)
    (history st) (initial_state st) (drag_start st) (active_view st)
    (_ignore_rotation_callback st) (widgets st) (tk_images st) v.

(** The value a [ttk.Scale] with the range [from_ .. to] keeps of the one
    it is [set] to: [value < from ? from : value > to ? to : value].  (The
    toolkit raises on a NaN.  The window sets its scales to the constants
    [0] and [1.0], to a rotation the wheel computed and to adjustment
    values that the scales themselves delivered, none of them a NaN.) *)
Definition scale_clip (from_ to value : float) : float :=
  if (value <? from_)%float then from_
  else if (to <? value)%float then to
  else value.

(** [rotation_scale.set(a)], under [_ignore_rotation_callback], together
    with the label text [f"{a:.0f}"]: the scale, built with
    [from_=-180, to=180], keeps the angle limited to its range; the label
    shows the angle itself. *)
Definition set_rotation_shown (a : float) (w : Widgets) : Widgets :=
  mkWidgets (scale_clip (-180) 180 a) a (zoom_label w) (brightness_scale w)
    (contrast_scale w) (sharpness_scale w) (brightness_val w)
    (contrast_val w) (sharpness_val w) (status_var w) (canvas_borders w)
    (thumbnail_border w) (adj_img_var w).
(** [rotation_label.config(text=f"{a:.0f}")] alone. *)
Definition set_rotation_label (a : float) (w : Widgets) : Widgets :=
  mkWidgets (rotation_scale w) a (zoom_label w) (brightness_scale w)
    (contrast_scale w) (sharpness_scale w) (brightness_val w)
    (contrast_val w) (sharpness_val w) (status_var w) (canvas_borders w)
    (thumbnail_border w) (adj_img_var w).
Definition set_zoom_label (percent : Z) (w : Widgets) : Widgets :=
  mkWidgets (rotation_scale w) (rotation_label w) percent
    (brightness_scale w) (contrast_scale w) (sharpness_scale w)
    (brightness_val w) (contrast_val w) (sharpness_val w) (status_var w)
    (canvas_borders w) (thumbnail_border w) (adj_img_var w).
(** The value one adjustment scale holds. *)
Definition set_scale (k : AdjType) (v : float) (w : Widgets) : Widgets :=
  mkWidgets (rotation_scale w) (rotation_label w) (zoom_label w)
    (match k with brightness => v | _ => brightness_scale w end)
    (match k with contrast => v | _ => contrast_scale w end)
    (match k with sharpness => v | _ => sharpness_scale w end)
    (brightness_val w) (contrast_val w) (sharpness_val w)
    (status_var w) (canvas_borders w) (thumbnail_border w) (adj_img_var w).
(** The value label of one slider. *)
Definition set_slider_val (k : AdjType) (v : float) (w : Widgets) : Widgets :=
  mkWidgets (rotation_scale w) (rotation_label w)
    (zoom_label w) (brightness_scale w) (contrast_scale w)
    (sharpness_scale w)
    (match k with brightness => v | _ => brightness_val w end)
    (match k with contrast => v | _ => contrast_val w end)
    (match k with sharpness => v | _ => sharpness_val w end)
    (status_var w) (canvas_borders w) (thumbnail_border w) (adj_img_var w).
Definition set_status_var (s : Status) (w : Widgets) : Widgets :=
  mkWidgets (rotation_scale w) (rotation_label w)
    (zoom_label w) (brightness_scale w) (contrast_scale w)
    (sharpness_scale w) (brightness_val w) (contrast_val w)
    (sharpness_val w) s (canvas_borders w) (thumbnail_border w)
    (adj_img_var w).
Definition set_canvas_borders (v : option View) (w : Widgets) : Widgets :=
  mkWidgets (rotation_scale w) (rotation_label w)
    (zoom_label w) (brightness_scale w) (contrast_scale w)
    (sharpness_scale w) (brightness_val w) (contrast_val w)
    (sharpness_val w) (status_var w) v (thumbnail_border w)
    (adj_img_var w).
Definition set_thumbnail_border (k : option Slot) (w : Widgets) : Widgets :=
  mkWidgets (rotation_scale w) (rotation_label w)
    (zoom_label w) (brightness_scale w) (contrast_scale w)
    (sharpness_scale w) (brightness_val w) (contrast_val w)
    (sharpness_val w) (status_var w) (canvas_borders w)
    k (adj_img_var w).
Definition set_adj_img_var (k : Slot) (w : Widgets) : Widgets :=
  mkWidgets (rotation_scale w) (rotation_label w)
    (zoom_label w) (brightness_scale w) (contrast_scale w)
    (sharpness_scale w) (brightness_val w) (contrast_val w)
    (sharpness_val w) (status_var w) (canvas_borders w)
    (thumbnail_border w) k.


(** What a history entry holds once its references are followed. *)
Definition entry_value (h : Heap) (e : Entry) : Snapshot :=
  mkSnapshot
    (read_kv h (e_kv_offsets e))
    (read_num h (e_rotations e))
    (read_num h (e_zoom_levels e))
    (read_pan h (e_pan_offsets e))
    (mkAdj (read_num h (at_brightness (e_adjustment_values e)))
           (read_num h (at_contrast (e_adjustment_values e)))
           (read_num h (at_sharpness (e_adjustment_values e))))
    (e_alpha e)
    (e_use_color_overlay e).

(** The current state dictionaries, by value. *)
Definition current_value (st : App) : Snapshot :=
  mkSnapshot
    (read_kv (heap st) (kv_offsets st))
    (read_num (heap st) (rotations st))
    (read_num (heap st) (zoom_levels st))
    (read_pan (heap st) (pan_offsets st))
    (mkAdj (read_num (heap st) (at_brightness (adjustment_values st)))
           (read_num (heap st) (at_contrast (adjustment_values st)))
           (read_num (heap st) (at_sharpness (adjustment_values st))))
    (alpha st)
    (use_color_overlay st).

(** The literal of [_save_initial_state] and [_reset_to_initial_values]. *)
Definition default_values : Snapshot :=
  mkSnapshot
    (mkKv 0 0 0 0)
    (mkPerView 0%float 0%float)
    (mkPerView 1.0%float 1.0%float)
    (mkPerView (0%float, 0%float) (0%float, 0%float))
    (mkAdj (mkPerView 1.0%float 1.0%float) (mkPerView 1.0%float 1.0%float)
           (mkPerView 1.0%float 1.0%float))
    0.5%float
    false.

(** How a call ends: it returns, or an exception leaves it.  Either way the
    object keeps the state reached. *)
Inductive Outcome := Returned (st : App) | Raised (st : App).

Definition state_of (o : Outcome) : App :=
  match o with Returned st | Raised st => st end.

(** Sequencing: the rest of the body runs only after a normal return. *)
Definition and_then (o : Outcome) (k : App -> Outcome) : Outcome :=
  match o with Returned st => k st | Raised st => Raised st end.

(** A [try] block whose handler runs [handler] on the state reached. *)
Definition try_except (o : Outcome) (handler : App -> App) : Outcome :=
  match o with Returned st => Returned st | Raised st => Returned (handler st) end.

Definition DISPLAY_W : Z := 600.
Definition DISPLAY_H : Z := 400.
Definition THUMB_W : Z := 300.
Definition THUMB_H : Z := 200.

(** The dictionaries of a snapshot allocated anew and installed as the
    current ones: the assignments
    [self.kv_offsets = {...}], ..., [self.adjustment_values = {...}]
    of [_init_state] and [_reset_to_initial_values], and the
    [.copy()] assignments of [_reset_to_default]. *)
Definition install_fresh (s : Snapshot) (st : App) : App :=
  let h := heap st in
  let '(h, kv) := new_kv h (s_kv_offsets s) in
  let '(h, rot) := new_num h (s_rotations s) in
  let '(h, zoom) := new_num h (s_zoom_levels s) in
  let '(h, pan) := new_pan h (s_pan_offsets s) in
  let '(h, b) := new_num h (at_brightness (s_adjustment_values s)) in
  let '(h, c) := new_num h (at_contrast (s_adjustment_values s)) in
  let '(h, sh) := new_num h (at_sharpness (s_adjustment_values s)) in
  set_heap h
    (set_adjustment_values (mkAdj b c sh)
       (set_pan_offsets pan
          (set_zoom_levels zoom
             (set_rotations rot (set_kv_offsets kv st))))).

Section Handlers.
Context `{Pillow}.

(** *** State management *)

Definition _save_initial_state (st : App) : App :=
  set_initial_state (Some default_values) st.

(** The dictionary literal of [_save_state]: a copy of each state
    dictionary, and the two blend settings. *)
Definition snapshot (st : App) : Heap * Entry :=
  let h := heap st in
  let '(h, kv) := copy_kv h (kv_offsets st) in
  let '(h, rot) := copy_num h (rotations st) in
  let '(h, zoom) := copy_num h (zoom_levels st) in
  let '(h, pan) := copy_pan h (pan_offsets st) in
  let '(h, b) := copy_num h (at_brightness (adjustment_values st)) in
  let '(h, c) := copy_num h (at_contrast (adjustment_values st)) in
  let '(h, sh) := copy_num h (at_sharpness (adjustment_values st)) in
  (h, mkEntry kv rot zoom pan (mkAdj b c sh) (alpha st) (use_color_overlay st)).

(** [self.history.append(st)], then [self.history.pop(0)] when the length
    exceeds 20. *)
Definition history_append (hist : list Entry) (entry : Entry) : list Entry :=
  let hist := hist ++ [entry] in
  if (20 <? length hist)%nat then tail hist else hist.

Definition _save_state (st : App) : App :=
  let '(h, entry) := snapshot st in
  set_history (history_append (history st) entry) (set_heap h st).

(** *** The render path *)

(** The raster [_update_match_overlay] builds for one view from the two
    working rasters; [None] when an [int(...)] conversion raises. *)
Definition composite (view : View) (drr kv : RGBImage) (st : App)
  : option RGBImage :=
  let z := getv (read_num (heap st) (zoom_levels st)) view in
  let '(px, py) := getv (read_pan (heap st) (pan_offsets st)) view in
  match py_int (float_of_int DISPLAY_W * z)%float,
        py_int (float_of_int DISPLAY_H * z)%float with
  | Some sw, Some sh =>
      let drr_scaled := resize drr (sw, sh) in
      let kv_scaled := resize kv (sw, sh) in
      let angle := getv (read_num (heap st) (rotations st)) ap in
      let kv_scaled :=
        if View_eqb view ap && negb (angle =? 0)%float
        then rotate kv_scaled angle else kv_scaled in
      let dx_rel := get_x (read_kv (heap st) (kv_offsets st)) view in
      let dy_rel := get_y (read_kv (heap st) (kv_offsets st)) view in
      let drr_view := Image.new (DISPLAY_W, DISPLAY_H) (0, 0, 0) in
      let kv_view := Image.new (DISPLAY_W, DISPLAY_H) (0, 0, 0) in
      match py_int px, py_int py with
      | Some ipx, Some ipy =>
          let drr_view := Image.paste drr_view drr_scaled (- ipx, - ipy) in
          let kv_view :=
            Image.paste kv_view kv_scaled (dx_rel - ipx, dy_rel - ipy) in
          Some (if use_color_overlay st
                then _create_color_overlay drr_view kv_view
                else blend drr_view kv_view (alpha st))
      | _, _ => None
      end
  | _, _ => None
  end.

(** One turn of the loop over the views. *)
Definition render_view (view : View) (st : App) : Outcome :=
  match gets (images st) (drr_ view), gets (images st) (kv_ view) with
  | Some drr, Some kv =>
      match composite view drr kv st with
      | Some blended =>
          Returned
            (set_tk_images
               (mkTk (setv (match_canvas (tk_images st)) view (Some blended))
                     (thumbnails (tk_images st))) st)
      | None => Raised st
      end
  | _, _ => Returned st
  end.

(** One turn of the loop over the thumbnails. *)
Definition render_thumbnail (key : Slot) (st : App) : App :=
  match gets (images st) key with
  | Some img =>
      set_tk_images
        (mkTk (match_canvas (tk_images st))
              (sets (thumbnails (tk_images st)) key
                 (Some (thumbnail img (THUMB_W, THUMB_H))))) st
  | None => st
  end.

Definition _update_match_overlay (st : App) : Outcome :=
  and_then (render_view ap st) (fun st =>
  and_then (render_view lat st) (fun st =>
  Returned
    (render_thumbnail kv_lat
       (render_thumbnail drr_lat
          (render_thumbnail kv_ap (render_thumbnail drr_ap st)))))).

(** *** Construction *)

Definition _init_state : App :=
  install_fresh default_values
    (mkApp (all_slots None) (all_slots None) 0%nat 0%nat 0%nat 0%nat
       (mkAdj 0%nat 0%nat 0%nat) 0.5%float false Select_Filter drr_ap []
       None None None false
       (mkWidgets 0 0 100 1.0 1.0 1.0 1.0 1.0 1.0 Ready None None drr_ap)
       (mkTk (mkPerView None None) (all_slots None))
       empty_heap).

(** [__init__], after the window is laid out. *)
Definition __init__ : Outcome :=
  _update_match_overlay (_save_state (_save_initial_state _init_state)).

(** *** Events *)

(** A wheel event: its [delta], and the canvas coordinates
    [canvas.canvasx(event.x)], [canvas.canvasy(event.y)] of the pointer. *)
Record WheelEvent := mkWheel { delta : Z; cx : float; cy : float }.

(** The slider callback; [val] is the number the scale hands over. *)
Definition _rotate_active (val : float) (st : App) : Outcome :=
  if _ignore_rotation_callback st
     || negb (match active_view st with Some ap => true | _ => false end)
  then Returned st
  else
    let a := val in
    let st :=
      set_heap
        (write_num (heap st) (rotations st)
           (setv (read_num (heap st) (rotations st)) ap a)) st in
    let st := set_widgets (set_rotation_label a) st in
    let st := _save_state st in
    try_except (_update_match_overlay st) (fun st => st).

Definition _activate_drag (x y : Z) (view : View) (st : App) : Outcome :=
  let st := set_active_view (Some view) st in
  let st := set_drag_start (Some (x, y)) st in
  let st := set_widgets (set_canvas_borders (Some view)) st in
  let st := set_ignore_rotation_callback true st in
  let st :=
    match view with
    | ap =>
        let a := getv (read_num (heap st) (rotations st)) ap in
        set_widgets (set_status_var AP_view_selected)
          (set_widgets (set_rotation_shown a) st)
    | lat =>
        set_widgets (set_status_var Lateral_view_selected)
          (set_widgets (set_rotation_shown 0) st)
    end in
  Returned (set_ignore_rotation_callback false st).

Definition _drag_kv (x y : Z) (view : View) (st : App) : Outcome :=
  match drag_start st, gets (images st) (kv_ view) with
  | Some (x0, y0), Some _ =>
      let dx := x - x0 in
      let dy := y - y0 in
      let st := set_drag_start (Some (x, y)) st in
      let st :=
        if negb (dx =? 0)
        then set_heap
               (write_kv (heap st) (kv_offsets st)
                  (add_x (read_kv (heap st) (kv_offsets st)) view dx)) st
        else st in
      let st :=
        if negb (dy =? 0)
        then set_heap
               (write_kv (heap st) (kv_offsets st)
                  (add_y_both (read_kv (heap st) (kv_offsets st)) dy)) st
        else st in
      _update_match_overlay (_save_state st)
  | _, _ => Returned st
  end.

Definition _nudge_kv (dx dy : Z) (st : App) : Outcome :=
  let st :=
    match active_view st with
    | Some view =>
        set_heap
          (write_kv (heap st) (kv_offsets st)
             (add_x (read_kv (heap st) (kv_offsets st)) view dx)) st
    | None => st
    end in
  let st :=
    if negb (dy =? 0)
    then set_heap
           (write_kv (heap st) (kv_offsets st)
              (add_y_both (read_kv (heap st) (kv_offsets st)) dy)) st
    else st in
  _update_match_overlay (_save_state st).

(** [max(0.2, min(5.0, old + step))]. *)
Definition zoom_step (e : WheelEvent) : float :=
  if 0 <? delta e then 0.1%float else (-0.1)%float.
Definition zoom_target (old : float) (e : WheelEvent) : float :=
  py_max 0.2 (py_min 5.0 (old + zoom_step e)).

Definition _zoom (e : WheelEvent) (view : View) (st : App) : Outcome :=
  match gets (images st) (drr_ view), gets (images st) (kv_ view) with
  | Some _, Some _ =>
      let old := getv (read_num (heap st) (zoom_levels st)) view in
      let new := zoom_target old e in
      if (new =? old)%float then Returned st
      else
        let '(px, py) := getv (read_pan (heap st) (pan_offsets st)) view in
        let px := (px + cx e * (1 - new / old))%float in
        let py := (py + cy e * (1 - new / old))%float in
        let st :=
          set_heap
            (write_pan (heap st) (pan_offsets st)
               (setv (read_pan (heap st) (pan_offsets st)) view (px, py))) st in
        let st :=
          set_heap
            (write_num (heap st) (zoom_levels st)
               (setv (read_num (heap st) (zoom_levels st)) view new)) st in
        match py_int (new * 100)%float with
        | Some percent =>
            let st := set_widgets (set_zoom_label percent) st in
            _update_match_overlay (_save_state st)
        | None => Raised st
        end
  | _, _ => Returned st
  end.

Definition _mouse_scroll (e : WheelEvent) (view : View) (st : App) : Outcome :=
  match view with
  | ap =>
      let d := if 0 <? delta e then 1%float else (-1)%float in
      let a :=
        py_float_mod (getv (read_num (heap st) (rotations st)) ap + d) 360 in
      let st :=
        set_heap
          (write_num (heap st) (rotations st)
             (setv (read_num (heap st) (rotations st)) ap a)) st in
      let st := set_ignore_rotation_callback true st in
      let st := set_widgets (set_rotation_shown a) st in
      let st := set_ignore_rotation_callback false st in
      _update_match_overlay (_save_state st)
  | lat => Returned st
  end.

(** The blend scale: the toolkit writes [self.alpha], then runs the
    command, which is [_update_match_overlay]. *)
Definition blend_row_Scale (value : float) (st : App) : Outcome :=
  _update_match_overlay (set_alpha value st).

(** The colour overlay check button: the toolkit writes
    [self.use_color_overlay], then runs [_update_match_overlay]. *)
Definition blend_row_Checkbutton (value : bool) (st : App) : Outcome :=
  _update_match_overlay (set_use_color_overlay value st).

(** *** The adjustment scales

    [_adjust_image] stands ahead of the handlers that set an adjustment
    scale, since setting the scale runs it. *)

(** The working raster of the adjustment chain: brightness, then
    contrast, then sharpness, from a copy of the original. *)
Definition enhanced (original : RGBImage) (view : View) (st : App)
  : RGBImage :=
  let img := original in
  let img :=
    enhance_RGB Brightness img
      (getv (read_num (heap st) (at_brightness (adjustment_values st))) view) in
  let img :=
    enhance_RGB Contrast img
      (getv (read_num (heap st) (at_contrast (adjustment_values st))) view) in
  enhance_RGB Sharpness img
    (getv (read_num (heap st) (at_sharpness (adjustment_values st))) view).

Definition _adjust_image (adj_type : AdjType) (value : float) (st : App)
  : Outcome :=
  let st := set_widgets (set_slider_val adj_type value) st in
  let view := view_of_slot (current_adjustment_image st) in
  let inner := geta (adjustment_values st) adj_type in
  let st :=
    set_heap
      (write_num (heap st) inner (setv (read_num (heap st) inner) view value))
      st in
  match gets (original_images st) (current_adjustment_image st) with
  | None => Returned st
  | Some original =>
      let img := enhanced original view st in
      let st :=
        set_images (sets (images st) (current_adjustment_image st) (Some img))
          st in
      let st := _save_state st in
      and_then (_update_match_overlay st) (fun st =>
      Returned (set_widgets (set_status_var (Adjusted adj_type value)) st))
  end.

(** [self.<k>_scale.set(value)] for an adjustment scale, built with
    [from_=0.1, to=3.0] and
    [command=lambda v, k=key: self._adjust_image(k, float(v))]: the scale
    keeps the value limited to its range and the command runs on the value
    kept, before [set] returns.  [set] returns normally also when the
    command raised. *)
Definition scale_set (k : AdjType) (value : float) (st : App) : App :=
  let v := scale_clip 0.1 3.0 value in
  let st := set_widgets (set_scale k v) st in
  state_of (_adjust_image k v st).

(** [self.images[k] = self.original_images[k].copy()] where an original
    is loaded. *)
Definition restore_slot (k : Slot) (st : App) : App :=
  match gets (original_images st) k with
  | Some img => set_images (sets (images st) k (Some img)) st
  | None => st
  end.

Definition _reset_to_default (st : App) : Outcome :=
  match initial_state st with
  | None => Returned (set_widgets (set_status_var No_initial_state_to_reset) st)
  | Some init =>
      let st :=
        restore_slot kv_lat
          (restore_slot drr_lat (restore_slot kv_ap (restore_slot drr_ap st))) in
      let st := install_fresh init st in
      let st := set_alpha (s_alpha init) st in
      let st := set_use_color_overlay (s_use_color_overlay init) st in
      let st := set_ignore_rotation_callback true st in
      let st := set_widgets (set_rotation_shown 0) st in
      let st := set_ignore_rotation_callback false st in
      let st := set_widgets (set_zoom_label 100) st in
      let st := scale_set brightness 1.0 st in
      let st := set_widgets (set_slider_val brightness 1.0) st in
      let st := scale_set contrast 1.0 st in
      let st := set_widgets (set_slider_val contrast 1.0) st in
      let st := scale_set sharpness 1.0 st in
      let st := set_widgets (set_slider_val sharpness 1.0) st in
      let st := set_widgets (set_thumbnail_border None) st in
      let st := set_widgets (set_canvas_borders None) st in
      let st := set_active_view None st in
      let st := set_widgets (set_status_var Restored_to_default) st in
      _update_match_overlay (_save_state st)
  end.

(** [self.adjustment_values[k][view]]. *)
Definition adjustment_of (st : App) (k : AdjType) (view : View) : float :=
  getv (read_num (heap st) (geta (adjustment_values st) k)) view.

(** The three scales are set to the adjustment values of [view], each
    running [_adjust_image], and then the three labels:
    [self.brightness_scale.set(self.adjustment_values['brightness'][view])]
    and so on, as [_undo_last_action] and [_select_image_for_adjustment]
    have it. *)
Definition show_adjustments (view : View) (st : App) : App :=
  let st := scale_set brightness (adjustment_of st brightness view) st in
  let st := scale_set contrast (adjustment_of st contrast view) st in
  let st := scale_set sharpness (adjustment_of st sharpness view) st in
  let st :=
    set_widgets
      (set_slider_val brightness (adjustment_of st brightness view)) st in
  let st :=
    set_widgets (set_slider_val contrast (adjustment_of st contrast view)) st in
  set_widgets (set_slider_val sharpness (adjustment_of st sharpness view)) st.

Definition _undo_last_action (st : App) : Outcome :=
  if (length (history st) <=? 1)%nat
  then Returned (set_widgets (set_status_var Nothing_to_undo) st)
  else
    let st := set_history (removelast (history st)) st in
    match last (history st) with
    | None => Raised st
    | Some prev =>
        let st := set_kv_offsets (e_kv_offsets prev) st in
        let st := set_rotations (e_rotations prev) st in
        let st := set_zoom_levels (e_zoom_levels prev) st in
        let st := set_pan_offsets (e_pan_offsets prev) st in
        let st := set_adjustment_values (e_adjustment_values prev) st in
        let st := set_alpha (e_alpha prev) st in
        let st := set_use_color_overlay (e_use_color_overlay prev) st in
        let st :=
          match active_view st with
          | Some ap =>
              let a := getv (read_num (heap st) (rotations st)) ap in
              set_ignore_rotation_callback false
                (set_widgets (set_rotation_shown a)
                   (set_ignore_rotation_callback true st))
          | _ => st
          end in
        let st :=
          show_adjustments (view_of_slot (current_adjustment_image st)) st in
        let st := set_widgets (set_status_var Undo_successful) st in
        _update_match_overlay st
    end.

(** *** Adjustments and filters *)

Definition _select_image_for_adjustment (image_key : Slot) (st : App)
  : Outcome :=
  match gets (images st) image_key with
  | None =>
      Returned (set_widgets (set_status_var (No_image_loaded_for image_key)) st)
  | Some _ =>
      let st := set_current_adjustment_image image_key st in
      let st := set_widgets (set_adj_img_var image_key) st in
      let st := show_adjustments (view_of_slot image_key) st in
      let st := set_widgets (set_thumbnail_border (Some image_key)) st in
      Returned (set_widgets (set_status_var (Selected image_key)) st)
  end.

Definition _select_adjustment_image_from_menu (img_name : Slot) (st : App)
  : Outcome :=
  _select_image_for_adjustment img_name st.

(** [self.adjustment_values[k][view] = 1.0]. *)
Definition reset_inner (k : AdjType) (view : View) (st : App) : App :=
  let inner := geta (adjustment_values st) k in
  set_heap
    (write_num (heap st) inner (setv (read_num (heap st) inner) view 1.0%float))
    st.

Definition _reset_adjustments (st : App) : Outcome :=
  let view := view_of_slot (current_adjustment_image st) in
  let st := reset_inner brightness view st in
  let st := reset_inner contrast view st in
  let st := reset_inner sharpness view st in
  let st := scale_set brightness 1.0 st in
  let st := set_widgets (set_slider_val brightness 1.0) st in
  let st := scale_set contrast 1.0 st in
  let st := set_widgets (set_slider_val contrast 1.0) st in
  let st := scale_set sharpness 1.0 st in
  let st := set_widgets (set_slider_val sharpness 1.0) st in
  let st := restore_slot (current_adjustment_image st) st in
  let st := _save_state st in
  and_then (_update_match_overlay st) (fun st =>
  Returned
    (set_widgets (set_status_var (Reset_adjustments_for (adj_img_var (widgets st))))
       st)).

(** The dictionary [funcs]; two labels are swapped on purpose.  A recipe
    gives [None] when it raises. *)
Definition funcs (name : FilterName) : option (RGBImage -> option RGBImage) :=
  match name with
  | Select_Filter => None
  | Washburn_Ichabod_Balance => Some (fun img => Some (_f_content_balance img))
  | Low_Dose_Boost => Some (fun img => Some (_f_collins_bone img))
  | Skeletal_Emphasis_Collins => Some (fun img => Some (_f_rizzler_low_dose img))
  | Local_Contrast_Jayhawk => Some (fun img => Some (_f_jayhawk_local_contrast img))
  | Soft_Tissue_Enhance => Some _f_soft_tissue
  | RadFilter_Match_Assist => Some (fun img => Some (_f_radfilter_match_assist img))
  end.

Definition filter_failed (st : App) : App :=
  set_widgets (set_status_var Filter_error) st.

Definition _apply_selected_filter (st : App) : Outcome :=
  let name := filter_var st in
  match name with
  | Select_Filter =>
      Returned (set_widgets (set_status_var Please_select_a_filter) st)
  | _ =>
      let target_key := current_adjustment_image st in
      match gets (original_images st) target_key with
      | None => Returned (set_widgets (set_status_var Load_a_dataset_first) st)
      | Some src =>
          match funcs name with
          | None => Returned (filter_failed st)
          | Some f =>
              match f src with
              | None => Returned (filter_failed st)
              | Some out =>
                  let st := set_images (sets (images st) target_key (Some out)) st in
                  let st := _save_state st in
                  try_except
                    (and_then (_update_match_overlay st) (fun st =>
                     Returned
                       (set_widgets (set_status_var (Applied name target_key)) st)))
                    filter_failed
              end
          end
      end
  end.

(** The filter menu writes [self.filter_var]. *)
Definition filter_menu (name : FilterName) (st : App) : Outcome :=
  Returned (set_filter_var name st).

(** *** Datasets *)

(** What the file system answers to [_load_dataset(selection)]. *)
Inductive Dataset :=
(** the placeholder entry of the menu *)
| Select_Dataset
(** the directory does not exist *)
| No_directory
(** the directory exists; per slot, the image of the first file with the
    slot's prefix and a valid extension, opened and converted to ["RGB"],
    or [None] when there is no such file or opening it fails *)
| Directory (files : Slots (option RGBImage)).

Definition _reset_to_initial_values (st : App) : App :=
  let st := install_fresh default_values st in
  let st := set_alpha 0.5%float st in
  let st := set_use_color_overlay false st in
  let st := set_ignore_rotation_callback true st in
  let st := set_widgets (set_rotation_shown 0) st in
  let st := set_ignore_rotation_callback false st in
  let st := set_widgets (set_zoom_label 100) st in
  let st := set_widgets (set_canvas_borders None) st in
  set_active_view None st.

(** One turn of the loop over [file_map]. *)
Definition load_slot (files : Slots (option RGBImage)) (key : Slot)
    (acc : App * Z) : App * Z :=
  let '(st, loaded) := acc in
  match gets files key with
  | Some img =>
      let st := set_images (sets (images st) key (Some img)) st in
      let st := set_original_images (sets (original_images st) key (Some img)) st in
      (st, loaded + 1)
  | None => (st, loaded)
  end.

Definition _load_dataset (selection : Dataset) (st : App) : Outcome :=
  match selection with
  | Select_Dataset => Returned st
  | No_directory => Returned (set_widgets (set_status_var Dataset_not_found) st)
  | Directory files =>
      let st := set_images (all_slots None) st in
      let st := set_original_images (all_slots None) st in
      let '(st, loaded) :=
        load_slot files kv_lat
          (load_slot files drr_lat
             (load_slot files kv_ap (load_slot files drr_ap (st, 0)))) in
      if 0 <? loaded then
        let st := _reset_to_initial_values st in
        let st := _save_initial_state st in
        let st := set_widgets (set_status_var (Loaded loaded)) st in
        _update_match_overlay st
      else Returned (set_widgets (set_status_var No_valid_images_found) st)
  end.

(** *** Traces *)

(** The gestures the window is bound to. *)
Inductive Event :=
| Rotation_scale (val : float)
| Button_1 (view : View) (x y : Z)
| B1_Motion (view : View) (x y : Z)
| MouseWheel (view : View) (e : WheelEvent)
| Control_MouseWheel (view : View) (e : WheelEvent)
| Key_Left | Key_Right | Key_Up | Key_Down
| Control_r
| Control_z
| Blend_scale (value : float)
| Color_overlay (value : bool)
| Thumbnail_click (k : Slot)
| Adjust_menu (k : Slot)
| Slider (adj_type : AdjType) (value : float)
| Reset_adjustments
| Filter_menu (name : FilterName)
| Apply_filter
| Dataset_menu (selection : Dataset).

Definition handle (ev : Event) (st : App) : Outcome :=
  match ev with
  | Rotation_scale val => _rotate_active val st
  | Button_1 view x y => _activate_drag x y view st
  | B1_Motion view x y => _drag_kv x y view st
  | MouseWheel view e => _mouse_scroll e view st
  | Control_MouseWheel view e => _zoom e view st
  | Key_Left => _nudge_kv (-1) 0 st
  | Key_Right => _nudge_kv 1 0 st
  | Key_Up => _nudge_kv 0 (-1) st
  | Key_Down => _nudge_kv 0 1 st
  | Control_r => _reset_to_default st
  | Control_z => _undo_last_action st
  | Blend_scale value => blend_row_Scale value st
  | Color_overlay value => blend_row_Checkbutton value st
  | Thumbnail_click k => _select_image_for_adjustment k st
  | Adjust_menu k => _select_adjustment_image_from_menu k st
  | Slider adj_type value => _adjust_image adj_type value st
  | Reset_adjustments => _reset_adjustments st
  | Filter_menu name => filter_menu name st
  | Apply_filter => _apply_selected_filter st
  | Dataset_menu selection => _load_dataset selection st
  end.

(** The state after an event: the event loop goes on whether the handler
    returned or raised. *)
Definition step (st : App) (ev : Event) : App := state_of (handle ev st).

Definition run (st : App) (evs : list Event) : App := fold_left step evs st.

(** The window as it opens. *)
Definition start : App := state_of __init__.

End Handlers.

(** ** A stand-in for Pillow

    Nearest-neighbour resampling, no rotation, the documented luma
    weights, truncating blend, identity enhancers and filters.  It serves to
    run the handlers on concrete inputs; every general statement below is
    about an arbitrary [Pillow]. *)
Definition nearest_pillow : Pillow := {|
  lanczos im w h x y := getpixel im (x * width im / w) (y * height im / h);
  rotated im angle x y := getpixel im x y;
  luma r g b := (r * 299 + g * 587 + b * 114) / 1000;
  to_uint8 f := default 0 (py_int f);
  thumbnail im size := im;
  enhance_RGB _ im _ := im;
  enhance_L _ im _ := im;
  equalize im := im;
  autocontrast im _ := im;
  GaussianBlur _ im := im;
  UnsharpMask _ _ _ im := im;
  MedianFilter _ im := im;
  SMOOTH_MORE im := im;
  float_pow x y := x
|}.

(** A two by two test image. *)
Definition checker (a b : Z) : RGBImage :=
  mkRaster 2 2 (fun x y => if (x + y) mod 2 =? 0 then (a, a, a) else (b, b, b)).

(** * Properties *)

(** ** The render path only draws *)

(** [st'] is [st] but for what the canvases display. *)
Definition display_only (st st' : App) : Prop :=
  exists tk, st' = set_tk_images tk st.

Lemma display_only_refl st : display_only st st.
Proof. exists (tk_images st). destruct st; reflexivity. Qed.

Lemma display_only_trans st1 st2 st3 :
  display_only st1 st2 -> display_only st2 st3 -> display_only st1 st3.
Proof. intros [t1 ->] [t2 ->]. exists t2. reflexivity. Qed.

Lemma display_only_set_tk_images tk st : display_only st (set_tk_images tk st).
Proof. exists tk. reflexivity. Qed.

Section Render_frame.
Context `{Pillow}.

Lemma render_view_display view st : display_only st (state_of (render_view view st)).
Proof.
  unfold render_view.
  destruct (gets (images st) (drr_ view)) as [drr|];
    [|apply display_only_refl].
  destruct (gets (images st) (kv_ view)) as [kv|];
    [|apply display_only_refl].
  destruct (composite view drr kv st);
    [apply display_only_set_tk_images | apply display_only_refl].
Qed.

Lemma render_thumbnail_display key st : display_only st (render_thumbnail key st).
Proof.
  unfold render_thumbnail.
  destruct (gets (images st) key);
    [apply display_only_set_tk_images | apply display_only_refl].
Qed.

Lemma _update_match_overlay_display st :
  display_only st (state_of (_update_match_overlay st)).
Proof.
  unfold _update_match_overlay.
  pose proof (render_view_display ap st) as D1.
  destruct (render_view ap st) as [s1|s1]; simpl in *; [|exact D1].
  pose proof (render_view_display lat s1) as D2.
  destruct (render_view lat s1) as [s2|s2]; simpl in *;
    [|exact (display_only_trans _ _ _ D1 D2)].
  repeat (eapply display_only_trans; [|apply render_thumbnail_display]).
  exact (display_only_trans _ _ _ D1 D2).
Qed.

End Render_frame.

(** ** The object store grows *)

Definition heap_le (h h' : Heap) : Prop :=
  kv_cells h ⊆ kv_cells h' /\ num_cells h ⊆ num_cells h' /\
  pan_cells h ⊆ pan_cells h'.

Lemma heap_le_refl h : heap_le h h.
Proof. repeat split; reflexivity. Qed.

Lemma heap_le_trans h1 h2 h3 : heap_le h1 h2 -> heap_le h2 h3 -> heap_le h1 h3.
Proof.
  intros (A1 & B1 & C1) (A2 & B2 & C2).
  repeat split; etrans; eassumption.
Qed.

Lemma alloc_fresh {A} (m : gmap nat A) x : m !! (alloc m x).2 = None.
Proof. unfold alloc; simpl. apply (not_elem_of_dom (D:=gset nat)), is_fresh. Qed.

Lemma alloc_subseteq {A} (m : gmap nat A) x : m ⊆ (alloc m x).1.
Proof. apply insert_subseteq, (alloc_fresh m x). Qed.

Lemma alloc_lookup {A} (m : gmap nat A) x : (alloc m x).1 !! (alloc m x).2 = Some x.
Proof. apply lookup_insert_eq. Qed.

Lemma new_kv_le h d : heap_le h (new_kv h d).1.
Proof. repeat split; simpl; try reflexivity. apply (alloc_subseteq (kv_cells h) d). Qed.
Lemma new_num_le h d : heap_le h (new_num h d).1.
Proof. repeat split; simpl; try reflexivity. apply (alloc_subseteq (num_cells h) d). Qed.
Lemma new_pan_le h d : heap_le h (new_pan h d).1.
Proof. repeat split; simpl; try reflexivity. apply (alloc_subseteq (pan_cells h) d). Qed.

Lemma snapshot_le st : heap_le (heap st) (snapshot st).1.
Proof.
  unfold snapshot, copy_kv, copy_num, copy_pan.
  repeat match goal with
  | |- context [new_kv ?h ?d] =>
      let L := fresh "L" in
      pose proof (new_kv_le h d) as L; destruct (new_kv h d); simpl in L
  | |- context [new_num ?h ?d] =>
      let L := fresh "L" in
      pose proof (new_num_le h d) as L; destruct (new_num h d); simpl in L
  | |- context [new_pan ?h ?d] =>
      let L := fresh "L" in
      pose proof (new_pan_le h d) as L; destruct (new_pan h d); simpl in L
  end.
  simpl. eauto 10 using heap_le_trans.
Qed.

(** ** Coupled vertical offsets *)

(** The two vertical offsets of an offsets dictionary agree. *)
Definition coupled (d : KvOffsets) : Prop := ap_y d = lat_y d.

(** Every offsets dictionary of the store is coupled. *)
Definition kv_ok (h : Heap) : Prop :=
  map_Forall (fun _ d => coupled d) (kv_cells h).

(** The invariant: the store is coupled, and so is the saved initial state. *)
Definition kv_inv (st : App) : Prop :=
  kv_ok (heap st) /\
  forall s, initial_state st = Some s -> coupled (s_kv_offsets s).

Lemma coupled_add_x d view dx : coupled d -> coupled (add_x d view dx).
Proof. destruct view; exact id. Qed.

Lemma coupled_add_y_both d dy : coupled d -> coupled (add_y_both d dy).
Proof. unfold coupled; simpl; intros ->; reflexivity. Qed.

Lemma coupled_default : coupled (s_kv_offsets default_values).
Proof. reflexivity. Qed.

Lemma kv_ok_read h l : kv_ok h -> coupled (read_kv h l).
Proof.
  intros Hh. unfold read_kv.
  destruct (kv_cells h !! l) as [d|] eqn:E; simpl; [|reflexivity].
  exact (Hh l d E).
Qed.

Lemma kv_ok_insert h l d :
  kv_ok h -> coupled d -> map_Forall (fun _ d => coupled d) (<[l:=d]> (kv_cells h)).
Proof. intros Hh Hd. apply map_Forall_insert_2; assumption. Qed.

Lemma kv_ok_write_kv h l d : kv_ok h -> coupled d -> kv_ok (write_kv h l d).
Proof. apply kv_ok_insert. Qed.

Lemma kv_ok_new_kv h d : kv_ok h -> coupled d -> kv_ok (new_kv h d).1.
Proof. apply kv_ok_insert. Qed.

Lemma kv_ok_write_num h l d : kv_ok h -> kv_ok (write_num h l d).
Proof. exact id. Qed.
Lemma kv_ok_write_pan h l d : kv_ok h -> kv_ok (write_pan h l d).
Proof. exact id. Qed.
Lemma kv_ok_new_num h d : kv_ok h -> kv_ok (new_num h d).1.
Proof. exact id. Qed.
Lemma kv_ok_new_pan h d : kv_ok h -> kv_ok (new_pan h d).1.
Proof. exact id. Qed.

(** Names the results of the allocations in the goal, keeping what is
    known of each new store. *)
Ltac name_allocs :=
  repeat match goal with
  | Hh : kv_ok ?h |- context [new_kv ?h ?d] =>
      let L := fresh "L" in
      pose proof (fun Hd => kv_ok_new_kv h d Hh Hd) as L;
      destruct (new_kv h d); simpl in L
  | Hh : kv_ok ?h |- context [new_num ?h ?d] =>
      let L := fresh "L" in
      pose proof (kv_ok_new_num h d Hh) as L;
      destruct (new_num h d); simpl in L
  | Hh : kv_ok ?h |- context [new_pan ?h ?d] =>
      let L := fresh "L" in
      pose proof (kv_ok_new_pan h d Hh) as L;
      destruct (new_pan h d); simpl in L
  end.

Lemma kv_ok_snapshot st : kv_ok (heap st) -> kv_ok (snapshot st).1.
Proof.
  intros Hh. unfold snapshot, copy_kv, copy_num, copy_pan.
  pose proof (kv_ok_read (heap st) (kv_offsets st) Hh) as Hd.
  pose proof (kv_ok_new_kv (heap st) _ Hh Hd) as L.
  destruct (new_kv (heap st) (read_kv (heap st) (kv_offsets st))) as [h1 l1].
  simpl in L. name_allocs. simpl. assumption.
Qed.

Lemma kv_ok_install_fresh s st :
  kv_ok (heap st) -> coupled (s_kv_offsets s) ->
  kv_ok (heap (install_fresh s st)).
Proof.
  intros Hh Hd. unfold install_fresh.
  pose proof (kv_ok_new_kv (heap st) _ Hh Hd) as L.
  destruct (new_kv (heap st) (s_kv_offsets s)) as [h1 l1].
  simpl in L. name_allocs. simpl. assumption.
Qed.

Lemma kv_inv_save_state st : kv_inv st -> kv_inv (_save_state st).
Proof.
  intros [Hh Hi]. unfold _save_state.
  pose proof (kv_ok_snapshot st Hh) as L.
  destruct (snapshot st) as [h e]. split; [exact L | exact Hi].
Qed.

Lemma kv_inv_display st st' : display_only st st' -> kv_inv st -> kv_inv st'.
Proof. intros [tk ->] Hi. exact Hi. Qed.

Lemma kv_inv_write_kv st d :
  kv_inv st -> coupled d ->
  kv_inv (set_heap (write_kv (heap st) (kv_offsets st) d) st).
Proof. intros [Hh Hi] Hd. split; [apply kv_ok_write_kv; assumption | exact Hi]. Qed.

Lemma kv_inv_write_num st l d :
  kv_inv st -> kv_inv (set_heap (write_num (heap st) l d) st).
Proof. exact id. Qed.

Lemma kv_inv_write_pan st l d :
  kv_inv st -> kv_inv (set_heap (write_pan (heap st) l d) st).
Proof. exact id. Qed.

Lemma kv_inv_install_fresh s st :
  kv_inv st -> coupled (s_kv_offsets s) -> kv_inv (install_fresh s st).
Proof.
  intros [Hh Hi] Hd. split; [apply kv_ok_install_fresh; assumption|].
  unfold install_fresh.
  repeat match goal with |- context [new_kv ?h ?d] => destruct (new_kv h d)
                    | |- context [new_num ?h ?d] => destruct (new_num h d)
                    | |- context [new_pan ?h ?d] => destruct (new_pan h d) end.
  exact Hi.
Qed.

Lemma and_then_inv (P : App -> Prop) o k :
  P (state_of o) -> (forall st, P st -> P (state_of (k st))) ->
  P (state_of (and_then o k)).
Proof. destruct o; simpl; auto. Qed.

Lemma try_except_inv (P : App -> Prop) o f :
  P (state_of o) -> (forall st, P st -> P (f st)) ->
  P (state_of (try_except o f)).
Proof. destruct o; simpl; auto. Qed.

(** Reads a field through the field updates around it. *)
Ltac app_proj :=
  cbn [
       images original_images kv_offsets rotations zoom_levels pan_offsets
       adjustment_values alpha use_color_overlay filter_var
       current_adjustment_image history initial_state drag_start active_view
       _ignore_rotation_callback widgets tk_images heap set_images
       set_original_images set_kv_offsets set_rotations set_zoom_levels
       set_pan_offsets set_adjustment_values set_alpha set_use_color_overlay
       set_filter_var set_current_adjustment_image set_history
       set_initial_state set_drag_start set_active_view
       set_ignore_rotation_callback set_widgets set_tk_images set_heap ].

(** One step of a proof that a handler keeps the invariant [P]: a [let]
    of the body (the bound state is shown to satisfy [P] and then named),
    a return, a branch; [special] treats the updates that matter to [P]. *)
Ltac inv_step P special :=
  lazymatch goal with
  | H : P ?st |- P ?st => exact H
  | |- P (state_of (let s := ?X in @?b s)) =>
      lazymatch type of X with
      | App =>
          let Hx := fresh "Hx" in
          assert (P X) as Hx;
          [ | let s0 := fresh "s" in
              generalize X Hx; clear Hx; intros s0 Hx;
              lazymatch goal with
              | |- P (state_of (let s := ?Y in @?c s)) =>
                  let t := eval cbv beta in (c Y) in change (P (state_of t))
              end ]
      | _ => let t := eval cbv beta in (b X) in change (P (state_of t))
      end
  | |- P (let s := ?X in @?b s) =>
      lazymatch type of X with
      | App =>
          let Hx := fresh "Hx" in
          assert (P X) as Hx;
          [ | let s0 := fresh "s" in
              generalize X Hx; clear Hx; intros s0 Hx;
              lazymatch goal with
              | |- P (let s := ?Y in @?c s) =>
                  let t := eval cbv beta in (c Y) in change (P t)
              end ]
      | _ => let t := eval cbv beta in (b X) in change (P t)
      end
  | |- P (state_of (Returned _)) => simpl state_of
  | |- P (state_of (Raised _)) => simpl state_of
  | |- P (state_of (and_then _ _)) =>
      apply (and_then_inv P); [|let s := fresh "s" in intros s ?]
  | |- P (state_of (try_except _ _)) =>
      apply (try_except_inv P); [|let s := fresh "s" in intros s ?]
  | |- P (state_of (if ?b then _ else _)) => destruct b
  | |- P (if ?b then _ else _) => destruct b
  | |- P (state_of (match ?x with _ => _ end)) => destruct x eqn:?
  | |- P (match ?x with _ => _ end) => destruct x eqn:?
  | |- P (filter_failed _) => unfold filter_failed at 1
  | |- P (show_adjustments _ _) => cbv beta delta [show_adjustments]
  | |- P (scale_set _ _ _) => cbv beta delta [scale_set _adjust_image]
  | |- P (restore_slot ?k ?s) =>
      unfold restore_slot at 1; destruct (gets (original_images s) k)
  | |- P (reset_inner _ _ _) => unfold reset_inner at 1
  | |- _ => special
  end.

Section Coupling.
Context `{Pillow}.

Lemma kv_inv_update st : kv_inv st -> kv_inv (state_of (_update_match_overlay st)).
Proof. apply kv_inv_display, _update_match_overlay_display. Qed.

Lemma kv_inv_saved st :
  kv_inv st -> kv_inv (state_of (_update_match_overlay (_save_state st))).
Proof. intros Hi. apply kv_inv_update, kv_inv_save_state, Hi. Qed.

Lemma kv_inv_write_kv_x st view dx :
  kv_inv st ->
  kv_inv (set_heap (write_kv (heap st) (kv_offsets st)
                      (add_x (read_kv (heap st) (kv_offsets st)) view dx)) st).
Proof.
  intros Hi. apply kv_inv_write_kv; [exact Hi|].
  apply coupled_add_x, kv_ok_read, Hi.
Qed.

Lemma kv_inv_write_kv_y st dy :
  kv_inv st ->
  kv_inv (set_heap (write_kv (heap st) (kv_offsets st)
                      (add_y_both (read_kv (heap st) (kv_offsets st)) dy)) st).
Proof.
  intros Hi. apply kv_inv_write_kv; [exact Hi|].
  apply coupled_add_y_both, kv_ok_read, Hi.
Qed.

Lemma kv_inv_set_widgets f st : kv_inv st -> kv_inv (set_widgets f st).
Proof. exact id. Qed.

Lemma kv_inv_set_initial_state st :
  kv_inv st -> kv_inv (set_initial_state (Some default_values) st).
Proof.
  intros [Hh _]. split; [exact Hh|].
  intros s [= <-]. exact coupled_default.
Qed.

Ltac kv_special :=
  lazymatch goal with
  | H : coupled ?d |- coupled ?d => exact H
  | |- kv_inv (state_of (_update_match_overlay _)) => apply kv_inv_update
  | |- kv_inv (_save_state _) => apply kv_inv_save_state
  | |- kv_inv (set_heap (write_kv _ _ (add_x _ _ _)) _) => apply kv_inv_write_kv_x
  | |- kv_inv (set_heap (write_kv _ _ (add_y_both _ _)) _) => apply kv_inv_write_kv_y
  | |- kv_inv (set_heap (write_num _ _ _) _) => apply kv_inv_write_num
  | |- kv_inv (set_heap (write_pan _ _ _) _) => apply kv_inv_write_pan
  | |- kv_inv (install_fresh _ _) => apply kv_inv_install_fresh
  | |- kv_inv (set_initial_state (Some default_values) _) =>
      apply kv_inv_set_initial_state
  | |- coupled (s_kv_offsets default_values) => exact coupled_default
  | |- kv_inv (?f _ ?s) => unfold kv_inv; progress app_proj; change (kv_inv s)
  end.

Ltac kv_step := inv_step kv_inv ltac:(idtac; kv_special).

Lemma kv_inv__rotate_active val st :
  kv_inv st -> kv_inv (state_of (_rotate_active val st)).
Proof. intros Hi. cbv beta delta [_rotate_active]. repeat kv_step. Qed.

Lemma kv_inv__activate_drag x y view st :
  kv_inv st -> kv_inv (state_of (_activate_drag x y view st)).
Proof. intros Hi. cbv beta delta [_activate_drag]. repeat kv_step. Qed.

Lemma kv_inv__drag_kv x y view st :
  kv_inv st -> kv_inv (state_of (_drag_kv x y view st)).
Proof. intros Hi. cbv beta delta [_drag_kv]. repeat kv_step. Qed.

Lemma kv_inv__nudge_kv dx dy st :
  kv_inv st -> kv_inv (state_of (_nudge_kv dx dy st)).
Proof. intros Hi. cbv beta delta [_nudge_kv]. repeat kv_step. Qed.

Lemma kv_inv__zoom e view st :
  kv_inv st -> kv_inv (state_of (_zoom e view st)).
Proof. intros Hi. cbv beta delta [_zoom]. repeat kv_step. Qed.

Lemma kv_inv__mouse_scroll e view st :
  kv_inv st -> kv_inv (state_of (_mouse_scroll e view st)).
Proof. intros Hi. cbv beta delta [_mouse_scroll]. repeat kv_step. Qed.

Lemma kv_inv__reset_to_default st :
  kv_inv st -> kv_inv (state_of (_reset_to_default st)).
Proof.
  intros Hi. cbv beta delta [_reset_to_default].
  destruct (initial_state st) as [init|] eqn:E; [|exact Hi].
  pose proof (proj2 Hi init E) as Hinit.
  repeat kv_step.
Qed.

Lemma kv_inv__undo_last_action st :
  kv_inv st -> kv_inv (state_of (_undo_last_action st)).
Proof. intros Hi. cbv beta delta [_undo_last_action]. repeat kv_step. Qed.

Lemma kv_inv_blend_row_Scale value st :
  kv_inv st -> kv_inv (state_of (blend_row_Scale value st)).
Proof. intros Hi. cbv beta delta [blend_row_Scale]. repeat kv_step. Qed.

Lemma kv_inv_blend_row_Checkbutton value st :
  kv_inv st -> kv_inv (state_of (blend_row_Checkbutton value st)).
Proof. intros Hi. cbv beta delta [blend_row_Checkbutton]. repeat kv_step. Qed.

Lemma kv_inv__select_image_for_adjustment k st :
  kv_inv st -> kv_inv (state_of (_select_image_for_adjustment k st)).
Proof.
  intros Hi. cbv beta delta [_select_image_for_adjustment]. repeat kv_step.
Qed.

Lemma kv_inv__adjust_image adj_type value st :
  kv_inv st -> kv_inv (state_of (_adjust_image adj_type value st)).
Proof. intros Hi. cbv beta delta [_adjust_image]. repeat kv_step. Qed.

Lemma kv_inv__reset_adjustments st :
  kv_inv st -> kv_inv (state_of (_reset_adjustments st)).
Proof. intros Hi. cbv beta delta [_reset_adjustments]. repeat kv_step. Qed.

Lemma kv_inv__apply_selected_filter st :
  kv_inv st -> kv_inv (state_of (_apply_selected_filter st)).
Proof.
  intros Hi. cbv beta delta [_apply_selected_filter]. repeat kv_step.
Qed.

Lemma kv_inv_load_slot files key acc :
  kv_inv acc.1 -> kv_inv (load_slot files key acc).1.
Proof.
  destruct acc as [st n]. unfold load_slot. simpl.
  destruct (gets files key); exact id.
Qed.

Lemma kv_inv__reset_to_initial_values st :
  kv_inv st -> kv_inv (_reset_to_initial_values st).
Proof.
  intros Hi. cbv beta delta [_reset_to_initial_values]. repeat kv_step.
Qed.

Lemma kv_inv__load_dataset selection st :
  kv_inv st -> kv_inv (state_of (_load_dataset selection st)).
Proof.
  intros Hi. unfold _load_dataset.
  destruct selection as [| |files]; [exact Hi | exact Hi |].
  pose proof
    (kv_inv_load_slot files kv_lat _
       (kv_inv_load_slot files drr_lat _
          (kv_inv_load_slot files kv_ap _
             (kv_inv_load_slot files drr_ap
                (set_original_images (all_slots None)
                   (set_images (all_slots None) st), 0) Hi)))) as Hl.
  destruct (load_slot files kv_lat _) as [st' loaded]. simpl in Hl.
  destruct (0 <? loaded); [|exact Hl].
  apply kv_inv_update, kv_inv_set_widgets, kv_inv_set_initial_state.
  apply kv_inv__reset_to_initial_values, Hl.
Qed.

(** Every handler keeps the invariant. *)
Lemma kv_inv_step ev st : kv_inv st -> kv_inv (step st ev).
Proof.
  intros Hi. unfold step.
  destruct ev; simpl handle;
    auto using kv_inv__rotate_active, kv_inv__activate_drag, kv_inv__drag_kv,
      kv_inv__nudge_kv, kv_inv__zoom, kv_inv__mouse_scroll,
      kv_inv__reset_to_default, kv_inv__undo_last_action,
      kv_inv_blend_row_Scale, kv_inv_blend_row_Checkbutton,
      kv_inv__select_image_for_adjustment, kv_inv__adjust_image,
      kv_inv__reset_adjustments, kv_inv__apply_selected_filter,
      kv_inv__load_dataset.
Qed.

Lemma kv_inv_run evs st : kv_inv st -> kv_inv (run st evs).
Proof.
  revert st. induction evs as [|ev evs IH]; intros st Hi; [exact Hi|].
  apply IH, kv_inv_step, Hi.
Qed.

Lemma kv_inv__init_state : kv_inv _init_state.
Proof.
  unfold _init_state. apply kv_inv_install_fresh; [|exact coupled_default].
  split; [apply map_Forall_empty | intros s [=]].
Qed.

Lemma kv_inv_start : kv_inv start.
Proof.
  unfold start, __init__. apply kv_inv_update, kv_inv_save_state.
  apply kv_inv_set_initial_state, kv_inv__init_state.
Qed.

(** The operations on the KV offset: a drag to [(x, y)] on a view, a nudge
    by any [(dx, dy)], and any other gesture in between. *)
Inductive KvOp :=
| Drag (view : View) (x y : Z)
| Nudge (dx dy : Z)
| Gesture (ev : Event).

Definition kv_op (st : App) (op : KvOp) : App :=
  match op with
  | Drag view x y => state_of (_drag_kv x y view st)
  | Nudge dx dy => state_of (_nudge_kv dx dy st)
  | Gesture ev => step st ev
  end.

Lemma kv_inv_kv_op op st : kv_inv st -> kv_inv (kv_op st op).
Proof.
  destruct op; simpl;
    auto using kv_inv__drag_kv, kv_inv__nudge_kv, kv_inv_step.
Qed.

Lemma kv_inv_kv_ops ops st : kv_inv st -> kv_inv (fold_left kv_op ops st).
Proof.
  revert st. induction ops as [|op ops IH]; intros st Hi; [exact Hi|].
  apply IH, kv_inv_kv_op, Hi.
Qed.

(** C3.  Starting from the window as it opens, after every sequence of KV
    drags and nudges on either view (with any deltas, in any order, and
    mixed with every other gesture), the vertical KV offsets of the two
    views are equal: [kv_offsets['ap_y'] == kv_offsets['lat_y']]. *)
Theorem kv_offset_y_coupled (ops : list KvOp) :
  let st := fold_left kv_op ops start in
  get_y (read_kv (heap st) (kv_offsets st)) ap =
  get_y (read_kv (heap st) (kv_offsets st)) lat.
Proof.
  intros st. pose proof (kv_inv_kv_ops ops start kv_inv_start) as [Hh _].
  exact (kv_ok_read _ (kv_offsets st) Hh).
Qed.

End Coupling.

(** ** The history stack *)

(** The [k]-th entry from the last one: the last is the first from last. *)
Definition nth_from_last {A} (k : nat) (l : list A) : option A :=
  l !! (length l - k)%nat.

Lemma history_append_length h e :
  (length h <= 20)%nat -> (length (history_append h e) <= 20)%nat.
Proof.
  intros Hl. unfold history_append.
  assert (length (h ++ [e]) = S (length h)) as Hs
    by (rewrite length_app; simpl; lia).
  destruct (20 <? length (h ++ [e]))%nat eqn:E.
  - destruct (h ++ [e]); simpl in *; lia.
  - apply Nat.ltb_ge in E. exact E.
Qed.

(** While at most twenty entries are kept, appending keeps the last twenty
    of what was there and what is appended. *)
Lemma history_append_drop h e :
  (length h <= 20)%nat ->
  history_append h e = drop (length (h ++ [e]) - 20) (h ++ [e]).
Proof.
  intros Hl. unfold history_append. rewrite length_app. simpl.
  destruct (20 <? length h + 1)%nat eqn:E.
  - apply Nat.ltb_lt in E.
    replace (length h + 1 - 20)%nat with 1%nat by lia.
    destruct (h ++ [e]); reflexivity.
  - apply Nat.ltb_ge in E.
    replace (length h + 1 - 20)%nat with 0%nat by lia. reflexivity.
Qed.

Lemma history_appends_drop es : forall h,
  (length h <= 20)%nat ->
  fold_left history_append es h = drop (length (h ++ es) - 20) (h ++ es).
Proof.
  induction es as [|e es IH]; intros h Hl.
  - simpl. rewrite app_nil_r.
    replace (length h - 20)%nat with 0%nat by lia. reflexivity.
  - simpl fold_left. rewrite IH by (apply history_append_length, Hl).
    rewrite (history_append_drop h e Hl).
    rewrite (cons_middle e h es), (app_assoc h [e] es).
    set (l := h ++ [e]).
    assert (length l = S (length h)) as Hll
      by (unfold l; rewrite length_app; simpl; lia).
    destruct (decide (length l <= 20)%nat) as [Hs|Hs].
    + replace (length l - 20)%nat with 0%nat by lia. reflexivity.
    + assert (length l = 21%nat) as H21 by lia.
      rewrite H21. change (21 - 20)%nat with 1%nat.
      rewrite !length_app, length_drop, H21.
      replace (21 - 1 + length es - 20)%nat with (length es) by lia.
      replace (21 + length es - 20)%nat with (1 + length es)%nat by lia.
      rewrite <- drop_drop. f_equal.
      rewrite drop_app_le by lia. reflexivity.
Qed.

(** The history length never exceeds twenty. *)
Definition hist_ok (st : App) : Prop := (length (history st) <= 20)%nat.

Lemma hist_ok_save_state st : hist_ok st -> hist_ok (_save_state st).
Proof.
  unfold hist_ok, _save_state. intros Hl.
  destruct (snapshot st) as [h e]. apply history_append_length, Hl.
Qed.

Lemma history_save_state st :
  history (_save_state st) = history_append (history st) (snapshot st).2.
Proof. unfold _save_state. destruct (snapshot st); reflexivity. Qed.

Lemma hist_ok_display st st' : display_only st st' -> hist_ok st -> hist_ok st'.
Proof. intros [tk ->] Hi. exact Hi. Qed.

Lemma hist_ok_set_widgets f st : hist_ok st -> hist_ok (set_widgets f st).
Proof. exact id. Qed.

Lemma hist_ok_set_initial_state v st :
  hist_ok st -> hist_ok (set_initial_state v st).
Proof. exact id. Qed.

Lemma hist_ok_set_heap h st : hist_ok st -> hist_ok (set_heap h st).
Proof. exact id. Qed.

Lemma hist_ok_install_fresh s st : hist_ok st -> hist_ok (install_fresh s st).
Proof.
  unfold install_fresh.
  repeat match goal with |- context [new_kv ?h ?d] => destruct (new_kv h d)
                    | |- context [new_num ?h ?d] => destruct (new_num h d)
                    | |- context [new_pan ?h ?d] => destruct (new_pan h d) end.
  exact id.
Qed.

Lemma hist_ok_removelast st :
  hist_ok st -> hist_ok (set_history (removelast (history st)) st).
Proof.
  unfold hist_ok. simpl. intros Hl.
  destruct (history st) as [|e l] using rev_ind; [exact Hl|].
  rewrite removelast_last. rewrite length_app in Hl. lia.
Qed.

Section History.
Context `{Pillow}.

Lemma hist_ok_update st :
  hist_ok st -> hist_ok (state_of (_update_match_overlay st)).
Proof. apply hist_ok_display, _update_match_overlay_display. Qed.

Ltac hist_special :=
  lazymatch goal with
  | |- hist_ok (state_of (_update_match_overlay _)) => apply hist_ok_update
  | |- hist_ok (_save_state _) => apply hist_ok_save_state
  | |- hist_ok (set_history (removelast (history ?s)) ?s) =>
      apply hist_ok_removelast
  | |- hist_ok (set_heap _ _) => apply hist_ok_set_heap
  | |- hist_ok (install_fresh _ _) => apply hist_ok_install_fresh
  | |- hist_ok (?f _ ?s) => unfold hist_ok; progress app_proj; change (hist_ok s)
  end.

Ltac hist_step := inv_step hist_ok ltac:(idtac; hist_special).

Lemma hist_ok_load_slot files key acc :
  hist_ok acc.1 -> hist_ok (load_slot files key acc).1.
Proof.
  destruct acc as [st n]. unfold load_slot. simpl.
  destruct (gets files key); exact id.
Qed.

Lemma hist_ok__load_dataset selection st :
  hist_ok st -> hist_ok (state_of (_load_dataset selection st)).
Proof.
  intros Hi. unfold _load_dataset.
  destruct selection as [| |files]; [exact Hi | exact Hi |].
  pose proof
    (hist_ok_load_slot files kv_lat _
       (hist_ok_load_slot files drr_lat _
          (hist_ok_load_slot files kv_ap _
             (hist_ok_load_slot files drr_ap
                (set_original_images (all_slots None)
                   (set_images (all_slots None) st), 0) Hi)))) as Hl.
  destruct (load_slot files kv_lat _) as [st' loaded]. simpl in Hl.
  destruct (0 <? loaded); [|exact Hl].
  apply hist_ok_update, hist_ok_set_widgets, hist_ok_set_initial_state.
  cbv beta delta [_reset_to_initial_values]. repeat hist_step.
Qed.

Lemma hist_ok_step ev st : hist_ok st -> hist_ok (step st ev).
Proof.
  intros Hi. unfold step.
  destruct ev; simpl handle; try (apply hist_ok__load_dataset, Hi);
    cbv beta delta
      [_rotate_active _activate_drag _drag_kv _mouse_scroll _zoom _nudge_kv
       _reset_to_default _undo_last_action blend_row_Scale
       blend_row_Checkbutton _select_adjustment_image_from_menu
       _select_image_for_adjustment _adjust_image _reset_adjustments
       filter_menu _apply_selected_filter];
    repeat hist_step.
Qed.

Lemma hist_ok_run evs st : hist_ok st -> hist_ok (run st evs).
Proof.
  revert st. induction evs as [|ev evs IH]; intros st Hi; [exact Hi|].
  apply IH, hist_ok_step, Hi.
Qed.

Lemma hist_ok_start : hist_ok start.
Proof.
  unfold start, __init__. apply hist_ok_update, hist_ok_save_state.
  apply hist_ok_set_initial_state. unfold _init_state.
  apply hist_ok_install_fresh. unfold hist_ok. simpl. lia.
Qed.

(** C5, as the code has it.  The history never holds more than twenty
    entries; [_save_state] appends and, past twenty, drops the oldest, so
    that the history is the last twenty entries of what it held and what
    was pushed since, in order; once more than twenty are involved its
    length is exactly twenty and its oldest entry is the twentieth from the
    last one pushed. *)
Theorem history_bound :
  (forall evs : list Event, (length (history (run start evs)) <= 20)%nat) /\
  (forall st : App,
     history (_save_state st) = history_append (history st) (snapshot st).2) /\
  (forall h es : list Entry,
     (length h <= 20)%nat ->
     fold_left history_append es h = drop (length (h ++ es) - 20) (h ++ es)) /\
  (forall h es : list Entry,
     (length h <= 20)%nat -> (20 < length (h ++ es))%nat ->
     length (fold_left history_append es h) = 20%nat /\
     head (fold_left history_append es h) = nth_from_last 20 (h ++ es)).
Proof.
  split; [|split; [|split]].
  - intros evs. exact (hist_ok_run evs start hist_ok_start).
  - exact history_save_state.
  - intros h es Hl. exact (history_appends_drop es h Hl).
  - intros h es Hl Hlong. rewrite (history_appends_drop es h Hl).
    split.
    + rewrite length_drop. lia.
    + unfold nth_from_last. rewrite head_lookup, lookup_drop. f_equal. lia.
Qed.

End History.

(** ** Undo *)

Lemma last_removelast_is_Some {A} (l : list A) :
  (1 < length l)%nat -> is_Some (last (removelast l)).
Proof.
  intros Hl. destruct l as [|x l] using rev_ind; [simpl in Hl; lia|].
  rewrite removelast_last. rewrite length_app in Hl. simpl in Hl.
  destruct l as [|y l] using rev_ind; [simpl in Hl; lia|].
  rewrite last_snoc. eauto.
Qed.

Section Undo.
Context `{Pillow}.

(** With at most one entry in the history (the baseline alone), undo
    reports "Nothing to undo" in the status bar and changes nothing
    else. *)
Lemma _undo_last_action_floor st :
  (length (history st) <= 1)%nat ->
  _undo_last_action st =
  Returned (set_widgets (set_status_var Nothing_to_undo) st).
Proof.
  intros Hl. unfold _undo_last_action.
  apply Nat.leb_le in Hl. rewrite Hl. reflexivity.
Qed.

End Undo.

(** ** Reading the current state *)

(** [self.zoom_levels[view]], [self.pan_offsets[view]],
    [self.rotations[view]] and [self.kv_offsets] as they are read through
    the current references. *)
Definition zoom_of (st : App) (view : View) : float :=
  getv (read_num (heap st) (zoom_levels st)) view.
Definition pan_of (st : App) (view : View) : float * float :=
  getv (read_pan (heap st) (pan_offsets st)) view.
Definition rotation_of (st : App) (view : View) : float :=
  getv (read_num (heap st) (rotations st)) view.
Definition kv_offset_of (st : App) : KvOffsets :=
  read_kv (heap st) (kv_offsets st).

Lemma getv_setv_eq {A} (d : PerView A) view x : getv (setv d view x) view = x.
Proof. destruct view; reflexivity. Qed.

Lemma read_num_write_num_eq h l d : read_num (write_num h l d) l = d.
Proof. unfold read_num, write_num. simpl. rewrite lookup_insert_eq. reflexivity. Qed.

Lemma read_pan_write_pan_eq h l d : read_pan (write_pan h l d) l = d.
Proof. unfold read_pan, write_pan. simpl. rewrite lookup_insert_eq. reflexivity. Qed.

Lemma read_pan_write_num h l d l' : read_pan (write_num h l d) l' = read_pan h l'.
Proof. reflexivity. Qed.

Lemma num_cells_write_num h l d : num_cells (write_num h l d) !! l = Some d.
Proof. apply lookup_insert_eq. Qed.

Lemma pan_cells_write_pan h l d : pan_cells (write_pan h l d) !! l = Some d.
Proof. apply lookup_insert_eq. Qed.

(** A larger store reads the same from every allocated reference. *)
Lemma read_num_le h h' l d :
  heap_le h h' -> num_cells h !! l = Some d -> read_num h' l = d.
Proof.
  intros (_ & Hn & _) Hl. unfold read_num.
  rewrite (lookup_weaken _ _ _ _ Hl Hn). reflexivity.
Qed.

Lemma read_pan_le h h' l d :
  heap_le h h' -> pan_cells h !! l = Some d -> read_pan h' l = d.
Proof.
  intros (_ & _ & Hp) Hl. unfold read_pan.
  rewrite (lookup_weaken _ _ _ _ Hl Hp). reflexivity.
Qed.

Lemma read_kv_le h h' l d :
  heap_le h h' -> kv_cells h !! l = Some d -> read_kv h' l = d.
Proof.
  intros (Hk & _ & _) Hl. unfold read_kv.
  rewrite (lookup_weaken _ _ _ _ Hl Hk). reflexivity.
Qed.

(** [_save_state] changes the history and the store, and the store only
    grows. *)
Lemma _save_state_spec st :
  exists h e,
    _save_state st = set_history (history_append (history st) e) (set_heap h st) /\
    heap_le (heap st) h.
Proof.
  unfold _save_state. pose proof (snapshot_le st) as Hle.
  destruct (snapshot st) as [h e]. exists h, e. split; [reflexivity|exact Hle].
Qed.

(** ** Comparisons of floats *)

Lemma float_ltb_leb (a b : float) :
  (a <? b)%float = true -> (a <=? b)%float = true.
Proof.
  rewrite ltb_spec, leb_spec. unfold SFltb, SFleb.
  destruct (SFcompare (Prim2SF a) (Prim2SF b)) as [[| |]|]; congruence.
Qed.

(** The clamp [max(0.2, min(5.0, x))] lands in [[0.2, 5.0]] whatever [x]. *)
Lemma clamp_range (x : float) :
  (0.2 <=? py_max 0.2 (py_min 5.0 x))%float = true /\
  (py_max 0.2 (py_min 5.0 x) <=? 5.0)%float = true.
Proof.
  unfold py_max, py_min.
  destruct (x <? 5.0)%float eqn:E5.
  - destruct (0.2 <? x)%float eqn:E2.
    + split; apply float_ltb_leb; assumption.
    + split; reflexivity.
  - split; reflexivity.
Qed.

(** ** Cursor-anchored zoom *)

Section Zoom.
Context `{Pillow}.

(** What [_zoom] does after its two writes: it formats the label, saves
    and redraws.  The references stay and the store only grows. *)
Lemma _zoom_tail (x : float) (st2 : App) :
  let o :=
    match py_int x with
    | Some percent =>
        _update_match_overlay
          (_save_state (set_widgets (set_zoom_label percent) st2))
    | None => Raised st2
    end in
  zoom_levels (state_of o) = zoom_levels st2 /\
  pan_offsets (state_of o) = pan_offsets st2 /\
  heap_le (heap st2) (heap (state_of o)).
Proof.
  cbv zeta. destruct (py_int x) as [percent|]; simpl state_of.
  - destruct (_update_match_overlay_display
                (_save_state (set_widgets (set_zoom_label percent) st2)))
      as [tk ->].
    destruct (_save_state_spec (set_widgets (set_zoom_label percent) st2))
      as (h & en & -> & Hle).
    app_proj. split; [reflexivity|]. split; [reflexivity|exact Hle].
  - split; [reflexivity|]. split; [reflexivity|apply heap_le_refl].
Qed.

(** C1.  For a view with both rasters loaded and a zoom [z0] in
    [[0.2, 5.0]], a Ctrl+wheel event at the canvas point [(cx, cy)] aims at
    [z1 = max(0.2, min(5.0, z0 +/- 0.1))], which lies in [[0.2, 5.0]].
    When [z1 == z0] the handler returns with the state as it was (nothing
    is written, nothing is pushed to the history); otherwise the zoom of
    the view becomes [z1] and its pan [p] becomes
    [p + (cx, cy) * (1 - z1 / z0)]. *)
Theorem zoom_at_cursor (view : View) (e : WheelEvent) (st : App)
    (drr kv : RGBImage) :
  gets (images st) (drr_ view) = Some drr ->
  gets (images st) (kv_ view) = Some kv ->
  (0.2 <=? zoom_of st view)%float = true ->
  (zoom_of st view <=? 5.0)%float = true ->
  let z0 := zoom_of st view in
  let z1 :=
    py_max 0.2
      (py_min 5.0 (z0 + (if (0 <? delta e)%Z then 0.1 else -0.1)))%float in
  let p := pan_of st view in
  (0.2 <=? z1)%float = true /\ (z1 <=? 5.0)%float = true /\
  (if (z1 =? z0)%float
   then _zoom e view st = Returned st
   else
     let st' := state_of (_zoom e view st) in
     zoom_of st' view = z1 /\
     pan_of st' view =
     ((p.1 + cx e * (1 - z1 / z0))%float,
      (p.2 + cy e * (1 - z1 / z0))%float)).
Proof.
  intros Hd Hk _ _ z0 z1 p.
  assert (z1 = zoom_target z0 e) as Ez by reflexivity.
  split; [apply clamp_range|]. split; [apply clamp_range|].
  unfold _zoom. rewrite Hd, Hk. fold (zoom_of st view). fold z0.
  rewrite <- Ez. destruct (z1 =? z0)%float; [reflexivity|].
  fold (pan_of st view). fold p. destruct p as [px py] eqn:Ep.
  match goal with
  | |- context [Raised ?s2] =>
      pose proof (_zoom_tail (z1 * 100) s2) as (Hz & Hp & Hle);
      set (st2 := s2) in *
  end.
  unfold zoom_of at 1. unfold pan_of at 1. rewrite Hz, Hp.
  assert (zoom_levels st2 = zoom_levels st) as -> by reflexivity.
  assert (pan_offsets st2 = pan_offsets st) as -> by reflexivity.
  split.
  - erewrite (read_num_le (heap st2)); [apply getv_setv_eq | exact Hle |].
    subst st2. app_proj. apply num_cells_write_num.
  - erewrite (read_pan_le (heap st2)); [apply getv_setv_eq | exact Hle |].
    subst st2. app_proj. apply pan_cells_write_pan.
Qed.

End Zoom.

(** ** The compositor *)

Section Compositor.
Context `{Pillow}.

(** C2.  For a view with both working rasters present, one turn of
    [_update_match_overlay] displays a [DISPLAY_W] by [DISPLAY_H] raster
    [out] built as follows.  Both rasters are resized to [(sw, sh)], the
    integer parts of the canvas size times the zoom; on the AP view with a
    non-zero rotation the resized KV is rotated.  The DRR canvas is black
    but for the resized DRR pasted at [(-pan.x, -pan.y)], the KV canvas is
    black but for the KV pasted at
    [(kv_offset.x - pan.x, kv_offset.y - pan.y)] ([pan] taken at its
    integer part, as a paste position is).  With the colour overlay on,
    the pixel of [out] has the luminance of the DRR canvas as red and the
    luminance of the KV canvas as green and as blue; with it off it is the
    blend [(1 - alpha) * DRR + alpha * KV] of the two canvases, channel by
    channel. *)
Theorem compositor_merge (view : View) (st : App) (drr kv : RGBImage)
    (sw sh ipx ipy : Z) :
  gets (images st) (drr_ view) = Some drr ->
  gets (images st) (kv_ view) = Some kv ->
  py_int (float_of_int DISPLAY_W * zoom_of st view)%float = Some sw ->
  py_int (float_of_int DISPLAY_H * zoom_of st view)%float = Some sh ->
  py_int (pan_of st view).1 = Some ipx ->
  py_int (pan_of st view).2 = Some ipy ->
  let angle := rotation_of st ap in
  let kv_x := get_x (kv_offset_of st) view - ipx in
  let kv_y := get_y (kv_offset_of st) view - ipy in
  (** the pixel of the DRR canvas *)
  let drr_at x y : RGB :=
    if Image.in_box (- ipx) (- ipy) sw sh x y
    then lanczos drr sw sh (x - - ipx) (y - - ipy)
    else (0, 0, 0) in
  (** the pixel of the KV canvas *)
  let kv_at x y : RGB :=
    if Image.in_box kv_x kv_y sw sh x y
    then
      match view with
      | ap =>
          if (angle =? 0)%float
          then lanczos kv sw sh (x - kv_x) (y - kv_y)
          else rotated (resize kv (sw, sh)) angle (x - kv_x) (y - kv_y)
      | lat => lanczos kv sw sh (x - kv_x) (y - kv_y)
      end
    else (0, 0, 0) in
  exists out : RGBImage,
    render_view view st =
    Returned
      (set_tk_images
         (mkTk (setv (match_canvas (tk_images st)) view (Some out))
               (thumbnails (tk_images st))) st) /\
    width out = DISPLAY_W /\ height out = DISPLAY_H /\
    forall x y : Z,
      getpixel out x y =
      if use_color_overlay st
      then (luminance (drr_at x y), luminance (kv_at x y),
            luminance (kv_at x y))
      else
        let '(r1, g1, b1) := drr_at x y in
        let '(r2, g2, b2) := kv_at x y in
        (to_uint8 (float_of_int r1 * (1 - alpha st)
                   + float_of_int r2 * alpha st)%float,
         to_uint8 (float_of_int g1 * (1 - alpha st)
                   + float_of_int g2 * alpha st)%float,
         to_uint8 (float_of_int b1 * (1 - alpha st)
                   + float_of_int b2 * alpha st)%float).
Proof.
  intros Hd Hk Hsw Hsh Hpx Hpy angle kv_x kv_y drr_at kv_at.
  unfold render_view. rewrite Hd, Hk.
  unfold composite.
  fold (zoom_of st view). fold (pan_of st view). fold (rotation_of st ap).
  fold (kv_offset_of st). fold angle.
  destruct (pan_of st view) as [px py] eqn:Ep. simpl in Hpx, Hpy.
  rewrite Hsw, Hsh, Hpx, Hpy. fold kv_x kv_y.
  eexists. split; [reflexivity|].
  destruct (use_color_overlay st).
  - split; [reflexivity|]. split; [reflexivity|].
    intros x y. unfold _create_color_overlay, Image.merge, convert_L.
    cbn [getpixel]. unfold Image.paste, Image.new. cbn [getpixel width height fst snd].
    subst drr_at kv_at. cbv beta.
    destruct view; cbn [View_eqb andb negb];
      [destruct (angle =? 0)%float|];
      cbn [negb rotate resize width height getpixel fst snd];
      destruct (Image.in_box (- ipx) (- ipy) sw sh x y);
      destruct (Image.in_box kv_x kv_y sw sh x y); reflexivity.
  - split; [reflexivity|]. split; [reflexivity|].
    intros x y. unfold blend, blend_pixel, blend_channel.
    cbn [getpixel]. unfold Image.paste, Image.new. cbn [getpixel width height fst snd].
    subst drr_at kv_at. cbv beta.
    destruct view; cbn [View_eqb andb negb];
      [destruct (angle =? 0)%float|];
      cbn [negb rotate resize width height getpixel fst snd];
      destruct (Image.in_box (- ipx) (- ipy) sw sh x y);
      destruct (Image.in_box kv_x kv_y sw sh x y); reflexivity.
Qed.

End Compositor.

(** ** Filters *)

Lemma gets_sets_eq {A} (d : Slots A) k x : gets (sets d k x) k = x.
Proof. destruct k; reflexivity. Qed.

Lemma gets_sets_ne {A} (d : Slots A) k k' x :
  k' <> k -> gets (sets d k x) k' = gets d k'.
Proof. destruct k, k'; intros Hne; try reflexivity; contradiction. Qed.

Lemma sets_sets {A} (d : Slots A) k x y : sets (sets d k x) k y = sets d k y.
Proof. destruct k; reflexivity. Qed.

(** [st'] has the rasters, the filter target and the selected filter of
    [st]. *)
Definition same_selection (st st' : App) : Prop :=
  images st' = images st /\ original_images st' = original_images st /\
  current_adjustment_image st' = current_adjustment_image st /\
  filter_var st' = filter_var st.

Lemma same_selection_refl st : same_selection st st.
Proof. repeat split. Qed.

Lemma same_selection_trans st1 st2 st3 :
  same_selection st1 st2 -> same_selection st2 st3 -> same_selection st1 st3.
Proof.
  intros (A1 & B1 & C1 & D1) (A2 & B2 & C2 & D2).
  repeat split; etrans; eassumption.
Qed.

Lemma same_selection_display st st' : display_only st st' -> same_selection st st'.
Proof. intros [tk ->]. repeat split. Qed.

Lemma same_selection_save_state st : same_selection st (_save_state st).
Proof. destruct (_save_state_spec st) as (h & e & -> & _). repeat split. Qed.

Lemma same_selection_set_widgets f st : same_selection st (set_widgets f st).
Proof. repeat split. Qed.

Section Filters.
Context `{Pillow}.

(** After the new working raster is stored, [_apply_selected_filter] saves,
    redraws and reports; none of this touches a raster or the selection. *)
Lemma _apply_selected_filter_tail name key st1 :
  same_selection st1
    (state_of
       (try_except
          (and_then (_update_match_overlay (_save_state st1))
             (fun st => Returned (set_widgets (set_status_var (Applied name key)) st)))
          filter_failed)).
Proof.
  pose proof (same_selection_save_state st1) as S1.
  pose proof (same_selection_display _ _
                (_update_match_overlay_display (_save_state st1))) as S2.
  pose proof (same_selection_trans _ _ _ S1 S2) as S3.
  destruct (_update_match_overlay (_save_state st1)) as [s|s];
    simpl in *;
    (eapply same_selection_trans; [exact S3|apply same_selection_set_widgets]).
Qed.

(** What applying a recognised filter to a loaded target does to the
    rasters: the target's working raster becomes the recipe's output on the
    original, or stays when the recipe raises. *)
Lemma _apply_selected_filter_images st f src :
  funcs (filter_var st) = Some f ->
  gets (original_images st) (current_adjustment_image st) = Some src ->
  let st' := state_of (_apply_selected_filter st) in
  original_images st' = original_images st /\
  current_adjustment_image st' = current_adjustment_image st /\
  filter_var st' = filter_var st /\
  images st' =
  match f src with
  | Some out => sets (images st) (current_adjustment_image st) (Some out)
  | None => images st
  end.
Proof.
  intros Hf Hsrc. cbv zeta. unfold _apply_selected_filter.
  destruct (filter_var st) eqn:En; [discriminate Hf| | | | | |];
    rewrite Hsrc, Hf;
    (destruct (f src) as [out|];
     [ match goal with
       | |- context [_save_state ?s1] =>
           destruct (_apply_selected_filter_tail
                       (filter_var st) (current_adjustment_image st) s1)
             as (A & B & C & D)
       end;
       rewrite En in A, B, C, D; rewrite A, B, C, D; app_proj;
       rewrite ?En; repeat split; reflexivity
     | simpl state_of; unfold filter_failed; app_proj; rewrite ?En;
       repeat split; reflexivity ]).
Qed.

(** C10.  For a target slot with a loaded original and a recognised filter
    name, applying the filter stores as the target's working raster the
    recipe's output on the original raster (the working raster is not
    read), leaves the original rasters and the other three working
    rasters as they were, and applying the same filter once more gives the
    same working rasters again.  A recipe that raises leaves the working
    rasters as they were, both times. *)
Theorem filter_from_original (st : App) (src : RGBImage)
    (f : RGBImage -> option RGBImage) :
  funcs (filter_var st) = Some f ->
  gets (original_images st) (current_adjustment_image st) = Some src ->
  let target := current_adjustment_image st in
  let st1 := state_of (_apply_selected_filter st) in
  let st2 := state_of (_apply_selected_filter st1) in
  gets (images st1) target =
    match f src with Some out => Some out | None => gets (images st) target end /\
  (forall k : Slot, k <> target -> gets (images st1) k = gets (images st) k) /\
  original_images st1 = original_images st /\
  images st2 = images st1.
Proof.
  intros Hf Hsrc target st1 st2.
  destruct (_apply_selected_filter_images st f src Hf Hsrc)
    as (Ho & Hc & Hv & Hi).
  fold st1 in Ho, Hc, Hv, Hi. fold target in Hi.
  assert (funcs (filter_var st1) = Some f) as Hf1 by (rewrite Hv; exact Hf).
  assert (gets (original_images st1) (current_adjustment_image st1) = Some src)
    as Hsrc1 by (rewrite Ho, Hc; exact Hsrc).
  destruct (_apply_selected_filter_images st1 f src Hf1 Hsrc1)
    as (_ & _ & _ & Hi2).
  fold st2 in Hi2. rewrite Hc in Hi2. fold target in Hi2.
  split; [|split; [|split]].
  - rewrite Hi. destruct (f src); [apply gets_sets_eq|reflexivity].
  - intros k Hk. rewrite Hi.
    destruct (f src); [apply gets_sets_ne, Hk|reflexivity].
  - exact Ho.
  - rewrite Hi2. destruct (f src) as [out|]; [|reflexivity].
    rewrite Hi. apply sets_sets.
Qed.

End Filters.

(** ** Loading a dataset *)

(** The slots of [files] that hold an image. *)
Definition one_if_loaded (o : option RGBImage) : Z :=
  match o with Some _ => 1 | None => 0 end.
Definition count_loaded (files : Slots (option RGBImage)) : Z :=
  one_if_loaded (gets files drr_ap) + one_if_loaded (gets files kv_ap) +
  one_if_loaded (gets files drr_lat) + one_if_loaded (gets files kv_lat).

(** Every dictionary of the entry is an object of the store. *)
Definition entry_allocated (h : Heap) (e : Entry) : Prop :=
  is_Some (kv_cells h !! e_kv_offsets e) /\
  is_Some (num_cells h !! e_rotations e) /\
  is_Some (num_cells h !! e_zoom_levels e) /\
  is_Some (pan_cells h !! e_pan_offsets e) /\
  is_Some (num_cells h !! at_brightness (e_adjustment_values e)) /\
  is_Some (num_cells h !! at_contrast (e_adjustment_values e)) /\
  is_Some (num_cells h !! at_sharpness (e_adjustment_values e)).

Lemma read_kv_grow h h' l :
  heap_le h h' -> is_Some (kv_cells h !! l) -> read_kv h' l = read_kv h l.
Proof.
  intros Hle [d Hd]. rewrite (read_kv_le h h' l d Hle Hd).
  unfold read_kv. rewrite Hd. reflexivity.
Qed.

Lemma read_num_grow h h' l :
  heap_le h h' -> is_Some (num_cells h !! l) -> read_num h' l = read_num h l.
Proof.
  intros Hle [d Hd]. rewrite (read_num_le h h' l d Hle Hd).
  unfold read_num. rewrite Hd. reflexivity.
Qed.

Lemma read_pan_grow h h' l :
  heap_le h h' -> is_Some (pan_cells h !! l) -> read_pan h' l = read_pan h l.
Proof.
  intros Hle [d Hd]. rewrite (read_pan_le h h' l d Hle Hd).
  unfold read_pan. rewrite Hd. reflexivity.
Qed.

(** A history entry reads the same in a larger store. *)
Lemma entry_value_grow h h' e :
  heap_le h h' -> entry_allocated h e -> entry_value h' e = entry_value h e.
Proof.
  intros Hle (A1 & A2 & A3 & A4 & A5 & A6 & A7). unfold entry_value.
  rewrite (read_kv_grow h h' _ Hle A1), (read_num_grow h h' _ Hle A2),
    (read_num_grow h h' _ Hle A3), (read_pan_grow h h' _ Hle A4),
    (read_num_grow h h' _ Hle A5), (read_num_grow h h' _ Hle A6),
    (read_num_grow h h' _ Hle A7).
  reflexivity.
Qed.

Lemma new_kv_lookup h d : kv_cells (new_kv h d).1 !! (new_kv h d).2 = Some d.
Proof. apply lookup_insert_eq. Qed.
Lemma new_num_lookup h d : num_cells (new_num h d).1 !! (new_num h d).2 = Some d.
Proof. apply lookup_insert_eq. Qed.
Lemma new_pan_lookup h d : pan_cells (new_pan h d).1 !! (new_pan h d).2 = Some d.
Proof. apply lookup_insert_eq. Qed.

(** [install_fresh s] makes [s] the current dictionaries, keeps every other
    field, and only grows the store. *)
Lemma install_fresh_spec s st :
  exists h kv rot zoom pan adj,
    install_fresh s st =
    set_heap h
      (set_adjustment_values adj
         (set_pan_offsets pan
            (set_zoom_levels zoom (set_rotations rot (set_kv_offsets kv st))))) /\
    heap_le (heap st) h /\
    read_kv h kv = s_kv_offsets s /\
    read_num h rot = s_rotations s /\
    read_num h zoom = s_zoom_levels s /\
    read_pan h pan = s_pan_offsets s /\
    read_num h (at_brightness adj) = at_brightness (s_adjustment_values s) /\
    read_num h (at_contrast adj) = at_contrast (s_adjustment_values s) /\
    read_num h (at_sharpness adj) = at_sharpness (s_adjustment_values s).
Proof.
  unfold install_fresh.
  pose proof (new_kv_le (heap st) (s_kv_offsets s)) as E1.
  pose proof (new_kv_lookup (heap st) (s_kv_offsets s)) as L1.
  destruct (new_kv (heap st) (s_kv_offsets s)) as [h1 kv]. simpl in E1, L1.
  pose proof (new_num_le h1 (s_rotations s)) as E2.
  pose proof (new_num_lookup h1 (s_rotations s)) as L2.
  destruct (new_num h1 (s_rotations s)) as [h2 rot]. simpl in E2, L2.
  pose proof (new_num_le h2 (s_zoom_levels s)) as E3.
  pose proof (new_num_lookup h2 (s_zoom_levels s)) as L3.
  destruct (new_num h2 (s_zoom_levels s)) as [h3 zoom]. simpl in E3, L3.
  pose proof (new_pan_le h3 (s_pan_offsets s)) as E4.
  pose proof (new_pan_lookup h3 (s_pan_offsets s)) as L4.
  destruct (new_pan h3 (s_pan_offsets s)) as [h4 pan]. simpl in E4, L4.
  pose proof (new_num_le h4 (at_brightness (s_adjustment_values s))) as E5.
  pose proof (new_num_lookup h4 (at_brightness (s_adjustment_values s))) as L5.
  destruct (new_num h4 (at_brightness (s_adjustment_values s))) as [h5 b].
  simpl in E5, L5.
  pose proof (new_num_le h5 (at_contrast (s_adjustment_values s))) as E6.
  pose proof (new_num_lookup h5 (at_contrast (s_adjustment_values s))) as L6.
  destruct (new_num h5 (at_contrast (s_adjustment_values s))) as [h6 c].
  simpl in E6, L6.
  pose proof (new_num_le h6 (at_sharpness (s_adjustment_values s))) as E7.
  pose proof (new_num_lookup h6 (at_sharpness (s_adjustment_values s))) as L7.
  destruct (new_num h6 (at_sharpness (s_adjustment_values s))) as [h7 sh].
  simpl in E7, L7.
  exists h7, kv, rot, zoom, pan, (mkAdj b c sh).
  split; [reflexivity|].
  assert (heap_le h6 h7) as F6 by exact E7.
  assert (heap_le h5 h7) as F5 by eauto using heap_le_trans.
  assert (heap_le h4 h7) as F4 by eauto using heap_le_trans.
  assert (heap_le h3 h7) as F3 by eauto using heap_le_trans.
  assert (heap_le h2 h7) as F2 by eauto using heap_le_trans.
  assert (heap_le h1 h7) as F1 by eauto using heap_le_trans.
  split; [eauto using heap_le_trans|].
  split; [exact (read_kv_le h1 h7 _ _ F1 L1)|].
  split; [exact (read_num_le h2 h7 _ _ F2 L2)|].
  split; [exact (read_num_le h3 h7 _ _ F3 L3)|].
  split; [exact (read_pan_le h4 h7 _ _ F4 L4)|].
  split; [exact (read_num_le h5 h7 _ _ F5 L5)|].
  split; [exact (read_num_le h6 h7 _ _ F6 L6)|].
  simpl. unfold read_num. rewrite L7. reflexivity.
Qed.

(** The four turns of the loading loop store the decoded files as working
    and as original rasters and count them. *)
Lemma load_slots_spec files st :
  load_slot files kv_lat
    (load_slot files drr_lat
       (load_slot files kv_ap
          (load_slot files drr_ap
             (set_original_images (all_slots None)
                (set_images (all_slots None) st), 0)))) =
  (set_original_images files (set_images files st), count_loaded files).
Proof.
  destruct files as [[a|] [b|] [c|] [d|]]; reflexivity.
Qed.

Section Loading.
Context `{Pillow}.

(** C7, as the code has it.  A load that finds at least one image stores
    the decoded images as the working and the original rasters, and then
    resets the offsets, rotations, zooms, pans and adjustment values to
    their defaults, alpha to 0.5, the colour overlay to off and the active
    view to none.  The history is not reset: it holds the entries it held,
    and each of them reads as before. *)
Theorem load_dataset_resets_transform (files : Slots (option RGBImage))
    (st : App) :
  0 < count_loaded files ->
  let st' := state_of (_load_dataset (Directory files) st) in
  images st' = files /\ original_images st' = files /\
  current_value st' = default_values /\
  active_view st' = None /\
  initial_state st' = Some default_values /\
  history st' = history st /\
  forall e : Entry,
    entry_allocated (heap st) e ->
    entry_value (heap st') e = entry_value (heap st) e.
Proof.
  intros Hn. cbv zeta. unfold _load_dataset.
  rewrite load_slots_spec.
  apply Z.ltb_lt in Hn. rewrite Hn.
  match goal with
  | |- context [_update_match_overlay ?s] =>
      destruct (_update_match_overlay_display s) as [tk ->]
  end.
  unfold _save_initial_state, _reset_to_initial_values.
  destruct (install_fresh_spec default_values
              (set_original_images files (set_images files st)))
    as (h & kv & rot & zoom & pan & adj & -> & Hle & R1 & R2 & R3 & R4 & R5 & R6 & R7).
  unfold current_value. app_proj.
  rewrite R1, R2, R3, R4, R5, R6, R7.
  repeat (split; [reflexivity|]).
  intros e He. apply entry_value_grow; [exact Hle|exact He].
Qed.

End Loading.

(** ** What the blend controls, the wheel and undo do *)

Section Divergences.
Context `{Pillow}.

(** C4, on the code.  Moving the blend scale or toggling the colour overlay
    changes [alpha] (or [use_color_overlay]) and redraws, but pushes no
    history entry: the history is the one before. *)
Theorem blend_controls_push_no_entry (st : App) (a : float) (b : bool) :
  alpha (state_of (blend_row_Scale a st)) = a /\
  history (state_of (blend_row_Scale a st)) = history st /\
  use_color_overlay (state_of (blend_row_Checkbutton b st)) = b /\
  history (state_of (blend_row_Checkbutton b st)) = history st.
Proof.
  unfold blend_row_Scale, blend_row_Checkbutton.
  destruct (_update_match_overlay_display (set_alpha a st)) as [tk1 ->].
  destruct (_update_match_overlay_display (set_use_color_overlay b st))
    as [tk2 ->].
  repeat split.
Qed.

(** The rotation slider does nothing unless the AP view is the active
    one. *)
Lemma _rotate_active_inactive val st :
  active_view st = Some lat \/ active_view st = None ->
  _rotate_active val st = Returned st.
Proof.
  intros [E|E]; unfold _rotate_active; rewrite E;
    destruct (_ignore_rotation_callback st); reflexivity.
Qed.

(** The wheel over the lateral canvas does nothing. *)
Lemma _mouse_scroll_lat e st : _mouse_scroll e lat st = Returned st.
Proof. reflexivity. Qed.

(** The wheel over the AP canvas turns the AP rotation by one degree,
    whichever view is active. *)
Lemma _mouse_scroll_ap e st :
  let st' := state_of (_mouse_scroll e ap st) in
  rotation_of st' ap =
  py_float_mod
    (rotation_of st ap + (if (0 <? delta e)%Z then 1 else -1))%float 360 /\
  active_view st' = active_view st.
Proof.
  cbv zeta. unfold _mouse_scroll.
  match goal with
  | |- context [_update_match_overlay ?s] =>
      destruct (_update_match_overlay_display s) as [tk ->]
  end.
  match goal with
  | |- context [_save_state ?s] =>
      destruct (_save_state_spec s) as (h & en & -> & Hle)
  end.
  unfold rotation_of. app_proj. split; [|reflexivity].
  erewrite read_num_le;
    [ | exact Hle | app_proj; apply num_cells_write_num ].
  apply getv_setv_eq.
Qed.

End Divergences.

(** ** Runs on concrete inputs *)

Section Runs.
Local Existing Instance nearest_pillow.

(** A dataset with the two AP images. *)
Definition two_files : Slots (option RGBImage) :=
  mkSlots (Some (checker 10 200)) (Some (checker 50 100)) None None.

(** The window after that dataset is loaded. *)
Definition loaded_state : App := step start (Dataset_menu (Directory two_files)).

(** A wheel tick up at the canvas point (300, 200). *)
Definition wheel_up : WheelEvent := mkWheel 120 300 200.

(** The vertical AP offset each history entry holds, oldest first. *)
Definition history_ap_y (st : App) : list Z :=
  map (fun e => ap_y (s_kv_offsets (entry_value (heap st) e))) (history st).

Lemma zoom_at_cursor_witness :
  let view := ap in
  let e := wheel_up in
  let st := loaded_state in
  let z0 := zoom_of st view in
  let z1 :=
    py_max 0.2
      (py_min 5.0 (z0 + (if (0 <? delta e)%Z then 0.1 else -0.1)))%float in
  let p := pan_of st view in
  (0.2 <=? z1)%float = true /\ (z1 <=? 5.0)%float = true /\
  (if (z1 =? z0)%float
   then _zoom e view st = Returned st
   else
     let st' := state_of (_zoom e view st) in
     zoom_of st' view = z1 /\
     pan_of st' view =
     ((p.1 + cx e * (1 - z1 / z0))%float,
      (p.2 + cy e * (1 - z1 / z0))%float)).
Proof.
  pose proof (zoom_at_cursor ap wheel_up loaded_state (checker 10 200)
                (checker 50 100)) as Hthm.
  cbv zeta in Hthm |- *. apply Hthm; vm_compute; reflexivity.
Defined.

(** The same step in numbers: from zoom 1.0 to 1.1 at (300, 200) the pan
    goes from (0, 0) to about (-30, -20). *)
Example zoom_step_values :
  zoom_of (step loaded_state (Control_MouseWheel ap wheel_up)) ap = 1.1%float /\
  pan_of (step loaded_state (Control_MouseWheel ap wheel_up)) ap =
  ((-30.000000000000028)%float, (-20.000000000000018)%float) /\
  length (history (step loaded_state (Control_MouseWheel ap wheel_up))) = 2%nat.
Proof. vm_compute. repeat split. Qed.

(** The window after the dataset is loaded and the AP view zoomed in. *)
Definition zoomed_state : App :=
  step loaded_state (Control_MouseWheel ap wheel_up).

Lemma compositor_merge_witness :
  let view := ap in
  let st := zoomed_state in
  let drr := checker 10 200 in
  let kv := checker 50 100 in
  let sw := 660 in
  let sh := 440 in
  let ipx := -30 in
  let ipy := -20 in
  let angle := rotation_of st ap in
  let kv_x := get_x (kv_offset_of st) view - ipx in
  let kv_y := get_y (kv_offset_of st) view - ipy in
  let drr_at x y : RGB :=
    if Image.in_box (- ipx) (- ipy) sw sh x y
    then lanczos drr sw sh (x - - ipx) (y - - ipy)
    else (0, 0, 0) in
  let kv_at x y : RGB :=
    if Image.in_box kv_x kv_y sw sh x y
    then
      match view with
      | ap =>
          if (angle =? 0)%float
          then lanczos kv sw sh (x - kv_x) (y - kv_y)
          else rotated (resize kv (sw, sh)) angle (x - kv_x) (y - kv_y)
      | lat => lanczos kv sw sh (x - kv_x) (y - kv_y)
      end
    else (0, 0, 0) in
  exists out : RGBImage,
    render_view view st =
    Returned
      (set_tk_images
         (mkTk (setv (match_canvas (tk_images st)) view (Some out))
               (thumbnails (tk_images st))) st) /\
    width out = DISPLAY_W /\ height out = DISPLAY_H /\
    forall x y : Z,
      getpixel out x y =
      if use_color_overlay st
      then (luminance (drr_at x y), luminance (kv_at x y),
            luminance (kv_at x y))
      else
        let '(r1, g1, b1) := drr_at x y in
        let '(r2, g2, b2) := kv_at x y in
        (to_uint8 (float_of_int r1 * (1 - alpha st)
                   + float_of_int r2 * alpha st)%float,
         to_uint8 (float_of_int g1 * (1 - alpha st)
                   + float_of_int g2 * alpha st)%float,
         to_uint8 (float_of_int b1 * (1 - alpha st)
                   + float_of_int b2 * alpha st)%float).
Proof.
  pose proof (compositor_merge ap zoomed_state (checker 10 200)
                (checker 50 100) 660 440 (-30) (-20)) as Hthm.
  cbv zeta in Hthm |- *. apply Hthm; vm_compute; reflexivity.
Defined.

(** The displayed AP raster of that state at three points: outside the
    pasted rasters it is black, inside it is the half-and-half blend. *)
Example composite_pixels :
  (fun im => (getpixel im 0 0, getpixel im 30 20, getpixel im 599 399))
    <$> on_ap (match_canvas (tk_images zoomed_state)) =
  Some ((0, 0, 0), (30, 30, 30), (30, 30, 30)).
Proof. vm_compute. reflexivity. Qed.

(** The loaded window with a filter chosen; the target is the DRR AP
    slot. *)
Definition filter_state : App := step loaded_state (Filter_menu Low_Dose_Boost).

Lemma filter_from_original_witness :
  let st := filter_state in
  let src := checker 10 200 in
  let f := fun img : RGBImage => Some (_f_collins_bone img) in
  let target := current_adjustment_image st in
  let st1 := state_of (_apply_selected_filter st) in
  let st2 := state_of (_apply_selected_filter st1) in
  gets (images st1) target =
    match f src with Some out => Some out | None => gets (images st) target end /\
  (forall k : Slot, k <> target -> gets (images st1) k = gets (images st) k) /\
  original_images st1 = original_images st /\
  images st2 = images st1.
Proof.
  pose proof (filter_from_original filter_state (checker 10 200)
                (fun img : RGBImage => Some (_f_collins_bone img))) as Hthm.
  cbv zeta in Hthm |- *. apply Hthm; vm_compute; reflexivity.
Defined.

Lemma load_dataset_resets_transform_witness :
  let files := two_files in
  let st := run start [Key_Down; Key_Down] in
  let st' := state_of (_load_dataset (Directory files) st) in
  images st' = files /\ original_images st' = files /\
  current_value st' = default_values /\
  active_view st' = None /\
  initial_state st' = Some default_values /\
  history st' = history st /\
  forall e : Entry,
    entry_allocated (heap st) e ->
    entry_value (heap st') e = entry_value (heap st) e.
Proof.
  pose proof (load_dataset_resets_transform two_files
                (run start [Key_Down; Key_Down])) as Hthm.
  cbv zeta in Hthm |- *. apply Hthm. vm_compute. reflexivity.
Defined.

(** C7, the claim as stated fails.  After two nudges the history holds
    three entries; loading a dataset resets the offsets to zero but leaves
    the three entries in the history: it is neither cleared nor given a
    fresh baseline (its last entry still records the offset 2). *)
Lemma load_keeps_history :
  let st := run start [Key_Down; Key_Down] in
  let st' := step st (Dataset_menu (Directory two_files)) in
  history_ap_y st = [0; 1; 2] /\
  history_ap_y st' = [0; 1; 2] /\
  ap_y (kv_offset_of st') = 0 /\
  status_var (widgets st') = Loaded 2.
Proof. vm_compute. repeat split. Qed.

(** The entries pushed by the baseline and by each of 21 nudges, in the
    order they were pushed. *)
Definition pushed_by_21_nudges : list Entry :=
  omap (fun n => last (history (run start (replicate n Key_Down)))) (seq 0 22).

(** C5, the claim as stated fails.  After the baseline and 21 nudges the
    history holds the last twenty entries pushed: its oldest entry is the
    twentieth from the last one pushed (it records the offset 2), while
    the twenty-first from last (which records the offset 1) is gone. *)
Lemma oldest_entry_after_21_nudges :
  let st := run start (replicate 21 Key_Down) in
  length pushed_by_21_nudges = 22%nat /\
  length (history st) = 20%nat /\
  history_ap_y st =
    [2; 3; 4; 5; 6; 7; 8; 9; 10; 11; 12; 13; 14; 15; 16; 17; 18; 19; 20; 21] /\
  head (history st) = nth_from_last 20 pushed_by_21_nudges /\
  (fun e => ap_y (s_kv_offsets (entry_value (heap st) e)))
    <$> nth_from_last 21 pushed_by_21_nudges = Some 1 /\
  (fun e => ap_y (s_kv_offsets (entry_value (heap st) e)))
    <$> head (history st) = Some 2.
Proof. vm_compute. repeat split. Qed.

(** C4 at a concrete input: moving the blend scale in the window as it
    opens changes alpha and leaves the history with its one entry, which
    still records alpha 0.5. *)
Example blend_scale_from_start :
  let st' := step start (Blend_scale 0.8) in
  alpha st' = 0.8%float /\ length (history st') = 1%nat /\
  map e_alpha (history st') = [0.5%float].
Proof. vm_compute. repeat split. Qed.

(** C6 on the code: a history entry is changed after it was stored.  After
    a nudge and an undo the history holds the baseline entry alone, which
    records the offset 0; undo made the dictionaries of that entry the
    current ones, so the next nudge writes into them: the same entry, still
    first in the history, now records the offset 1. *)
Theorem undo_then_nudge_rewrites_entry :
  let st2 := run start [Key_Down; Control_z] in
  let st3 := step st2 Key_Down in
  exists baseline : Entry,
    history st2 = [baseline] /\
    head (history st3) = Some baseline /\
    kv_offsets st2 = e_kv_offsets baseline /\
    ap_y (s_kv_offsets (entry_value (heap st2) baseline)) = 0 /\
    ap_y (s_kv_offsets (entry_value (heap st3) baseline)) = 1 /\
    history_ap_y st3 = [1; 1].
Proof. eexists. vm_compute. repeat split. Qed.

(** What follows for the user: the second undo does not bring the offset
    back. *)
Example second_undo_keeps_the_nudge :
  ap_y (kv_offset_of (run start [Key_Down; Control_z; Key_Down; Control_z])) = 1.
Proof. vm_compute. reflexivity. Qed.

(** C8 on the code: with the lateral view active (its canvas was clicked,
    the status bar says the rotation is disabled), a wheel tick over the AP
    canvas changes the stored AP rotation from 0 to 1. *)
Theorem wheel_rotates_while_lat_active :
  let st := step start (Button_1 lat 10 10) in
  let st' := step st (MouseWheel ap (mkWheel 120 0 0)) in
  active_view st = Some lat /\
  status_var (widgets st) = Lateral_view_selected /\
  rotation_of st ap = 0%float /\
  active_view st' = Some lat /\
  rotation_of st' ap = 1%float.
Proof. vm_compute. repeat split. Qed.

(** Undo on concrete histories, no image being loaded: with the baseline
    alone it reports that nothing can be undone; after a nudge it goes back
    to the baseline. *)
Example undo_at_the_floor :
  _undo_last_action start =
  Returned (set_widgets (set_status_var Nothing_to_undo) start) /\
  length (history start) = 1%nat.
Proof. split; vm_compute; reflexivity. Qed.

Example undo_after_a_nudge :
  let st := step start Key_Down in
  let st' := step st Control_z in
  ap_y (kv_offset_of st) = 1 /\ ap_y (kv_offset_of st') = 0 /\
  length (history st) = 2%nat /\ length (history st') = 1%nat /\
  status_var (widgets st') = Undo_successful.
Proof. vm_compute. repeat split. Qed.

(** C9 on the code: with an original loaded for the target, undo pushes as
    it pops.  In the loaded window the target is the DRR AP slot, which has
    an original; two nudges leave three entries, which record the offsets
    0, 1 and 2.  Ctrl+Z removes the last entry and restores the offset 1;
    then it sets the three adjustment scales, and each [set] runs
    [_adjust_image], which pushes a record of the state just restored: the
    history holds five entries, not two.  A second Ctrl+Z removes one of
    these records and restores the one under it: the offset is 1 again,
    not the 0 of the baseline, and the history holds seven entries. *)
Theorem undo_pushes_as_it_pops :
  let st := run loaded_state [Key_Down; Key_Down] in
  let st1 := step st Control_z in
  let st2 := step st1 Control_z in
  current_adjustment_image st = drr_ap /\
  (fun im => getpixel im 0 0) <$> gets (original_images st) drr_ap =
    Some (10, 10, 10) /\
  history_ap_y st = [0; 1; 2] /\ ap_y (kv_offset_of st) = 2 /\
  history_ap_y st1 = [0; 1; 1; 1; 1] /\ ap_y (kv_offset_of st1) = 1 /\
  status_var (widgets st1) = Undo_successful /\
  history_ap_y st2 = [0; 1; 1; 1; 1; 1; 1] /\ ap_y (kv_offset_of st2) = 1 /\
  status_var (widgets st2) = Undo_successful.
Proof. vm_compute. repeat split. Qed.

End Runs.

(** * More on the handlers *)

(** ** The references in use *)

(** The dictionaries the object refers to now, and its blend settings, as
    an entry. *)
Definition current_entry (st : App) : Entry :=
  mkEntry (kv_offsets st) (rotations st) (zoom_levels st) (pan_offsets st)
    (adjustment_values st) (alpha st) (use_color_overlay st).

(** What a dictionary from a view to a number is used for. *)
Inductive Role := Rotation_dict | Zoom_dict | Adjustment_dict.

(** A zoom level within the bounds of the clamp. *)
Definition in_range (z : float) : Prop :=
  (0.2 <=? z)%float = true /\ (z <=? 5.0)%float = true.

(** What holds of a dictionary in each role: the lateral rotation is the
    zero it was created with, both zoom levels are within the bounds. *)
Definition fits (r : Role) (d : PerView float) : Prop :=
  match r with
  | Rotation_dict => on_lat d = 0%float
  | Zoom_dict => in_range (on_ap d) /\ in_range (on_lat d)
  | Adjustment_dict => True
  end.

(** Every reference with a role names an object that fits the role. *)
Definition typed (ty : gmap nat Role) (h : Heap) : Prop :=
  forall (l : ref) r, ty !! l = Some r ->
    exists d, num_cells h !! l = Some d /\ fits r d.

(** The references of an entry name objects, each in its role. *)
Definition entry_typed (ty : gmap nat Role) (h : Heap) (e : Entry) : Prop :=
  is_Some (kv_cells h !! e_kv_offsets e) /\
  ty !! e_rotations e = Some Rotation_dict /\
  ty !! e_zoom_levels e = Some Zoom_dict /\
  is_Some (pan_cells h !! e_pan_offsets e) /\
  ty !! at_brightness (e_adjustment_values e) = Some Adjustment_dict /\
  ty !! at_contrast (e_adjustment_values e) = Some Adjustment_dict /\
  ty !! at_sharpness (e_adjustment_values e) = Some Adjustment_dict.

Definition snapshot_fits (s : Snapshot) : Prop :=
  fits Rotation_dict (s_rotations s) /\ fits Zoom_dict (s_zoom_levels s).

(** The invariant of the store: the current references and those of every
    history entry are in their roles, and the saved initial state is the
    default one. *)
Definition wf_at (ty : gmap nat Role) (st : App) : Prop :=
  typed ty (heap st) /\
  entry_typed ty (heap st) (current_entry st) /\
  Forall (entry_typed ty (heap st)) (history st) /\
  initial_state st = Some default_values.

Definition wf_store (st : App) : Prop := exists ty, wf_at ty st.

(** The invariant of the window once it is open: the store is in order and
    the history holds an entry. *)
Definition wf (st : App) : Prop :=
  wf_store st /\ (1 <= length (history st))%nat.

Lemma in_range_1 : in_range 1.0.
Proof. split; reflexivity. Qed.

Lemma snapshot_fits_default : snapshot_fits default_values.
Proof. split; [reflexivity|]. split; exact in_range_1. Qed.

Lemma typed_read ty h (l : ref) r : typed ty h -> ty !! l = Some r -> fits r (read_num h l).
Proof.
  intros Ht Hl. destruct (Ht l r Hl) as (d & Hd & Hf).
  unfold read_num. rewrite Hd. exact Hf.
Qed.

Lemma typed_allocated ty h (l : ref) r :
  typed ty h -> ty !! l = Some r -> is_Some (num_cells h !! l).
Proof. intros Ht Hl. destruct (Ht l r Hl) as (d & Hd & _). eauto. Qed.

Lemma typed_le ty h h' : typed ty h -> heap_le h h' -> typed ty h'.
Proof.
  intros Ht (_ & Hn & _) l r Hl. destruct (Ht l r Hl) as (d & Hd & Hf).
  exists d. split; [exact (lookup_weaken _ _ _ _ Hd Hn)|exact Hf].
Qed.

Lemma typed_write_num ty h (l : ref) r d :
  typed ty h -> ty !! l = Some r -> fits r d -> typed ty (write_num h l d).
Proof.
  intros Ht Hl Hf l' r' Hl'. simpl.
  destruct (decide (l = l')) as [<-|Hne].
  - rewrite lookup_insert_eq. exists d. split; [reflexivity|].
    rewrite Hl in Hl'. injection Hl' as <-. exact Hf.
  - rewrite lookup_insert_ne by exact Hne. exact (Ht l' r' Hl').
Qed.

(** A new dictionary takes a role of its own. *)
Lemma typed_new_num ty h d r :
  typed ty h -> fits r d ->
  exists ty',
    typed ty' (new_num h d).1 /\ ty ⊆ ty' /\ ty' !! (new_num h d).2 = Some r.
Proof.
  intros Ht Hf. simpl.
  set (l := fresh (dom (num_cells h)) : ref).
  assert (num_cells h !! l = None) as Hfresh
    by (apply (not_elem_of_dom (D:=gset nat)), is_fresh).
  assert (ty !! l = None) as Hty.
  { destruct (ty !! l) as [r'|] eqn:E; [|reflexivity].
    destruct (Ht l r' E) as (d' & Hd' & _). congruence. }
  exists (<[l:=r]> ty). split; [|split].
  - intros l' r' Hl'. simpl.
    destruct (decide (l = l')) as [<-|Hne].
    + rewrite lookup_insert_eq in Hl'. injection Hl' as <-.
      rewrite lookup_insert_eq. eauto.
    + rewrite lookup_insert_ne in Hl' by exact Hne.
      rewrite lookup_insert_ne by exact Hne. exact (Ht l' r' Hl').
  - apply insert_subseteq, Hty.
  - apply lookup_insert_eq.
Qed.

Lemma entry_typed_le ty ty' h h' e :
  ty ⊆ ty' -> heap_le h h' -> entry_typed ty h e -> entry_typed ty' h' e.
Proof.
  intros Hty (Hk & _ & Hp) (A1 & A2 & A3 & A4 & A5 & A6 & A7).
  repeat split;
    eauto using lookup_weaken, lookup_weaken_is_Some.
Qed.

Lemma Forall_entry_typed_le ty ty' h h' es :
  ty ⊆ ty' -> heap_le h h' ->
  Forall (entry_typed ty h) es -> Forall (entry_typed ty' h') es.
Proof.
  intros Hty Hle HF. eapply Forall_impl; [exact HF|].
  intros e. apply entry_typed_le; assumption.
Qed.

Lemma entry_typed_write_kv ty h (l : ref) d e :
  entry_typed ty h e -> entry_typed ty (write_kv h l d) e.
Proof.
  intros (A1 & A2 & A3 & A4 & A5 & A6 & A7).
  repeat split; try assumption.
  simpl. apply lookup_insert_is_Some.
  destruct (decide (l = e_kv_offsets e)); [left; assumption|right; split; assumption].
Qed.

Lemma entry_typed_write_pan ty h (l : ref) d e :
  entry_typed ty h e -> entry_typed ty (write_pan h l d) e.
Proof.
  intros (A1 & A2 & A3 & A4 & A5 & A6 & A7).
  repeat split; try assumption.
  simpl. apply lookup_insert_is_Some.
  destruct (decide (l = e_pan_offsets e)); [left; assumption|right; split; assumption].
Qed.

Lemma entry_typed_write_num ty h (l : ref) d e :
  entry_typed ty h e -> entry_typed ty (write_num h l d) e.
Proof. exact id. Qed.

Lemma Forall_history_append (P : Entry -> Prop) h e :
  Forall P h -> P e -> Forall P (history_append h e).
Proof.
  intros Hh He. unfold history_append.
  assert (Forall P (h ++ [e])) as HF
    by (apply Forall_app; split; [exact Hh|repeat constructor; exact He]).
  destruct (20 <? length (h ++ [e]))%nat; [|exact HF].
  destruct (h ++ [e]); [exact HF|]. simpl. exact (Forall_inv_tail HF).
Qed.

Lemma history_append_nonempty h e : (1 <= length (history_append h e))%nat.
Proof.
  unfold history_append. destruct (20 <? length (h ++ [e]))%nat eqn:E.
  - apply Nat.ltb_lt in E. destruct (h ++ [e]); simpl in *; lia.
  - rewrite length_app. simpl. lia.
Qed.

(** Allocates the next dictionary of a chain in the role [r], once its
    content is shown to fit. *)
Ltac alloc_num r :=
  lazymatch goal with
  | T : typed ?ty ?h |- context [new_num ?h ?d] =>
      let F := fresh "F" in
      assert (fits r d) as F;
      [ | let ty' := fresh "ty" in
          let T' := fresh "T" in
          let S := fresh "S" in
          let L := fresh "L" in
          let E := fresh "E" in
          destruct (typed_new_num ty h d r T F) as (ty' & T' & S & L);
          pose proof (new_num_le h d) as E;
          destruct (new_num h d) as [? ?]; simpl in T', L, E; clear F ]
  end.

Ltac alloc_kv :=
  lazymatch goal with
  | T : typed ?ty ?h |- context [new_kv ?h ?d] =>
      let T' := fresh "T" in
      let L := fresh "L" in
      let E := fresh "E" in
      pose proof (new_kv_le h d) as E;
      pose proof (new_kv_lookup h d) as L;
      pose proof (typed_le ty h _ T E) as T';
      destruct (new_kv h d) as [? ?]; simpl in T', L, E
  end.

Ltac alloc_pan :=
  lazymatch goal with
  | T : typed ?ty ?h |- context [new_pan ?h ?d] =>
      let T' := fresh "T" in
      let L := fresh "L" in
      let E := fresh "E" in
      pose proof (new_pan_le h d) as E;
      pose proof (new_pan_lookup h d) as L;
      pose proof (typed_le ty h _ T E) as T';
      destruct (new_pan h d) as [? ?]; simpl in T', L, E
  end.

(** The seven allocations of a snapshot or of a reset, seen from the
    roles: the new references are in their roles, the old ones stay. *)
Lemma entry_typed_new ty1 ty2 ty3 ty4 ty5 h1 h2 h3 h4 h5 h6 h7
    (kv : ref) dkv (rot zoom : ref) (pan : ref) dpan (b c sh : ref) a o :
  kv_cells h1 !! kv = Some dkv -> heap_le h1 h2 ->
  ty1 !! rot = Some Rotation_dict -> heap_le h2 h3 -> ty1 ⊆ ty2 ->
  ty2 !! zoom = Some Zoom_dict -> heap_le h3 h4 ->
  pan_cells h4 !! pan = Some dpan -> heap_le h4 h5 -> ty2 ⊆ ty3 ->
  ty3 !! b = Some Adjustment_dict -> heap_le h5 h6 -> ty3 ⊆ ty4 ->
  ty4 !! c = Some Adjustment_dict -> heap_le h6 h7 -> ty4 ⊆ ty5 ->
  ty5 !! sh = Some Adjustment_dict ->
  entry_typed ty5 h7 (mkEntry kv rot zoom pan (mkAdj b c sh) a o).
Proof.
  intros Lkv E2 Lrot E3 S2 Lzoom E4 Lpan E5 S3 Lb E6 S4 Lc E7 S5 Lsh.
  assert (heap_le h4 h7) as F4 by eauto using heap_le_trans.
  assert (heap_le h1 h7) as F1 by eauto using heap_le_trans.
  assert (ty3 ⊆ ty5) as U3 by (etrans; eassumption).
  assert (ty2 ⊆ ty5) as U2 by (etrans; eassumption).
  assert (ty1 ⊆ ty5) as U1 by (etrans; eassumption).
  repeat split; simpl.
  - destruct F1 as (Hk & _ & _). eapply lookup_weaken_is_Some; [eauto|exact Hk].
  - exact (lookup_weaken _ _ _ _ Lrot U1).
  - exact (lookup_weaken _ _ _ _ Lzoom U2).
  - destruct F4 as (_ & _ & Hp). eapply lookup_weaken_is_Some; [eauto|exact Hp].
  - exact (lookup_weaken _ _ _ _ Lb U3).
  - exact (lookup_weaken _ _ _ _ Lc S5).
  - exact Lsh.
Qed.

Lemma snapshot_typed ty st :
  typed ty (heap st) -> entry_typed ty (heap st) (current_entry st) ->
  exists ty',
    ty ⊆ ty' /\ heap_le (heap st) (snapshot st).1 /\
    typed ty' (snapshot st).1 /\
    entry_typed ty' (snapshot st).1 (snapshot st).2.
Proof.
  intros T0 (A1 & A2 & A3 & A4 & A5 & A6 & A7). simpl in A1, A2, A3, A4, A5, A6, A7.
  unfold snapshot, copy_kv, copy_num, copy_pan.
  alloc_kv.
  alloc_num Rotation_dict; [eapply typed_read; eassumption|].
  assert (ty0 !! zoom_levels st = Some Zoom_dict) as A3'
    by exact (lookup_weaken _ _ _ _ A3 S).
  alloc_num Zoom_dict; [eapply typed_read; eassumption|].
  alloc_pan.
  alloc_num Adjustment_dict; [exact I|].
  alloc_num Adjustment_dict; [exact I|].
  alloc_num Adjustment_dict; [exact I|].
  cbn [fst snd].
  exists ty4. split; [|split; [|split]].
  - repeat (etrans; [eassumption|]). reflexivity.
  - eauto 10 using heap_le_trans.
  - assumption.
  - eapply entry_typed_new; eauto.
Qed.

Lemma install_fresh_typed ty s st :
  typed ty (heap st) -> snapshot_fits s ->
  exists ty',
    ty ⊆ ty' /\ heap_le (heap st) (heap (install_fresh s st)) /\
    typed ty' (heap (install_fresh s st)) /\
    entry_typed ty' (heap (install_fresh s st))
      (current_entry (install_fresh s st)) /\
    history (install_fresh s st) = history st /\
    initial_state (install_fresh s st) = initial_state st.
Proof.
  intros T0 (Fr & Fz). unfold install_fresh.
  alloc_kv.
  alloc_num Rotation_dict; [exact Fr|].
  alloc_num Zoom_dict; [exact Fz|].
  alloc_pan.
  alloc_num Adjustment_dict; [exact I|].
  alloc_num Adjustment_dict; [exact I|].
  alloc_num Adjustment_dict; [exact I|].
  unfold current_entry. app_proj.
  exists ty4. split; [|split; [|split; [|split; [|split]]]].
  - repeat (etrans; [eassumption|]). reflexivity.
  - eauto 10 using heap_le_trans.
  - assumption.
  - eapply entry_typed_new; eauto.
  - reflexivity.
  - reflexivity.
Qed.

Lemma Forall_removelast {A} (P : A -> Prop) (l : list A) :
  Forall P l -> Forall P (removelast l).
Proof.
  intros HF. destruct l as [|x l _] using rev_ind; [exact HF|].
  rewrite removelast_last. apply Forall_app in HF. tauto.
Qed.

Lemma Forall_last {A} (P : A -> Prop) (l : list A) x :
  Forall P l -> last l = Some x -> P x.
Proof.
  intros HF Hl. apply last_Some in Hl as [l' ->].
  apply Forall_app in HF as [_ HF]. inversion HF; assumption.
Qed.

Lemma length_removelast {A} (l : list A) :
  length (removelast l) = (length l - 1)%nat.
Proof.
  destruct l as [|x l _] using rev_ind; [reflexivity|].
  rewrite removelast_last, length_app. simpl. lia.
Qed.

Lemma wf_display st st' : display_only st st' -> wf st -> wf st'.
Proof. intros [tk ->] Hw. exact Hw. Qed.

(** Saving puts the store in order for good: the history holds an entry
    from then on. *)
Lemma wf_store__save_state st : wf_store st -> wf (_save_state st).
Proof.
  intros (ty & T & C & HF & Hi).
  destruct (snapshot_typed ty st T C) as (ty' & S & E & T' & C').
  unfold _save_state. destruct (snapshot st) as [h e]. simpl in S, E, T', C'.
  split; [|apply history_append_nonempty].
  exists ty'. split; [exact T'|]. split; [|split; [|exact Hi]].
  - exact (entry_typed_le ty ty' _ _ _ S E C).
  - apply Forall_history_append; [|exact C'].
    exact (Forall_entry_typed_le ty ty' _ _ _ S E HF).
Qed.

Lemma wf__save_state st : wf st -> wf (_save_state st).
Proof. intros [Hs _]. apply wf_store__save_state, Hs. Qed.

Lemma wf_install_fresh s st :
  snapshot_fits s -> wf st -> wf (install_fresh s st).
Proof.
  intros Hs [(ty & T & C & HF & Hi) Hn].
  destruct (install_fresh_typed ty s st T Hs) as (ty' & S & E & T' & C' & Hh & Hi').
  split; [|rewrite Hh; exact Hn].
  exists ty'. split; [exact T'|]. split; [exact C'|].
  split; [|rewrite Hi'; exact Hi].
  rewrite Hh. exact (Forall_entry_typed_le ty ty' _ _ _ S E HF).
Qed.

Lemma wf_write_kv st (l : ref) d :
  wf st -> wf (set_heap (write_kv (heap st) l d) st).
Proof.
  intros [(ty & T & C & HF & Hi) Hn]. split; [|exact Hn].
  exists ty. split; [exact T|]. split; [|split; [|exact Hi]].
  - apply (entry_typed_write_kv ty (heap st) l d _ C).
  - eapply Forall_impl; [exact HF|]. intros e. apply entry_typed_write_kv.
Qed.

Lemma wf_write_pan st (l : ref) d :
  wf st -> wf (set_heap (write_pan (heap st) l d) st).
Proof.
  intros [(ty & T & C & HF & Hi) Hn]. split; [|exact Hn].
  exists ty. split; [exact T|]. split; [|split; [|exact Hi]].
  - apply (entry_typed_write_pan ty (heap st) l d _ C).
  - eapply Forall_impl; [exact HF|]. intros e. apply entry_typed_write_pan.
Qed.

Lemma wf_write_num st (l : ref) r d :
  (forall ty, wf_at ty st -> ty !! l = Some r) ->
  (fits r (read_num (heap st) l) -> fits r d) ->
  wf st -> wf (set_heap (write_num (heap st) l d) st).
Proof.
  intros Hl Hf [(ty & W) Hn]. pose proof (Hl ty W) as Hr.
  destruct W as (T & C & HF & Hi). split; [|exact Hn].
  exists ty. split; [|split; [exact C|split; [exact HF|exact Hi]]].
  apply (typed_write_num ty (heap st) l r d T Hr).
  apply Hf. exact (typed_read ty (heap st) l r T Hr).
Qed.

(** The AP rotation may take any value. *)
Lemma wf_write_rotation st a :
  wf st ->
  wf (set_heap (write_num (heap st) (rotations st)
                  (setv (read_num (heap st) (rotations st)) ap a)) st).
Proof.
  apply (wf_write_num st _ Rotation_dict).
  - intros ty (_ & (_ & Hr & _) & _). exact Hr.
  - exact id.
Qed.

(** A zoom level may take a value within the bounds. *)
Lemma wf_write_zoom st view z :
  in_range z -> wf st ->
  wf (set_heap (write_num (heap st) (zoom_levels st)
                  (setv (read_num (heap st) (zoom_levels st)) view z)) st).
Proof.
  intros Hz. apply (wf_write_num st _ Zoom_dict).
  - intros ty (_ & (_ & _ & Hr & _) & _). exact Hr.
  - intros [Ha Hl]. destruct view; split; assumption.
Qed.

(** An adjustment value may take any value. *)
Lemma wf_write_adjustment st k view v :
  wf st ->
  wf (set_heap
        (write_num (heap st) (geta (adjustment_values st) k)
           (setv (read_num (heap st) (geta (adjustment_values st) k)) view v))
        st).
Proof.
  apply (wf_write_num st _ Adjustment_dict).
  - intros ty (_ & (_ & _ & _ & _ & Hb & Hc & Hs) & _).
    destruct k; assumption.
  - exact id.
Qed.

Lemma wf_set_initial_state st :
  wf st -> wf (set_initial_state (Some default_values) st).
Proof.
  intros [(ty & T & C & HF & Hi) Hn]. split; [|exact Hn].
  exists ty. split; [exact T|]. split; [exact C|]. split; [exact HF|reflexivity].
Qed.

Lemma wf_set_widgets f st : wf st -> wf (set_widgets f st).
Proof. exact id. Qed.

Lemma wf_load_slot files key acc : wf acc.1 -> wf (load_slot files key acc).1.
Proof.
  destruct acc as [st n]. unfold load_slot. simpl.
  destruct (gets files key); exact id.
Qed.

(** The store of the object under construction, before its first save. *)
Lemma wf_store_init s0 :
  heap s0 = empty_heap -> history s0 = [] ->
  wf_store (set_initial_state (Some default_values)
              (install_fresh default_values s0)).
Proof.
  intros Hh Hl.
  assert (typed ∅ (heap s0)) as T0
    by (intros l r Hr; rewrite lookup_empty in Hr; discriminate).
  destruct (install_fresh_typed ∅ default_values s0 T0 snapshot_fits_default)
    as (ty & _ & _ & T & C & Hh' & _).
  rewrite Hl in Hh'. clear Hh Hl T0.
  generalize dependent (install_fresh default_values s0). intros s1 T C Hh'.
  exists ty. split; [exact T|]. split; [exact C|]. split; [|reflexivity].
  app_proj. rewrite Hh'. constructor.
Qed.

Section Store_invariant.
Context `{Pillow}.

Lemma wf_update st : wf st -> wf (state_of (_update_match_overlay st)).
Proof. apply wf_display, _update_match_overlay_display. Qed.

Ltac wf_special :=
  lazymatch goal with
  | |- wf (state_of (_update_match_overlay _)) => apply wf_update
  | |- wf (_save_state _) => apply wf__save_state
  | |- wf (set_heap (write_kv _ _ _) _) => apply wf_write_kv
  | |- wf (set_heap (write_pan _ _ _) _) => apply wf_write_pan
  | |- wf (set_heap (write_num _ (rotations _) _) _) => apply wf_write_rotation
  | |- wf (set_heap (write_num _ (zoom_levels _) _) _) =>
      apply wf_write_zoom; [exact (clamp_range _)|]
  | |- wf (set_heap (write_num _ (geta _ _) _) _) => apply wf_write_adjustment
  | Hs : snapshot_fits ?s |- wf (install_fresh ?s _) =>
      apply wf_install_fresh; [exact Hs|]
  | |- wf (install_fresh default_values _) =>
      apply wf_install_fresh; [exact snapshot_fits_default|]
  | |- wf (set_initial_state (Some default_values) _) =>
      apply wf_set_initial_state
  | |- wf (?f _ ?s) => unfold wf, wf_store, wf_at; progress app_proj; change (wf s)
  end.

Ltac wf_step := inv_step wf ltac:(idtac; wf_special).

Lemma wf__reset_to_default st : wf st -> wf (state_of (_reset_to_default st)).
Proof.
  intros Hw. cbv beta delta [_reset_to_default].
  destruct (initial_state st) as [init|] eqn:E; [|exact Hw].
  assert (snapshot_fits init) as Hinit.
  { destruct Hw as [(ty & _ & _ & _ & Hi) _]. rewrite Hi in E.
    injection E as <-. exact snapshot_fits_default. }
  repeat wf_step.
Qed.

Lemma wf_scale_set k v st : wf st -> wf (scale_set k v st).
Proof. intros Hw. repeat wf_step. Qed.

Lemma wf_show_adjustments view st : wf st -> wf (show_adjustments view st).
Proof. intros Hw. repeat wf_step. Qed.

Lemma wf__undo_last_action st : wf st -> wf (state_of (_undo_last_action st)).
Proof.
  intros Hw. unfold _undo_last_action.
  destruct (length (history st) <=? 1)%nat eqn:E; [exact Hw|].
  apply Nat.leb_gt in E. app_proj.
  destruct (last_removelast_is_Some (history st) E) as [prev Hprev].
  rewrite Hprev. apply wf_update, wf_set_widgets, wf_show_adjustments.
  destruct Hw as [(ty & T & C & HF & Hi) Hn].
  pose proof (Forall_removelast _ _ HF) as HF'.
  pose proof (Forall_last _ _ _ HF' Hprev) as Cp.
  assert (1 <= length (removelast (history st)))%nat as Hn'
    by (rewrite length_removelast; lia).
  destruct (active_view st) as [[|]|];
    (split; [|exact Hn']; exists ty;
     split; [exact T|]; split; [exact Cp|]; split; [exact HF'|exact Hi]).
Qed.

Lemma wf__load_dataset selection st :
  wf st -> wf (state_of (_load_dataset selection st)).
Proof.
  intros Hi. unfold _load_dataset.
  destruct selection as [| |files]; [exact Hi | exact Hi |].
  pose proof
    (wf_load_slot files kv_lat _
       (wf_load_slot files drr_lat _
          (wf_load_slot files kv_ap _
             (wf_load_slot files drr_ap
                (set_original_images (all_slots None)
                   (set_images (all_slots None) st), 0) Hi)))) as Hl.
  destruct (load_slot files kv_lat _) as [st' loaded]. simpl in Hl.
  destruct (0 <? loaded); [|exact Hl].
  apply wf_update, wf_set_widgets, wf_set_initial_state.
  cbv beta delta [_reset_to_initial_values]. repeat wf_step.
Qed.

(** Every handler keeps the invariant. *)
Lemma wf_step_event ev st : wf st -> wf (step st ev).
Proof.
  intros Hi. unfold step.
  destruct ev; simpl handle;
    try (apply wf__load_dataset, Hi);
    try (apply wf__undo_last_action, Hi);
    try (apply wf__reset_to_default, Hi);
    cbv beta delta
      [_rotate_active _activate_drag _drag_kv _mouse_scroll _zoom _nudge_kv
       blend_row_Scale blend_row_Checkbutton
       _select_adjustment_image_from_menu _select_image_for_adjustment
       _adjust_image _reset_adjustments filter_menu _apply_selected_filter];
    repeat wf_step.
Qed.

Lemma wf_run evs st : wf st -> wf (run st evs).
Proof.
  revert st. induction evs as [|ev evs IH]; intros st Hi; [exact Hi|].
  apply IH, wf_step_event, Hi.
Qed.

Lemma wf_start : wf start.
Proof.
  unfold start, __init__. apply wf_update, wf_store__save_state.
  unfold _save_initial_state, _init_state.
  apply wf_store_init; reflexivity.
Qed.

End Store_invariant.

(** ** Saving copies *)

(** The references of an entry are not in use in the store. *)
Definition entry_fresh (h : Heap) (e : Entry) : Prop :=
  kv_cells h !! e_kv_offsets e = None /\
  num_cells h !! e_rotations e = None /\
  num_cells h !! e_zoom_levels e = None /\
  pan_cells h !! e_pan_offsets e = None /\
  num_cells h !! at_brightness (e_adjustment_values e) = None /\
  num_cells h !! at_contrast (e_adjustment_values e) = None /\
  num_cells h !! at_sharpness (e_adjustment_values e) = None.

Lemma new_kv_fresh h d : kv_cells h !! (new_kv h d).2 = None.
Proof. apply (alloc_fresh (kv_cells h) d). Qed.
Lemma new_num_fresh h d : num_cells h !! (new_num h d).2 = None.
Proof. apply (alloc_fresh (num_cells h) d). Qed.
Lemma new_pan_fresh h d : pan_cells h !! (new_pan h d).2 = None.
Proof. apply (alloc_fresh (pan_cells h) d). Qed.

Lemma lookup_le_None {A} (m m' : gmap nat A) (l : ref) :
  m ⊆ m' -> m' !! l = None -> m !! l = None.
Proof. intros Hs Hn. exact (lookup_weaken_None _ _ _ Hn Hs). Qed.

(** Names the next allocation of a chain, with what is known of it. *)
Ltac copy_step hn ln :=
  lazymatch goal with
  | |- context [new_kv ?h ?d] =>
      let E := fresh "E" in
      let L := fresh "L" in
      let N := fresh "N" in
      pose proof (new_kv_le h d) as E;
      pose proof (new_kv_lookup h d) as L;
      pose proof (new_kv_fresh h d) as N;
      destruct (new_kv h d) as [hn ln]; simpl in E, L, N
  | |- context [new_num ?h ?d] =>
      let E := fresh "E" in
      let L := fresh "L" in
      let N := fresh "N" in
      pose proof (new_num_le h d) as E;
      pose proof (new_num_lookup h d) as L;
      pose proof (new_num_fresh h d) as N;
      destruct (new_num h d) as [hn ln]; simpl in E, L, N
  | |- context [new_pan ?h ?d] =>
      let E := fresh "E" in
      let L := fresh "L" in
      let N := fresh "N" in
      pose proof (new_pan_le h d) as E;
      pose proof (new_pan_lookup h d) as L;
      pose proof (new_pan_fresh h d) as N;
      destruct (new_pan h d) as [hn ln]; simpl in E, L, N
  end.

(** The entry [_save_state] builds holds the current values in
    dictionaries of its own: objects that did not exist before. *)
Lemma snapshot_copy st :
  entry_allocated (heap st) (current_entry st) ->
  heap_le (heap st) (snapshot st).1 /\
  entry_value (snapshot st).1 (snapshot st).2 = current_value st /\
  entry_allocated (snapshot st).1 (snapshot st).2 /\
  entry_fresh (heap st) (snapshot st).2.
Proof.
  intros (A1 & A2 & A3 & A4 & A5 & A6 & A7).
  simpl in A1, A2, A3, A4, A5, A6, A7.
  unfold snapshot, copy_kv, copy_num, copy_pan.
  set (h0 := heap st) in *.
  copy_step h1 kv. copy_step h2 rot. copy_step h3 zoom. copy_step h4 pan.
  copy_step h5 b. copy_step h6 c. copy_step h7 sh.
  cbn [fst snd].
  assert (heap_le h0 h2) as G2 by eauto using heap_le_trans.
  assert (heap_le h0 h3) as G3 by eauto using heap_le_trans.
  assert (heap_le h0 h4) as G4 by eauto using heap_le_trans.
  assert (heap_le h0 h5) as G5 by eauto using heap_le_trans.
  assert (heap_le h0 h6) as G6 by eauto using heap_le_trans.
  assert (heap_le h0 h7) as G7 by eauto using heap_le_trans.
  assert (heap_le h6 h7) as F6 by assumption.
  assert (heap_le h5 h7) as F5 by eauto using heap_le_trans.
  assert (heap_le h4 h7) as F4 by eauto using heap_le_trans.
  assert (heap_le h3 h7) as F3 by eauto using heap_le_trans.
  assert (heap_le h2 h7) as F2 by eauto using heap_le_trans.
  assert (heap_le h1 h7) as F1 by eauto using heap_le_trans.
  split; [exact G7|]. split; [|split].
  - unfold entry_value, current_value. cbn [e_kv_offsets e_rotations
      e_zoom_levels e_pan_offsets e_adjustment_values e_alpha
      e_use_color_overlay at_brightness at_contrast at_sharpness].
    rewrite (read_kv_le h1 h7 _ _ F1 L), (read_num_le h2 h7 _ _ F2 L0),
      (read_num_le h3 h7 _ _ F3 L1), (read_pan_le h4 h7 _ _ F4 L2),
      (read_num_le h5 h7 _ _ F5 L3), (read_num_le h6 h7 _ _ F6 L4).
    assert (read_num h7 sh = read_num h6 (at_sharpness (adjustment_values st)))
      as -> by (unfold read_num at 1; rewrite L5; reflexivity).
    rewrite (read_num_grow h0 h1 _ E A2), (read_num_grow h0 h2 _ G2 A3),
      (read_pan_grow h0 h3 _ G3 A4), (read_num_grow h0 h4 _ G4 A5),
      (read_num_grow h0 h5 _ G5 A6), (read_num_grow h0 h6 _ G6 A7).
    reflexivity.
  - repeat split; simpl.
    + destruct F1 as (Hk & _ & _). eapply lookup_weaken_is_Some; [eauto|exact Hk].
    + destruct F2 as (_ & Hn & _). eapply lookup_weaken_is_Some; [eauto|exact Hn].
    + destruct F3 as (_ & Hn & _). eapply lookup_weaken_is_Some; [eauto|exact Hn].
    + destruct F4 as (_ & _ & Hp). eapply lookup_weaken_is_Some; [eauto|exact Hp].
    + destruct F5 as (_ & Hn & _). eapply lookup_weaken_is_Some; [eauto|exact Hn].
    + destruct F6 as (_ & Hn & _). eapply lookup_weaken_is_Some; [eauto|exact Hn].
    + eauto.
  - repeat split; simpl.
    + exact N.
    + destruct E as (_ & Hn & _). exact (lookup_le_None _ _ _ Hn N0).
    + destruct G2 as (_ & Hn & _). exact (lookup_le_None _ _ _ Hn N1).
    + destruct G3 as (_ & _ & Hp). exact (lookup_le_None _ _ _ Hp N2).
    + destruct G4 as (_ & Hn & _). exact (lookup_le_None _ _ _ Hn N3).
    + destruct G5 as (_ & Hn & _). exact (lookup_le_None _ _ _ Hn N4).
    + destruct G6 as (_ & Hn & _). exact (lookup_le_None _ _ _ Hn N5).
Qed.

Lemma entry_allocated_le h h' e :
  heap_le h h' -> entry_allocated h e -> entry_allocated h' e.
Proof.
  intros (Hk & Hn & Hp) (A1 & A2 & A3 & A4 & A5 & A6 & A7).
  repeat split; eauto using lookup_weaken_is_Some.
Qed.

Lemma is_Some_insert {A} (m : gmap nat A) (l l' : ref) x :
  is_Some (m !! l') -> is_Some (<[l:=x]> m !! l').
Proof.
  intros Hs. apply lookup_insert_is_Some.
  destruct (decide (l = l')); [left; assumption|right; split; assumption].
Qed.

Lemma entry_allocated_write_kv h (l : ref) d e :
  entry_allocated h e -> entry_allocated (write_kv h l d) e.
Proof.
  intros (A1 & A2 & A3 & A4 & A5 & A6 & A7).
  repeat split; try assumption. apply is_Some_insert, A1.
Qed.

Lemma entry_allocated_write_num h (l : ref) d e :
  entry_allocated h e -> entry_allocated (write_num h l d) e.
Proof.
  intros (A1 & A2 & A3 & A4 & A5 & A6 & A7).
  repeat split; try assumption; apply is_Some_insert; assumption.
Qed.

Lemma entry_allocated_write_pan h (l : ref) d e :
  entry_allocated h e -> entry_allocated (write_pan h l d) e.
Proof.
  intros (A1 & A2 & A3 & A4 & A5 & A6 & A7).
  repeat split; try assumption. apply is_Some_insert, A4.
Qed.

Lemma read_kv_write_kv_eq h (l : ref) d : read_kv (write_kv h l d) l = d.
Proof. unfold read_kv, write_kv. simpl. rewrite lookup_insert_eq. reflexivity. Qed.

Lemma read_kv_write_kv_ne h (l l' : ref) d :
  l <> l' -> read_kv (write_kv h l d) l' = read_kv h l'.
Proof.
  intros Hne. unfold read_kv, write_kv. simpl.
  rewrite lookup_insert_ne by exact Hne. reflexivity.
Qed.

Lemma read_num_write_num_ne h (l l' : ref) d :
  l <> l' -> read_num (write_num h l d) l' = read_num h l'.
Proof.
  intros Hne. unfold read_num, write_num. simpl.
  rewrite lookup_insert_ne by exact Hne. reflexivity.
Qed.

Lemma read_pan_write_pan_ne h (l l' : ref) d :
  l <> l' -> read_pan (write_pan h l d) l' = read_pan h l'.
Proof.
  intros Hne. unfold read_pan, write_pan. simpl.
  rewrite lookup_insert_ne by exact Hne. reflexivity.
Qed.

Lemma last_history_append h e : last (history_append h e) = Some e.
Proof.
  unfold history_append. destruct (20 <? length (h ++ [e]))%nat eqn:E.
  - apply Nat.ltb_lt in E. destruct h as [|x h]; [simpl in E; lia|].
    simpl. apply last_snoc.
  - apply last_snoc.
Qed.

(** In a state of the open window every dictionary in use is an object of
    the store. *)
Lemma wf_allocated st :
  wf st ->
  entry_allocated (heap st) (current_entry st) /\
  Forall (entry_allocated (heap st)) (history st).
Proof.
  intros [(ty & T & C & HF & _) _].
  assert (forall e, entry_typed ty (heap st) e -> entry_allocated (heap st) e)
    as Ha.
  { intros e (A1 & A2 & A3 & A4 & A5 & A6 & A7).
    repeat split; eauto using typed_allocated. }
  split; [exact (Ha _ C)|]. eapply Forall_impl; [exact HF|exact Ha].
Qed.

(** The current values read the same in a larger store. *)
Lemma current_value_grow st h :
  heap_le (heap st) h -> entry_allocated (heap st) (current_entry st) ->
  current_value (set_heap h st) = current_value st.
Proof. intros Hle Ha. exact (entry_value_grow _ _ _ Hle Ha). Qed.

Section Reachable.
Context `{Pillow}.

(** What [_save_state] followed by [_update_match_overlay] leaves: the
    state with one more entry, a larger store and new pictures. *)
Lemma saved_and_drawn s :
  entry_allocated (heap s) (current_entry s) ->
  exists tk h e,
    state_of (_update_match_overlay (_save_state s)) =
    set_tk_images tk
      (set_history (history_append (history s) e) (set_heap h s)) /\
    heap_le (heap s) h /\ entry_value h e = current_value s /\
    entry_allocated h e /\ entry_fresh (heap s) e.
Proof.
  intros Ha.
  destruct (_update_match_overlay_display (_save_state s)) as [tk ->].
  pose proof (snapshot_copy s Ha) as (E & V & A & F).
  unfold _save_state. destruct (snapshot s) as [h e]. simpl in E, V, A, F.
  exists tk, h, e. auto.
Qed.

(** X1.  Zoom stays within the bounds.  In every state the window can reach,
    whatever the gestures and their order, the zoom level of each view is
    between 0.2 and 5.0. *)
Theorem zoom_stays_in_range (evs : list Event) (view : View) :
  (0.2 <=? zoom_of (run start evs) view)%float = true /\
  (zoom_of (run start evs) view <=? 5.0)%float = true.
Proof.
  destruct (wf_run evs start wf_start) as [(ty & T & (_ & _ & Hz & _) & _) _].
  pose proof (typed_read ty _ _ _ T Hz) as [Ha Hl].
  destruct view; assumption.
Qed.

(** X2.  The lateral rotation is never written.  In every state the window can
    reach, [rotations['lat']] is the zero it was created with. *)
Theorem lat_rotation_stays_zero (evs : list Event) :
  rotation_of (run start evs) lat = 0%float.
Proof.
  destruct (wf_run evs start wf_start) as [(ty & T & (_ & Hr & _) & _) _].
  exact (typed_read ty _ _ _ T Hr).
Qed.

(** X3.  The history is never empty and the initial state never changes.  In
    every state the window can reach the history holds at least one entry (undo
    stops at one, a save drops the oldest of twenty-one), and the saved initial
    state is the default one, whatever was loaded. *)
Theorem history_keeps_an_entry (evs : list Event) :
  let st := run start evs in
  (1 <= length (history st))%nat /\
  is_Some (last (history st)) /\
  initial_state st = Some default_values.
Proof.
  intros st. destruct (wf_run evs start wf_start) as [(ty & _ & _ & _ & Hi) Hn].
  fold st in Hi, Hn. split; [exact Hn|]. split; [|exact Hi].
  destruct (history st) as [|e l] using rev_ind; [simpl in Hn; lia|].
  rewrite last_snoc. eauto.
Qed.

End Reachable.

(** ** What a save, a nudge and a drag do *)

(** X4.  A save pushes a copy.  When every current dictionary is an object of
    the store, [_save_state] appends one entry (dropping the oldest past
    twenty), the entry records the current values, the current values stay, and
    the dictionaries of the entry are new objects: a later update in place of a
    current dictionary does not reach the entry. *)
Theorem save_state_pushes_copy (st : App) :
  entry_allocated (heap st) (current_entry st) ->
  let st' := _save_state st in
  exists e : Entry,
    history st' = history_append (history st) e /\
    last (history st') = Some e /\
    entry_value (heap st') e = current_value st /\
    current_value st' = current_value st /\
    entry_fresh (heap st) e /\
    (forall d,
       entry_value (write_kv (heap st') (kv_offsets st') d) e =
       entry_value (heap st') e) /\
    (forall d,
       entry_value (write_pan (heap st') (pan_offsets st') d) e =
       entry_value (heap st') e) /\
    (forall (l : ref) d,
       is_Some (num_cells (heap st) !! l) ->
       entry_value (write_num (heap st') l d) e = entry_value (heap st') e).
Proof.
  intros Ha st'. subst st'.
  pose proof (snapshot_copy st Ha) as (E & V & A & F).
  unfold _save_state. destruct (snapshot st) as [h e]. simpl in E, V, A, F.
  exists e. app_proj.
  destruct F as (F1 & F2 & F3 & F4 & F5 & F6 & F7).
  destruct Ha as (A1 & A2 & A3 & A4 & A5 & A6 & A7).
  simpl in A1, A4.
  split; [reflexivity|]. split; [apply last_history_append|].
  split; [exact V|].
  split; [exact (entry_value_grow _ _ (current_entry st) E
                   (conj A1 (conj A2 (conj A3 (conj A4 (conj A5 (conj A6 A7)))))))|].
  split; [repeat split; assumption|].
  split; [|split].
  - intros d. unfold entry_value.
    rewrite read_kv_write_kv_ne; [reflexivity|].
    intros Heq. rewrite Heq, F1 in A1. destruct A1 as [? [=]].
  - intros d. unfold entry_value.
    rewrite read_pan_write_pan_ne; [reflexivity|].
    intros Heq. rewrite Heq, F4 in A4. destruct A4 as [? [=]].
  - intros l d Hl. unfold entry_value.
    rewrite !read_num_write_num_ne; [reflexivity| | | | |];
      intros Heq; rewrite Heq in Hl;
      match goal with
      | Hn : ?x = None, Hs : is_Some ?x |- _ =>
          rewrite Hn in Hs; destruct Hs as [? [=]]
      end.
Qed.

Lemma add_x_0 d view : add_x d view 0 = d.
Proof. destruct d, view; unfold add_x; simpl; f_equal; lia. Qed.

Lemma add_y_both_0 d : add_y_both d 0 = d.
Proof. destruct d; unfold add_y_both; simpl; f_equal; lia. Qed.

Lemma add_x_add_x d view a b : add_x (add_x d view a) view b = add_x d view (a + b).
Proof. destruct d, view; unfold add_x; simpl; f_equal; lia. Qed.

Lemma add_y_both_add_y_both d a b :
  add_y_both (add_y_both d a) b = add_y_both d (a + b).
Proof. destruct d; unfold add_y_both; simpl; f_equal; lia. Qed.

Lemma add_x_add_y_both d view a b :
  add_x (add_y_both d a) view b = add_y_both (add_x d view b) a.
Proof. destruct d, view; reflexivity. Qed.

(** [st'] is [st] with [d] written to the current offsets dictionary (and
    perhaps another drag anchor). *)
Definition offsets_written (st st' : App) (d : KvOffsets) : Prop :=
  kv_offsets st' = kv_offsets st /\
  heap st' = write_kv (heap st) (kv_offsets st) d /\
  entry_allocated (heap st') (current_entry st') /\
  history st' = history st /\ images st' = images st.

Lemma write_kv_same h (l : ref) :
  is_Some (kv_cells h !! l) -> write_kv h l (read_kv h l) = h.
Proof.
  intros [d Hd]. unfold write_kv, read_kv. rewrite Hd. simpl.
  rewrite (insert_id _ _ _ Hd). destruct h; reflexivity.
Qed.

Lemma write_kv_write_kv h (l : ref) d d' :
  write_kv (write_kv h l d) l d' = write_kv h l d'.
Proof. unfold write_kv. simpl. rewrite insert_insert_eq. reflexivity. Qed.

Lemma offsets_written_refl st :
  entry_allocated (heap st) (current_entry st) ->
  offsets_written st st (kv_offset_of st).
Proof.
  intros Ha. split; [reflexivity|]. split; [|split; [exact Ha|split; reflexivity]].
  symmetry. apply write_kv_same. exact (proj1 Ha).
Qed.

Lemma offsets_written_read st st' d :
  offsets_written st st' d -> read_kv (heap st') (kv_offsets st) = d.
Proof. intros (_ & -> & _). apply read_kv_write_kv_eq. Qed.

Lemma offsets_written_write st st1 d d' :
  offsets_written st st1 d ->
  offsets_written st
    (set_heap (write_kv (heap st1) (kv_offsets st1) d') st1) d'.
Proof.
  intros (Hk & Hr & Ha & Hh & Hi). unfold offsets_written. app_proj.
  split; [exact Hk|]. split; [rewrite Hk, Hr; apply write_kv_write_kv|].
  split; [apply entry_allocated_write_kv, Ha|]. split; assumption.
Qed.

Section Moves.
Context `{Pillow}.

(** After the offsets are written, a handler saves and redraws: the
    offsets are those written and the entry pushed records them. *)
Lemma offsets_saved st s d :
  offsets_written st s d ->
  let st' := state_of (_update_match_overlay (_save_state s)) in
  kv_offset_of st' = d /\ images st' = images st /\
  drag_start st' = drag_start s /\
  entry_allocated (heap st') (current_entry st') /\
  kv_offsets st' = kv_offsets st /\
  heap_le (write_kv (heap st) (kv_offsets st) d) (heap st') /\
  exists e : Entry,
    history st' = history_append (history st) e /\
    entry_value (heap st') e = current_value st'.
Proof.
  intros W. pose proof (offsets_written_read st s d W) as Hr.
  destruct W as (Hk & Hw & Ha & Hh & Hi). cbv zeta.
  destruct (saved_and_drawn s Ha) as (tk & h & e & -> & E & V & A & F).
  unfold kv_offset_of. app_proj.
  pose proof Ha as (A1 & _). simpl in A1.
  split; [rewrite (read_kv_grow _ _ _ E A1), Hk; exact Hr|].
  split; [exact Hi|]. split; [reflexivity|].
  split; [exact (entry_allocated_le _ _ _ E Ha)|].
  split; [exact Hk|]. split; [rewrite <- Hw; exact E|].
  exists e. rewrite Hh. split; [reflexivity|].
  rewrite V. symmetry. exact (current_value_grow s h E Ha).
Qed.

(** What [_nudge_kv] does in a state whose dictionaries are objects of the
    store. *)
Lemma _nudge_kv_spec (dx dy : Z) (st : App) :
  entry_allocated (heap st) (current_entry st) ->
  let d := kv_offset_of st in
  let st' := state_of (_nudge_kv dx dy st) in
  kv_offset_of st' =
    add_y_both
      (match active_view st with
       | Some view => add_x d view dx
       | None => d
       end) dy /\
  images st' = images st /\
  kv_offsets st' = kv_offsets st /\
  heap_le (write_kv (heap st) (kv_offsets st) (kv_offset_of st')) (heap st') /\
  exists e : Entry,
    history st' = history_append (history st) e /\
    entry_value (heap st') e = current_value st'.
Proof.
  intros Ha d st'. subst st'.
  pose proof (offsets_written_refl st Ha) as W0. fold d in W0.
  cbv beta delta [_nudge_kv].
  set (s1 := match active_view st with
             | Some view => _
             | None => st
             end).
  assert (offsets_written st s1
            (match active_view st with
             | Some view => add_x d view dx
             | None => d
             end)) as W1.
  { subst s1. destruct (active_view st) as [view|]; [|exact W0].
    exact (offsets_written_write st st d _ W0). }
  clearbody s1. cbv zeta.
  set (s2 := if negb (dy =? 0) then _ else s1).
  assert (offsets_written st s2
            (add_y_both
               (match active_view st with
                | Some view => add_x d view dx
                | None => d
                end) dy)) as W2.
  { subst s2. destruct (Z.eqb_spec dy 0) as [->|Hne]; simpl negb; cbv iota.
    - rewrite add_y_both_0. exact W1.
    - pose proof (offsets_written_read _ _ _ W1) as Hr.
      pose proof W1 as (Hk & _). rewrite Hk, Hr.
      rewrite <- Hk. apply (offsets_written_write st s1 _ _ W1). }
  clearbody s2.
  destruct (offsets_saved st s2 _ W2) as (R1 & R2 & _ & _ & R3 & R4 & R5).
  rewrite R1. split; [reflexivity|]. split; [exact R2|]. split; [exact R3|].
  split; [exact R4|exact R5].
Qed.

(** One motion event of a drag. *)
Lemma _drag_kv_spec x y view st x0 y0 img :
  drag_start st = Some (x0, y0) ->
  gets (images st) (kv_ view) = Some img ->
  entry_allocated (heap st) (current_entry st) ->
  let st' := state_of (_drag_kv x y view st) in
  kv_offset_of st' =
    add_y_both (add_x (kv_offset_of st) view (x - x0)) (y - y0) /\
  images st' = images st /\
  drag_start st' = Some (x, y) /\
  entry_allocated (heap st') (current_entry st') /\
  kv_offsets st' = kv_offsets st /\
  exists e : Entry,
    history st' = history_append (history st) e /\
    entry_value (heap st') e = current_value st'.
Proof.
  intros Hd Hi Ha st'. subst st'.
  pose proof (offsets_written_refl st Ha) as W0.
  cbv beta delta [_drag_kv]. rewrite Hd, Hi. cbv beta iota.
  set (d := kv_offset_of st) in *.
  set (s0 := set_drag_start (Some (x, y)) st).
  assert (offsets_written st s0 d) as V0 by exact W0.
  assert (drag_start s0 = Some (x, y)) as D0 by reflexivity.
  clearbody s0. cbv zeta.
  set (s1 := if negb (x - x0 =? 0) then _ else s0).
  assert (offsets_written st s1 (add_x d view (x - x0)) /\
          drag_start s1 = Some (x, y)) as [V1 D1].
  { subst s1. destruct (Z.eqb_spec (x - x0) 0) as [->|Hne]; simpl negb; cbv iota.
    - rewrite add_x_0. split; assumption.
    - split; [|exact D0]. pose proof (offsets_written_read _ _ _ V0) as Hr.
      pose proof V0 as (Hk & _). rewrite Hk, Hr.
      rewrite <- Hk. apply (offsets_written_write st s0 _ _ V0). }
  clearbody s1.
  set (s2 := if negb (y - y0 =? 0) then _ else s1).
  assert (offsets_written st s2
            (add_y_both (add_x d view (x - x0)) (y - y0)) /\
          drag_start s2 = Some (x, y)) as [V2 D2].
  { subst s2. destruct (Z.eqb_spec (y - y0) 0) as [->|Hne]; simpl negb; cbv iota.
    - rewrite add_y_both_0. split; assumption.
    - split; [|exact D1]. pose proof (offsets_written_read _ _ _ V1) as Hr.
      pose proof V1 as (Hk & _). rewrite Hk, Hr.
      rewrite <- Hk. apply (offsets_written_write st s1 _ _ V1). }
  clearbody s2.
  destruct (offsets_saved st s2 _ V2) as (R1 & R2 & R3 & R4 & R5 & _ & R6).
  split; [exact R1|]. split; [exact R2|]. split; [rewrite R3; exact D2|].
  split; [exact R4|]. split; [exact R5|exact R6].
Qed.

(** The motion events of a drag, in order. *)
Definition drag_through (view : View) (st : App) (pts : list (Z * Z)) : App :=
  fold_left (fun s p => state_of (_drag_kv p.1 p.2 view s)) pts st.

Lemma drag_through_spec view img pts : forall st a b,
  drag_start st = Some (a, b) ->
  gets (images st) (kv_ view) = Some img ->
  entry_allocated (heap st) (current_entry st) ->
  let stn := drag_through view st pts in
  let p := default (a, b) (last pts) in
  kv_offset_of stn =
    add_y_both (add_x (kv_offset_of st) view (p.1 - a)) (p.2 - b) /\
  drag_start stn = Some p /\
  exists es : list Entry,
    length es = length pts /\
    history stn = fold_left history_append es (history st).
Proof.
  induction pts as [|[x y] pts IH]; intros st a b Hd Hi Ha; cbv zeta.
  - simpl. rewrite !Z.sub_diag, add_x_0, add_y_both_0.
    split; [reflexivity|]. split; [exact Hd|]. exists []. split; reflexivity.
  - change (drag_through view st ((x, y) :: pts))
      with (drag_through view (state_of (_drag_kv x y view st)) pts).
    destruct (_drag_kv_spec x y view st a b img Hd Hi Ha)
      as (R1 & R2 & R3 & R4 & R5 & e & R6 & _).
    cbn [fst snd] in *.
    set (s1 := state_of (_drag_kv x y view st)) in *. clearbody s1.
    rewrite <- R2 in Hi.
    destruct (IH s1 x y R3 Hi R4) as (I1 & I2 & es & I3 & I4).
    assert (default (a, b) (last ((x, y) :: pts)) = default (x, y) (last pts))
      as ->.
    { destruct pts as [|q pts]; [reflexivity|]. rewrite last_cons_cons.
      destruct (last (q :: pts)) eqn:E; [reflexivity|].
      apply last_None in E. discriminate. }
    split; [|split; [exact I2|]].
    + rewrite I1, R1. rewrite add_x_add_y_both, add_x_add_x.
      rewrite add_y_both_add_y_both. f_equal; [f_equal|]; lia.
    + exists (e :: es). split; [simpl; rewrite I3; reflexivity|].
      rewrite I4, R6. reflexivity.
Qed.

(** A click and the motion events after it. *)
Lemma drag_from_click (view : View) (st : App) (img : RGBImage)
    (x0 y0 : Z) (pts : list (Z * Z)) :
  gets (images st) (kv_ view) = Some img ->
  entry_allocated (heap st) (current_entry st) ->
  let st1 := state_of (_activate_drag x0 y0 view st) in
  let stn := drag_through view st1 pts in
  let p := default (x0, y0) (last pts) in
  active_view st1 = Some view /\
  history st1 = history st /\
  kv_offset_of stn =
    add_y_both (add_x (kv_offset_of st) view (p.1 - x0)) (p.2 - y0) /\
  drag_start stn = Some p /\
  exists es : list Entry,
    length es = length pts /\
    history stn = fold_left history_append es (history st).
Proof.
  intros Hi Ha st1 stn p.
  assert (drag_start st1 = Some (x0, y0) /\ images st1 = images st /\
          heap st1 = heap st /\ current_entry st1 = current_entry st /\
          history st1 = history st /\ active_view st1 = Some view)
    as (D1 & I1 & H1 & C1 & Hh & Av).
  { subst st1. unfold _activate_drag. destruct view; repeat split. }
  clearbody st1.
  assert (kv_offset_of st1 = kv_offset_of st) as K1.
  { unfold kv_offset_of. rewrite H1.
    change (kv_offsets st1) with (e_kv_offsets (current_entry st1)).
    rewrite C1. reflexivity. }
  rewrite <- I1 in Hi. rewrite <- H1, <- C1 in Ha.
  destruct (drag_through_spec view img pts st1 x0 y0 D1 Hi Ha)
    as (R1 & R2 & R3).
  split; [exact Av|]. split; [exact Hh|].
  rewrite <- K1, <- Hh. split; [exact R1|]. split; [exact R2|exact R3].
Qed.

End Moves.

(** ** Rotation *)

(** One row of the table of the wheel: from [k] degrees a tick up gives
    [(k + 1) % 360] and a tick down [(k - 1) % 360]. *)
Definition wheel_row (k : nat) : bool :=
  Leibniz.eqb
    (py_float_mod (float_of_int (Z.of_nat k) + 1) 360)
    (float_of_int ((Z.of_nat k + 1) mod 360)) &&
  Leibniz.eqb
    (py_float_mod (float_of_int (Z.of_nat k) + -1) 360)
    (float_of_int ((Z.of_nat k - 1) mod 360)).

Lemma wheel_table : forallb wheel_row (seq 0 360) = true.
Proof. vm_compute. reflexivity. Qed.

Lemma wheel_row_at (k : Z) (up : bool) :
  0 <= k < 360 ->
  py_float_mod (float_of_int k + (if up then 1 else -1)) 360 =
  float_of_int ((k + (if up then 1 else -1)) mod 360).
Proof.
  intros Hk. pose proof wheel_table as Ht.
  rewrite forallb_forall in Ht.
  assert (In (Z.to_nat k) (seq 0 360)) as Hin by (apply in_seq; lia).
  specialize (Ht _ Hin). unfold wheel_row in Ht.
  rewrite Z2Nat.id in Ht by lia.
  apply andb_prop in Ht as [Hu Hd].
  apply Leibniz.eqb_spec in Hu, Hd.
  destruct up; [exact Hu|exact Hd].
Qed.

(** One row of the table of the rotation scale: set to [k] degrees it
    holds [k] up to 180, and 180 beyond. *)
Definition clip_row (k : nat) : bool :=
  Leibniz.eqb
    (scale_clip (-180) 180 (float_of_int (Z.of_nat k)))
    (float_of_int (Z.min (Z.of_nat k) 180)).

Lemma clip_table : forallb clip_row (seq 0 360) = true.
Proof. vm_compute. reflexivity. Qed.

Lemma clip_row_at (k : Z) :
  0 <= k < 360 ->
  scale_clip (-180) 180 (float_of_int k) = float_of_int (Z.min k 180).
Proof.
  intros Hk. pose proof clip_table as Ht.
  rewrite forallb_forall in Ht.
  assert (In (Z.to_nat k) (seq 0 360)) as Hin by (apply in_seq; lia).
  specialize (Ht _ Hin). unfold clip_row in Ht.
  rewrite Z2Nat.id in Ht by lia.
  apply Leibniz.eqb_spec in Ht. exact Ht.
Qed.

Section Rotation.
Context `{Pillow}.

(** What the wheel over the AP canvas leaves on the rotation widgets. *)
Lemma _mouse_scroll_shown e st :
  let st' := state_of (_mouse_scroll e ap st) in
  let a :=
    py_float_mod
      (rotation_of st ap + (if (0 <? delta e)%Z then 1 else -1))%float 360 in
  rotation_label (widgets st') = a /\
  rotation_scale (widgets st') = scale_clip (-180) 180 a /\
  _ignore_rotation_callback st' = false.
Proof.
  cbv zeta. unfold _mouse_scroll.
  match goal with
  | |- context [_update_match_overlay ?s] =>
      destruct (_update_match_overlay_display s) as [tk ->]
  end.
  match goal with
  | |- context [_save_state ?s] =>
      destruct (_save_state_spec s) as (h & en & -> & _)
  end.
  app_proj. repeat split.
Qed.

(** X5.  The wheel turns by whole degrees and wraps at 360.  From a whole
    number of degrees [k] in [[0, 360)], a wheel tick over the AP canvas
    stores [k' = (k + 1) % 360] (tick up) or [k' = (k - 1) % 360] (tick
    down): 359 is followed by 0 and 0 is preceded by 359.  The label shows
    [k'].  The rotation scale, whose range ends at 180, holds [k'] up to
    180 and 180 beyond: between 181 and 359 the scale and the stored angle
    differ.  The guard flag is released. *)
Theorem wheel_wraps_at_360 (e : WheelEvent) (st : App) (k : Z) :
  0 <= k < 360 ->
  rotation_of st ap = float_of_int k ->
  let st' := state_of (_mouse_scroll e ap st) in
  let k' := (k + (if 0 <? delta e then 1 else -1)) mod 360 in
  rotation_of st' ap = float_of_int k' /\
  rotation_label (widgets st') = float_of_int k' /\
  rotation_scale (widgets st') = float_of_int (Z.min k' 180) /\
  _ignore_rotation_callback st' = false.
Proof.
  intros Hk Hr st' k'.
  pose proof (_mouse_scroll_ap e st) as [Ha _].
  pose proof (_mouse_scroll_shown e st) as (Hl & Hs & Hf).
  cbv zeta in Ha, Hl, Hs, Hf. fold st' in Ha, Hl, Hs, Hf.
  rewrite Hr in Ha, Hl, Hs.
  assert (py_float_mod
            (float_of_int k + (if (0 <? delta e)%Z then 1 else -1))%float 360 =
          float_of_int k') as Hv.
  { unfold k'. rewrite <- (wheel_row_at k (0 <? delta e) Hk).
    destruct (0 <? delta e); reflexivity. }
  rewrite Hv in Ha, Hl, Hs.
  assert (0 <= k' < 360) as Hk' by (apply Z.mod_pos_bound; lia).
  rewrite (clip_row_at k' Hk') in Hs.
  split; [exact Ha|]. split; [exact Hl|]. split; [exact Hs|exact Hf].
Qed.

(** What [_rotate_active] does in a state whose dictionaries are objects
    of the store. *)
Lemma _rotate_active_spec (val : float) (st : App) :
  entry_allocated (heap st) (current_entry st) ->
  (active_view st = Some ap -> _ignore_rotation_callback st = false ->
   exists st' : App,
     _rotate_active val st = Returned st' /\
     rotation_of st' ap = val /\
     rotation_of st' lat = rotation_of st lat /\
     rotation_label (widgets st') = val /\
     images st' = images st /\
     exists e : Entry,
       history st' = history_append (history st) e /\
       entry_value (heap st') e = current_value st') /\
  (active_view st <> Some ap \/ _ignore_rotation_callback st = true ->
   _rotate_active val st = Returned st).
Proof.
  intros Ha. split.
  - intros Hv Hf. unfold _rotate_active. rewrite Hv, Hf. simpl orb. cbv iota.
    set (s2 := set_widgets (set_rotation_label val) _).
    assert (entry_allocated (heap s2) (current_entry s2)) as Ha2
      by (apply entry_allocated_write_num, Ha).
    assert (rotations s2 = rotations st /\ images s2 = images st /\
            history s2 = history st /\ rotation_label (widgets s2) = val /\
            num_cells (heap s2) !! rotations st =
            Some (setv (read_num (heap st) (rotations st)) ap val))
      as (Hr & Hi & Hh & Hl & Hc).
    { subst s2. app_proj. repeat split. apply num_cells_write_num. }
    clearbody s2.
    destruct (saved_and_drawn s2 Ha2) as (tk & h & e & Eq & E & V & A & F).
    exists (state_of (_update_match_overlay (_save_state s2))).
    split; [destruct (_update_match_overlay (_save_state s2)); reflexivity|].
    rewrite Eq. unfold rotation_of. app_proj.
    rewrite Hr, Hi, Hh, Hl, (read_num_le (heap s2) h _ _ E Hc).
    split; [reflexivity|]. split; [reflexivity|]. split; [reflexivity|].
    split; [reflexivity|]. exists e. split; [reflexivity|].
    rewrite V. symmetry. exact (current_value_grow s2 h E Ha2).
  - intros [Hv|Hf]; unfold _rotate_active.
    + destruct (_ignore_rotation_callback st); [reflexivity|].
      destruct (active_view st) as [[|]|]; try reflexivity. congruence.
    + rewrite Hf. reflexivity.
Qed.

End Rotation.

(** ** Manual adjustments *)

Section Adjusting.
Context `{Pillow}.

(** What [_adjust_image] does in a state whose dictionaries are objects of
    the store. *)
Lemma _adjust_image_spec (adj_type : AdjType) (value : float) (st : App) :
  entry_allocated (heap st) (current_entry st) ->
  let target := current_adjustment_image st in
  let view := view_of_slot target in
  let st' := state_of (_adjust_image adj_type value st) in
  adjustment_of st' adj_type view = value /\
  original_images st' = original_images st /\
  (forall k : Slot, k <> target -> gets (images st') k = gets (images st) k) /\
  match gets (original_images st) target with
  | Some original =>
      gets (images st') target =
        Some (enhance_RGB Sharpness
                (enhance_RGB Contrast
                   (enhance_RGB Brightness original
                      (adjustment_of st' brightness view))
                   (adjustment_of st' contrast view))
                (adjustment_of st' sharpness view)) /\
      exists e : Entry,
        history st' = history_append (history st) e /\
        entry_value (heap st') e = current_value st'
  | None => images st' = images st /\ history st' = history st
  end.
Proof.
  intros Ha target view st'. subst st'.
  cbv beta delta [_adjust_image].
  set (s0 := set_widgets (set_slider_val adj_type value) st). cbv zeta.
  change (current_adjustment_image s0) with target.
  change (view_of_slot target) with view.
  change (adjustment_values s0) with (adjustment_values st).
  set (inner := geta (adjustment_values st) adj_type).
  set (s1 := set_heap (write_num (heap s0) inner _) s0).
  assert (entry_allocated (heap s1) (current_entry s1)) as Ha1
    by (apply entry_allocated_write_num, Ha).
  assert (current_adjustment_image s1 = target /\
          original_images s1 = original_images st /\
          images s1 = images st /\ history s1 = history st /\
          adjustment_values s1 = adjustment_values st /\
          adjustment_of s1 adj_type view = value)
    as (Hc & Ho & Hi & Hh & Hv & Hw).
  { subst s1 s0. unfold adjustment_of. app_proj. fold inner.
    rewrite read_num_write_num_eq, getv_setv_eq. repeat split. }
  clearbody s1. clear s0.
  rewrite Hc, Ho.
  destruct (gets (original_images st) target) as [original|] eqn:Eo.
  - set (s2 := set_images _ s1).
    assert (entry_allocated (heap s2) (current_entry s2)) as Ha2 by exact Ha1.
    assert (images s2 =
            sets (images st) target (Some (enhanced original view s1)) /\
            original_images s2 = original_images st /\
            history s2 = history st /\
            adjustment_values s2 = adjustment_values s1 /\
            heap s2 = heap s1) as (Hi2 & Ho2 & Hh2 & Hv2 & Hp2).
    { subst s2. app_proj. rewrite ?Hc, ?Hi. repeat split; assumption. }
    clearbody s2.
    destruct (saved_and_drawn s2 Ha2) as (tk & h & e & Eq & E & V & A & F).
    assert (forall k,
              getv (read_num h (geta (adjustment_values s2) k)) view =
              adjustment_of s1 k view) as Hread.
    { intros k. unfold adjustment_of. rewrite <- Hv2, <- Hp2.
      rewrite (read_num_grow (heap s2) h); [reflexivity|exact E|].
      destruct Ha2 as (_ & _ & _ & _ & B1 & B2 & B3).
      destruct k; assumption. }
    assert (forall X : App,
              (X = state_of (_update_match_overlay (_save_state s2)) \/
               exists f, X = set_widgets f
                         (state_of (_update_match_overlay (_save_state s2)))) ->
              adjustment_of X adj_type view = value /\
              original_images X = original_images st /\
              (forall k : Slot,
                 k <> target -> gets (images X) k = gets (images st) k) /\
              gets (images X) target =
                Some (enhance_RGB Sharpness
                        (enhance_RGB Contrast
                           (enhance_RGB Brightness original
                              (adjustment_of X brightness view))
                           (adjustment_of X contrast view))
                        (adjustment_of X sharpness view)) /\
              exists e : Entry,
                history X = history_append (history st) e /\
                entry_value (heap X) e = current_value X) as Hall.
    { intros X HX.
      assert (forall k, adjustment_of X k view = adjustment_of s1 k view /\
              original_images X = original_images st /\
              images X = images s2 /\
              history X = history_append (history st) e /\
              heap X = h /\ current_value X = current_value s2)
        as HXs.
      { intros k. rewrite <- Hh2, <- Ho2, <- (current_value_grow s2 h E Ha2).
        rewrite <- Hread.
        destruct HX as [->|[f ->]]; rewrite Eq; repeat split. }
      pose proof (HXs adj_type) as (X1 & X2 & X3 & X4 & X5 & X6).
      pose proof (HXs brightness) as (Xb & _).
      pose proof (HXs contrast) as (Xc & _).
      pose proof (HXs sharpness) as (Xs & _).
      rewrite X1, X2, X3, X4, X5, X6, Xb, Xc, Xs, Hi2.
      split; [exact Hw|]. split; [reflexivity|].
      split; [intros k Hk; apply gets_sets_ne, Hk|].
      split; [apply gets_sets_eq|]. exists e. split; [reflexivity|exact V]. }
    destruct (_update_match_overlay (_save_state s2)) as [s3|s3] eqn:Es;
      simpl state_of in *.
    + destruct (Hall (set_widgets (set_status_var (Adjusted adj_type value)) s3))
        as (R1 & R2 & R3 & R4 & R5); [right; eauto|].
      repeat (split; [assumption|]). assumption.
    + destruct (Hall s3) as (R1 & R2 & R3 & R4 & R5); [left; reflexivity|].
      repeat (split; [assumption|]). assumption.
  - simpl state_of. rewrite Hi, Hh, Ho. repeat split. exact Hw.
Qed.

End Adjusting.

(** ** Rasters *)

#[global] Instance View_eq_dec : EqDecision View.
Proof. solve_decision. Defined.
#[global] Instance Slot_eq_dec : EqDecision Slot.
Proof. solve_decision. Defined.

Lemma getv_setv_ne {A} (d : PerView A) view v x :
  v <> view -> getv (setv d view x) v = getv d v.
Proof. destruct view, v; intros Hne; try reflexivity; contradiction. Qed.

Lemma set_tk_images_same st : set_tk_images (tk_images st) st = st.
Proof. destruct st; reflexivity. Qed.

(** The rasters in the four slots are [I] (are [O], for the originals). *)
Definition images_are (I : Slots (option RGBImage)) (st : App) : Prop :=
  images st = I.
Definition originals_are (O : Slots (option RGBImage)) (st : App) : Prop :=
  original_images st = O.

Lemma images_are__save_state I st : images_are I st -> images_are I (_save_state st).
Proof. destruct (_save_state_spec st) as (h & e & -> & _). exact id. Qed.

Lemma originals_are__save_state O st :
  originals_are O st -> originals_are O (_save_state st).
Proof. destruct (_save_state_spec st) as (h & e & -> & _). exact id. Qed.

Lemma originals_are_install_fresh O s st :
  originals_are O st -> originals_are O (install_fresh s st).
Proof.
  destruct (install_fresh_spec s st) as (h & kv & rot & zoom & pan & adj & -> & _).
  exact id.
Qed.

(** The transform gestures and the blend controls. *)
Definition moves_only (ev : Event) : bool :=
  match ev with
  | Rotation_scale _ | Button_1 _ _ _ | B1_Motion _ _ _ | MouseWheel _ _
  | Control_MouseWheel _ _ | Key_Left | Key_Right | Key_Up | Key_Down
  | Blend_scale _ | Color_overlay _ | Filter_menu _ => true
  | _ => false
  end.

Definition is_load (ev : Event) : bool :=
  match ev with Dataset_menu _ => true | _ => false end.

Section Rasters.
Context `{Pillow}.

(** X6.  The six filters give grey images.  The output of every recipe of the
    filter menu has its three channels equal at every pixel: the recipes work
    on the luminance and convert back to RGB at the end. *)
Theorem filters_give_grey (name : FilterName)
    (f : RGBImage -> option RGBImage) (src out : RGBImage) :
  funcs name = Some f -> f src = Some out ->
  forall x y : Z, exists v : Z, getpixel out x y = (v, v, v).
Proof.
  intros Hf Hout x y.
  destruct name; simpl in Hf; try discriminate Hf;
    injection Hf as <-;
    try (injection Hout as <-; simpl; eauto; fail).
  unfold _f_soft_tissue in Hout.
  destruct (Image.point _ _) as [g|]; [|discriminate Hout].
  injection Hout as <-. simpl. eauto.
Qed.

Lemma render_view_kept view st :
  exists tk,
    state_of (render_view view st) = set_tk_images tk st /\
    thumbnails tk = thumbnails (tk_images st) /\
    forall v,
      v <> view \/
      gets (images st) (drr_ v) = None \/ gets (images st) (kv_ v) = None ->
      getv (match_canvas tk) v = getv (match_canvas (tk_images st)) v.
Proof.
  unfold render_view.
  destruct (gets (images st) (drr_ view)) as [drr|] eqn:Ed;
    [destruct (gets (images st) (kv_ view)) as [kv|] eqn:Ek;
     [destruct (composite view drr kv st) as [blended|]|]|];
    simpl state_of;
    try (exists (tk_images st); rewrite set_tk_images_same;
         repeat split; fail).
  eexists. split; [reflexivity|]. split; [reflexivity|].
  intros v [Hne|[Hn|Hn]]; simpl.
  - apply getv_setv_ne, Hne.
  - destruct (decide (v = view)) as [->|Hne]; [congruence|].
    apply getv_setv_ne, Hne.
  - destruct (decide (v = view)) as [->|Hne]; [congruence|].
    apply getv_setv_ne, Hne.
Qed.

Lemma render_thumbnail_kept key st :
  exists tk,
    render_thumbnail key st = set_tk_images tk st /\
    match_canvas tk = match_canvas (tk_images st) /\
    forall k,
      k <> key \/ gets (images st) k = None ->
      gets (thumbnails tk) k = gets (thumbnails (tk_images st)) k.
Proof.
  unfold render_thumbnail.
  destruct (gets (images st) key) as [img|] eqn:Ei.
  - eexists. split; [reflexivity|]. split; [reflexivity|].
    intros k [Hne|Hn]; simpl.
    + apply gets_sets_ne, Hne.
    + destruct (decide (k = key)) as [->|Hne]; [congruence|].
      apply gets_sets_ne, Hne.
  - exists (tk_images st). rewrite set_tk_images_same. repeat split.
Qed.

(** What is drawn, and what stays on the canvases. *)
Lemma _update_match_overlay_kept st :
  exists tk,
    state_of (_update_match_overlay st) = set_tk_images tk st /\
    (forall view,
       gets (images st) (drr_ view) = None \/
       gets (images st) (kv_ view) = None ->
       getv (match_canvas tk) view = getv (match_canvas (tk_images st)) view) /\
    (forall k,
       gets (images st) k = None ->
       gets (thumbnails tk) k = gets (thumbnails (tk_images st)) k).
Proof.
  unfold _update_match_overlay.
  destruct (render_view_kept ap st) as (tk1 & E1 & T1 & M1).
  destruct (render_view ap st) as [s1|s1]; simpl in E1; subst s1; simpl and_then;
    [|exists tk1; split; [reflexivity|]; split;
      [intros v Hv; apply M1; auto|intros k _; rewrite T1; reflexivity]].
  destruct (render_view_kept lat (set_tk_images tk1 st)) as (tk2 & E2 & T2 & M2).
  cbn [tk_images images set_tk_images] in E2, T2, M2.
  assert (forall view,
            gets (images st) (drr_ view) = None \/
            gets (images st) (kv_ view) = None ->
            getv (match_canvas tk2) view =
            getv (match_canvas (tk_images st)) view) as M12.
  { intros v Hv. rewrite M2 by auto. apply M1. auto. }
  destruct (render_view lat (set_tk_images tk1 st)) as [s2|s2];
    simpl in E2; subst s2; simpl and_then; simpl state_of;
    [|exists tk2; split; [reflexivity|]; split;
      [exact M12|intros k _; rewrite T2, T1; reflexivity]].
  change (set_tk_images tk2 (set_tk_images tk1 st)) with (set_tk_images tk2 st).
  destruct (render_thumbnail_kept drr_ap (set_tk_images tk2 st))
    as (tk3 & E3 & C3 & K3). rewrite E3. cbn [tk_images images set_tk_images] in C3, K3.
  change (set_tk_images tk3 (set_tk_images tk2 st)) with (set_tk_images tk3 st).
  destruct (render_thumbnail_kept kv_ap (set_tk_images tk3 st))
    as (tk4 & E4 & C4 & K4). rewrite E4. cbn [tk_images images set_tk_images] in C4, K4.
  change (set_tk_images tk4 (set_tk_images tk3 st)) with (set_tk_images tk4 st).
  destruct (render_thumbnail_kept drr_lat (set_tk_images tk4 st))
    as (tk5 & E5 & C5 & K5). rewrite E5. cbn [tk_images images set_tk_images] in C5, K5.
  change (set_tk_images tk5 (set_tk_images tk4 st)) with (set_tk_images tk5 st).
  destruct (render_thumbnail_kept kv_lat (set_tk_images tk5 st))
    as (tk6 & E6 & C6 & K6). rewrite E6. cbn [tk_images images set_tk_images] in C6, K6.
  change (set_tk_images tk6 (set_tk_images tk5 st)) with (set_tk_images tk6 st).
  exists tk6. split; [reflexivity|]. split.
  - intros v Hv. rewrite C6, C5, C4, C3. apply M12, Hv.
  - intros k Hk. rewrite K6, K5, K4, K3, T2, T1 by auto. reflexivity.
Qed.

(** X7.  The render path only draws, and leaves what it cannot draw.
    [_update_match_overlay] changes nothing but the pictures on the canvases,
    whether it returns or raises.  The match canvas of a view with a raster
    missing keeps the picture it showed, and so does the thumbnail of an empty
    slot: nothing is erased. *)
Theorem render_path_only_draws (st : App) :
  let st' := state_of (_update_match_overlay st) in
  st' = set_tk_images (tk_images st') st /\
  (forall view : View,
     gets (images st) (drr_ view) = None \/
     gets (images st) (kv_ view) = None ->
     getv (match_canvas (tk_images st')) view =
     getv (match_canvas (tk_images st)) view) /\
  (forall k : Slot,
     gets (images st) k = None ->
     gets (thumbnails (tk_images st')) k =
     gets (thumbnails (tk_images st)) k).
Proof.
  cbv zeta. destruct (_update_match_overlay_kept st) as (tk & -> & M & K).
  app_proj. split; [reflexivity|]. split; assumption.
Qed.

End Rasters.

Section Frames.
Context `{Pillow}.

Lemma images_are_update I st :
  images_are I st -> images_are I (state_of (_update_match_overlay st)).
Proof. destruct (_update_match_overlay_display st) as [tk ->]. exact id. Qed.

Lemma originals_are_update O st :
  originals_are O st -> originals_are O (state_of (_update_match_overlay st)).
Proof. destruct (_update_match_overlay_display st) as [tk ->]. exact id. Qed.

Ltac images_special :=
  lazymatch goal with
  | |- images_are _ (state_of (_update_match_overlay _)) =>
      apply images_are_update
  | |- images_are _ (_save_state _) => apply images_are__save_state
  | |- images_are ?I (?f _ ?s) =>
      unfold images_are; progress app_proj; change (images_are I s)
  end.

Ltac originals_special :=
  lazymatch goal with
  | |- originals_are _ (state_of (_update_match_overlay _)) =>
      apply originals_are_update
  | |- originals_are _ (_save_state _) => apply originals_are__save_state
  | |- originals_are _ (install_fresh _ _) =>
      apply originals_are_install_fresh
  | |- originals_are ?O (?f _ ?s) =>
      unfold originals_are; progress app_proj; change (originals_are O s)
  end.

Lemma originals_are_step O ev st :
  is_load ev = false -> originals_are O st -> originals_are O (step st ev).
Proof.
  intros Hev Hi. unfold step.
  destruct ev; try discriminate Hev; simpl handle;
    cbv beta delta
      [_rotate_active _activate_drag _drag_kv _mouse_scroll _zoom _nudge_kv
       _reset_to_default _undo_last_action blend_row_Scale
       blend_row_Checkbutton _select_adjustment_image_from_menu
       _select_image_for_adjustment _adjust_image _reset_adjustments
       filter_menu _apply_selected_filter];
    repeat inv_step (originals_are O) ltac:(idtac; originals_special).
Qed.

Lemma images_are_step I ev st :
  moves_only ev = true -> images_are I st -> images_are I (step st ev).
Proof.
  intros Hev Hi. unfold step.
  destruct ev; try discriminate Hev; simpl handle;
    cbv beta delta
      [_rotate_active _activate_drag _drag_kv _mouse_scroll _zoom _nudge_kv
       blend_row_Scale blend_row_Checkbutton filter_menu];
    repeat inv_step (images_are I) ltac:(idtac; images_special).
Qed.

(** X8.  Who writes the rasters.  Only loading a dataset replaces an original
    raster: every other gesture leaves the four originals as they are.  The
    transform gestures (click, drag, arrow keys, wheel, zoom, rotation slider)
    and the blend controls do not touch a working raster either. *)
Theorem rasters_are_written_by_few (ev : Event) (st : App) :
  (is_load ev = false -> original_images (step st ev) = original_images st) /\
  (moves_only ev = true -> images (step st ev) = images st).
Proof.
  split; intros Hev.
  - exact (originals_are_step (original_images st) ev st Hev eq_refl).
  - exact (images_are_step (images st) ev st Hev eq_refl).
Qed.

(** X9.  A load that finds nothing.  When the dataset directory exists but no
    image could be loaded from it, [_load_dataset] has emptied the four working
    rasters and the four originals before it reports the failure; the canvases
    keep the pictures they showed, and the transform state, the history and the
    active view are as before. *)
Theorem load_that_finds_nothing (files : Slots (option RGBImage)) (st : App) :
  count_loaded files = 0 ->
  let st' := state_of (_load_dataset (Directory files) st) in
  images st' = all_slots None /\
  original_images st' = all_slots None /\
  tk_images st' = tk_images st /\
  current_entry st' = current_entry st /\ heap st' = heap st /\
  history st' = history st /\ active_view st' = active_view st /\
  status_var (widgets st') = No_valid_images_found.
Proof.
  intros H0. assert (files = all_slots None) as ->.
  { destruct files as [[a|] [b|] [c|] [d|]]; vm_compute in H0;
      try discriminate H0; reflexivity. }
  cbv zeta. repeat split.
Qed.

Lemma count_loaded_range files : 0 <= count_loaded files <= 4.
Proof.
  unfold count_loaded.
  destruct (gets files drr_ap), (gets files kv_ap), (gets files drr_lat),
    (gets files kv_lat); simpl; lia.
Qed.

(** The state a successful load hands to the render path. *)
Lemma _load_dataset_loaded files st :
  0 < count_loaded files ->
  exists s1,
    _load_dataset (Directory files) st = _update_match_overlay s1 /\
    images s1 = files /\ tk_images s1 = tk_images st /\
    widgets s1 =
      set_status_var (Loaded (count_loaded files))
        (set_canvas_borders None
           (set_zoom_label 100 (set_rotation_shown 0 (widgets st)))) /\
    current_adjustment_image s1 = current_adjustment_image st /\
    filter_var s1 = filter_var st.
Proof.
  intros Hn. unfold _load_dataset. rewrite load_slots_spec.
  apply Z.ltb_lt in Hn. rewrite Hn.
  eexists. split; [reflexivity|].
  unfold _save_initial_state, _reset_to_initial_values.
  destruct (install_fresh_spec default_values
              (set_original_images files (set_images files st)))
    as (h & kv & rot & zoom & pan & adj & -> & _).
  app_proj. repeat split.
Qed.

(** X10.  What a load leaves behind.  After a load that found some but not all
    images, the thumbnail of each slot left empty and the match canvas of each
    view that lacks a raster still show the pictures of before; the three
    adjustment sliders, the filter target and the selected filter are not reset
    either.  The status bar counts the images loaded, between one and four. *)
Theorem load_leaves_pictures (files : Slots (option RGBImage)) (st : App) :
  0 < count_loaded files ->
  let st' := state_of (_load_dataset (Directory files) st) in
  (forall view : View,
     gets files (drr_ view) = None \/ gets files (kv_ view) = None ->
     getv (match_canvas (tk_images st')) view =
     getv (match_canvas (tk_images st)) view) /\
  (forall k : Slot,
     gets files k = None ->
     gets (thumbnails (tk_images st')) k =
     gets (thumbnails (tk_images st)) k) /\
  brightness_scale (widgets st') = brightness_scale (widgets st) /\
  contrast_scale (widgets st') = contrast_scale (widgets st) /\
  sharpness_scale (widgets st') = sharpness_scale (widgets st) /\
  current_adjustment_image st' = current_adjustment_image st /\
  filter_var st' = filter_var st /\
  status_var (widgets st') = Loaded (count_loaded files) /\
  1 <= count_loaded files <= 4.
Proof.
  intros Hn. cbv zeta.
  pose proof (count_loaded_range files) as Hr.
  destruct (_load_dataset_loaded files st Hn) as (s1 & -> & Hi & Ht & Hw & Ha & Hf).
  destruct (_update_match_overlay_kept s1) as (tk & -> & M & K).
  app_proj. rewrite Hi, Ht in M, K. rewrite Hw, Ha, Hf.
  split; [exact M|]. split; [exact K|].
  repeat (split; [reflexivity|]). lia.
Qed.

End Frames.

(** * The dataset directory

    The loop of [_load_dataset] over the names [os.listdir] gives.  File
    names are strings of ASCII characters; [str.lower] is modelled on the
    letters A to Z.  [os.path.splitext] is the one of [posixpath] or of
    [ntpath], both instances of [genericpath._splitext]. *)

Import Ascii.AsciiSyntax String.StringSyntax.
Delimit Scope char_scope with char.
Delimit Scope string_scope with string.

Definition str : Type := list Ascii.ascii.

#[global] Instance ascii_eq_dec : EqDecision Ascii.ascii := Ascii.ascii_dec.

(** A string literal. *)
Definition lit (s : String.string) : str := String.list_ascii_of_string s.
Arguments lit s%_string.

(** [s.lower()]. *)
Definition lower_char (c : Ascii.ascii) : Ascii.ascii :=
  let n := Ascii.nat_of_ascii c in
  if (65 <=? n)%nat && (n <=? 90)%nat then Ascii.ascii_of_nat (n + 32) else c.
Definition lower (s : str) : str := map lower_char s.

(** [s.startswith(prefix)]. *)
Fixpoint startswith (s prefix : str) {struct prefix} : bool :=
  match prefix, s with
  | [], _ => true
  | p :: prefix', c :: s' => bool_decide (c = p) && startswith s' prefix'
  | _ :: _, [] => false
  end.

(** [s.rfind(c)] for a character [c]: the index of its last occurrence,
    or -1. *)
Fixpoint rfind (c : Ascii.ascii) (s : str) : Z :=
  match s with
  | [] => -1
  | x :: s' =>
      let r := rfind c s' in
      if 0 <=? r then r + 1 else if bool_decide (x = c) then 0 else -1
  end.

(** The slice [p[i:j]] for [0 <= i]. *)
Definition slice (p : str) (i j : Z) : str :=
  take (Z.to_nat (j - i)) (drop (Z.to_nat i) p).

(** [genericpath._splitext(p, sep, altsep, extsep)]: the extension starts
    at the last dot of the last path component, leading dots of the
    component apart. *)
Definition _splitext (p : str) (sep : Ascii.ascii) (altsep : option Ascii.ascii)
    (extsep : Ascii.ascii) : str * str :=
  let sepIndex := rfind sep p in
  let sepIndex :=
    match altsep with
    | Some a => Z.max sepIndex (rfind a p)
    | None => sepIndex
    end in
  let dotIndex := rfind extsep p in
  if sepIndex <? dotIndex then
    if forallb (fun c => bool_decide (c = extsep))
         (slice p (sepIndex + 1) dotIndex)
    then (p, [])
    else (take (Z.to_nat dotIndex) p, drop (Z.to_nat dotIndex) p)
  else (p, []).

(** The two flavours of [os.path]. *)
Inductive Platform := posixpath | ntpath.

Definition splitext (os_path : Platform) (p : str) : str * str :=
  match os_path with
  | posixpath => _splitext p "/"%char None "."%char
  | ntpath => _splitext p "\"%char (Some "/"%char) "."%char
  end.

(** [file_map] and [valid]. *)
Definition file_map (key : Slot) : str :=
  match key with
  | drr_ap => lit "1"
  | kv_ap => lit "2"
  | drr_lat => lit "3"
  | kv_lat => lit "4"
  end.

Definition valid : list str :=
  [lit ".png"; lit ".jpg"; lit ".jpeg"; lit ".tif"; lit ".tiff"; lit ".bmp"].

(** The test of the inner loop:
    [name.startswith(prefix) and ext in valid], with
    [name, ext = os.path.splitext(fn.lower())]. *)
Definition candidate (os_path : Platform) (prefix fn : str) : bool :=
  let '(name, ext) := splitext os_path (lower fn) in
  startswith name prefix && bool_decide (ext ∈ valid).

(** The inner loop: the first name of the listing that passes the test. *)
Definition find_path (os_path : Platform) (prefix : str) (names : list str)
  : option str :=
  find (candidate os_path prefix) names.

(** The outer loop: per slot, the file found is opened and converted;
    [open_rgb] is [Image.open(path).convert("RGB")], [None] when it
    raises.  A slot whose file cannot be opened stays empty. *)
Definition scan (os_path : Platform) (open_rgb : str -> option RGBImage)
    (names : list str) : Slots (option RGBImage) :=
  mkSlots
    (find_path os_path (file_map drr_ap) names ≫= open_rgb)
    (find_path os_path (file_map kv_ap) names ≫= open_rgb)
    (find_path os_path (file_map drr_lat) names ≫= open_rgb)
    (find_path os_path (file_map kv_lat) names ≫= open_rgb).

(** What [_load_dataset] is handed for a directory with these names. *)
Definition listed (os_path : Platform) (open_rgb : str -> option RGBImage)
    (names : list str) : Dataset :=
  Directory (scan os_path open_rgb names).

(** A name holds no path separator, as the names of a listing do. *)
Definition plain (fn : str) : Prop :=
  ("/"%char ∉ fn) /\ ("\"%char ∉ fn).

Example candidate_examples :
  map (candidate posixpath (file_map drr_ap))
    [lit "1_DRR_AP.png"; lit "10.PNG"; lit "1.tar.JPeG"; lit "2_KV.png";
     lit "1.txt"; lit "1"; lit ".png"; lit "1png"] =
  [true; true; true; false; false; false; false; false].
Proof. vm_compute. reflexivity. Qed.

Lemma startswith_prefix (s p : str) : startswith s p = true <-> p `prefix_of` s.
Proof.
  revert s. induction p as [|c p IH]; intros s; simpl.
  - split; [intros _; apply prefix_nil|reflexivity].
  - destruct s as [|x s].
    + split; [discriminate|]. intros [k Hk]. discriminate Hk.
    + rewrite andb_true_iff, bool_decide_eq_true, IH. split.
      * intros [-> Hp]. apply prefix_cons, Hp.
      * intros [k Hk]. simpl in Hk. injection Hk as -> ->.
        split; [reflexivity|]. exists k. reflexivity.
Qed.

Lemma rfind_bounds c s : -1 <= rfind c s < Z.of_nat (length s).
Proof.
  induction s as [|x s IH]; simpl; [lia|].
  destruct (0 <=? rfind c s) eqn:E; [lia|].
  destruct (bool_decide (x = c)); lia.
Qed.

Lemma rfind_absent c s : c ∉ s -> rfind c s = -1.
Proof.
  induction s as [|x s IH]; intros Hn; simpl; [reflexivity|].
  apply not_elem_of_cons in Hn as [Hne Hn]. rewrite (IH Hn). simpl.
  rewrite bool_decide_eq_false_2 by congruence. reflexivity.
Qed.

Lemma rfind_last c t e :
  c ∉ e -> rfind c (t ++ c :: e) = Z.of_nat (length t).
Proof.
  intros Hn. induction t as [|x t IH]; simpl.
  - rewrite (rfind_absent c e Hn). simpl.
    rewrite bool_decide_eq_true_2 by reflexivity. reflexivity.
  - rewrite IH. destruct (0 <=? Z.of_nat (length t)) eqn:E; [lia|].
    apply Z.leb_gt in E. lia.
Qed.

(** The first component of [splitext] is a prefix of the name, and a
    non-empty second component is the rest. *)
Lemma _splitext_parts p sep altsep extsep :
  let '(name, ext) := _splitext p sep altsep extsep in
  name `prefix_of` p /\ (ext <> [] -> p = name ++ ext).
Proof.
  unfold _splitext.
  destruct (_ <? _); [|split; [reflexivity|intros []; reflexivity]].
  destruct (forallb _ _); [split; [reflexivity|intros []; reflexivity]|].
  split; [apply prefix_take|]. intros _. symmetry. apply take_drop.
Qed.

Lemma splitext_parts os_path p :
  let '(name, ext) := splitext os_path p in
  name `prefix_of` p /\ (ext <> [] -> p = name ++ ext).
Proof. destruct os_path; apply _splitext_parts. Qed.

Lemma lower_char_separator c :
  (lower_char c = "/"%char -> c = "/"%char) /\
  (lower_char c = "\"%char -> c = "\"%char).
Proof.
  destruct c as [[] [] [] [] [] [] [] []]; vm_compute; split; congruence.
Qed.

Lemma lower_keeps_absent (c : Ascii.ascii) fn :
  (forall x, lower_char x = c -> x = c) -> c ∉ fn -> c ∉ lower fn.
Proof.
  intros Hc. induction fn as [|x fn IH]; intros Hn; simpl; [exact Hn|].
  apply not_elem_of_cons in Hn as [Hne Hn].
  apply not_elem_of_cons. split; [|apply IH, Hn].
  intros Heq. apply Hne. symmetry. apply Hc. symmetry. exact Heq.
Qed.

Lemma plain_lower fn : plain fn -> plain (lower fn).
Proof.
  intros [Hs Hb]. split; apply lower_keeps_absent; try assumption;
    intros x Hx; apply lower_char_separator in Hx; exact Hx.
Qed.

(** Every valid extension is a dot followed by letters. *)
Lemma valid_shape e :
  e ∈ valid -> exists e', e = "."%char :: e' /\ "."%char ∉ e'.
Proof.
  unfold valid. intros Hin.
  repeat (apply elem_of_cons in Hin as [->|Hin];
          [eexists; split; [reflexivity|];
           apply (bool_decide_unpack _); vm_compute; exact I|]).
  apply elem_of_nil in Hin. contradiction.
Qed.

(** The prefix of a slot is one character, and not a dot. *)
Lemma file_map_shape key :
  exists d, file_map key = [d] /\ d <> "."%char.
Proof. destruct key; eexists; (split; [reflexivity|discriminate]). Qed.

Lemma splitext_plain os_path (stem e' : str) d :
  plain (d :: stem ++ "."%char :: e') -> d <> "."%char -> "."%char ∉ e' ->
  splitext os_path (d :: stem ++ "."%char :: e') =
  (d :: stem, "."%char :: e').
Proof.
  intros [Hs Hb] Hd He.
  assert (rfind "."%char (d :: stem ++ "."%char :: e') =
          Z.of_nat (length (d :: stem))) as Hdot
    by (apply (rfind_last "."%char (d :: stem) e' He)).
  assert (_splitext (d :: stem ++ "."%char :: e') "/"%char None "."%char =
          (d :: stem, "."%char :: e') /\
          _splitext (d :: stem ++ "."%char :: e') "\"%char (Some "/"%char)
            "."%char = (d :: stem, "."%char :: e')) as [Hp Hn].
  { unfold _splitext. rewrite Hdot, (rfind_absent _ _ Hs), (rfind_absent _ _ Hb).
    change (Z.max (-1) (-1)) with (-1).
    assert ((-1 <? Z.of_nat (length (d :: stem))) = true) as ->
      by (apply Z.ltb_lt; lia).
    unfold slice. change (-1 + 1) with 0. rewrite Z.sub_0_r, Nat2Z.id.
    change (Z.to_nat 0) with 0%nat. rewrite drop_0.
    change (d :: stem ++ "."%char :: e') with ((d :: stem) ++ "."%char :: e').
    rewrite take_app_length, drop_app_length.
    cbn [forallb]. rewrite bool_decide_eq_false_2 by exact Hd.
    cbn [andb]. split; reflexivity. }
  destruct os_path; assumption.
Qed.

(** X11.  Which file a slot takes.  For a name without a path separator, the
    test of the loading loop passes exactly when the name, in lower case,
    starts with the digit of the slot and ends with one of the six extensions:
    the digit need not be followed by an underscore, and the case of the
    letters does not matter. *)
Theorem candidate_by_digit_and_extension (os_path : Platform) (key : Slot)
    (fn : str) :
  plain fn ->
  candidate os_path (file_map key) fn = true <->
  file_map key `prefix_of` lower fn /\
  exists e : str, e ∈ valid /\ e `suffix_of` lower fn.
Proof.
  intros Hp. apply plain_lower in Hp. unfold candidate.
  generalize dependent (lower fn). intros s Hp.
  split.
  - pose proof (splitext_parts os_path s) as Hparts.
    destruct (splitext os_path s) as [name ext].
    destruct Hparts as [Hpre Hrest].
    rewrite andb_true_iff, bool_decide_eq_true, startswith_prefix.
    intros [Hn He]. split; [etrans; eassumption|].
    exists ext. split; [exact He|].
    exists name. apply Hrest. intros ->.
    revert He. apply (bool_decide_unpack _). vm_compute. exact I.
  - intros [[rest Hrest] (e & He & [stem Hstem])].
    destruct (file_map_shape key) as (d & Hk & Hd).
    destruct (valid_shape e He) as (e' & -> & Hdot).
    rewrite Hk in Hrest |- *. simpl in Hrest.
    destruct stem as [|x stem].
    { simpl in Hstem. rewrite Hstem in Hrest. injection Hrest as Hx _.
      congruence. }
    rewrite Hstem in Hrest. simpl in Hrest. injection Hrest as -> _.
    rewrite Hstem in Hp |- *. simpl app.
    rewrite (splitext_plain os_path stem e' d Hp Hd Hdot).
    rewrite andb_true_iff, bool_decide_eq_true. split; [|exact He].
    simpl. rewrite bool_decide_eq_true_2 by reflexivity. reflexivity.
Qed.

Lemma candidate_prefix os_path key fn :
  candidate os_path (file_map key) fn = true ->
  file_map key `prefix_of` lower fn.
Proof.
  unfold candidate.
  pose proof (splitext_parts os_path (lower fn)) as Hparts.
  destruct (splitext os_path (lower fn)) as [name ext].
  destruct Hparts as [Hpre _].
  rewrite andb_true_iff, startswith_prefix.
  intros [Hn _]. etrans; eassumption.
Qed.

(** X12.  No file serves two slots.  The files found for two different slots
    are different files, whatever the listing. *)
Theorem slots_take_different_files (os_path : Platform) (names : list str)
    (k1 k2 : Slot) (f1 f2 : str) :
  k1 <> k2 ->
  find_path os_path (file_map k1) names = Some f1 ->
  find_path os_path (file_map k2) names = Some f2 ->
  f1 <> f2.
Proof.
  intros Hk H1 H2 ->.
  apply find_some in H1 as [_ H1]. apply find_some in H2 as [_ H2].
  apply candidate_prefix in H1 as [r1 H1].
  apply candidate_prefix in H2 as [r2 H2].
  rewrite H1 in H2.
  destruct k1, k2; try contradiction; discriminate H2.
Qed.

(** X13.  One candidate, any order.  When at most one name of the listing
    passes the test of a slot, the file found for the slot does not depend on
    the order of the listing (which [os.listdir] does not fix); with several
    candidates the first in the listing is taken. *)
Theorem unique_candidate_any_order (os_path : Platform) (prefix : str)
    (names names' : list str) :
  names ≡ₚ names' ->
  (forall f g : str,
     f ∈ names -> g ∈ names ->
     candidate os_path prefix f = true -> candidate os_path prefix g = true ->
     f = g) ->
  find_path os_path prefix names' = find_path os_path prefix names.
Proof.
  intros Hperm Huniq. unfold find_path.
  destruct (find (candidate os_path prefix) names) as [f|] eqn:Ef;
    destruct (find (candidate os_path prefix) names') as [g|] eqn:Eg;
    try reflexivity.
  - apply find_some in Ef as [If Cf]. apply find_some in Eg as [Ig Cg].
    apply list_elem_of_In in If, Ig. rewrite <- Hperm in Ig.
    f_equal. apply Huniq; assumption.
  - apply find_some in Ef as [If Cf].
    apply (Permutation_in _ Hperm) in If.
    rewrite (find_none _ _ Eg _ If) in Cf. discriminate Cf.
  - apply find_some in Eg as [Ig Cg].
    apply (Permutation_in _ (Permutation_sym Hperm)) in Ig.
    rewrite (find_none _ _ Ef _ Ig) in Cg. discriminate Cg.
Qed.

(** * The open window *)

Lemma history_append_two h e e1 :
  last h = Some e ->
  (1 < length (history_append h e1))%nat /\
  last (removelast (history_append h e1)) = Some e.
Proof.
  intros Hl. apply last_Some in Hl as [h' ->]. unfold history_append.
  destruct (20 <? length ((h' ++ [e]) ++ [e1]))%nat eqn:E.
  - apply Nat.ltb_lt in E. rewrite !length_app in E. simpl in E.
    destruct h' as [|x h']; [simpl in E; lia|]. simpl tail.
    rewrite removelast_last, last_snoc, !length_app. simpl. split; [lia|reflexivity].
  - rewrite removelast_last, last_snoc, !length_app. simpl. split; [lia|reflexivity].
Qed.

(** The highlighted match canvas is the active view, and the guard of the
    rotation slider is down. *)
Definition ui_ok (st : App) : Prop :=
  canvas_borders (widgets st) = active_view st /\
  _ignore_rotation_callback st = false.

Lemma ui_ok__save_state st : ui_ok st -> ui_ok (_save_state st).
Proof. destruct (_save_state_spec st) as (h & e & -> & _). exact id. Qed.

Lemma ui_ok_install_fresh s st : ui_ok st -> ui_ok (install_fresh s st).
Proof.
  destruct (install_fresh_spec s st) as (h & kv & rot & zoom & pan & adj & -> & _).
  exact id.
Qed.

Lemma ui_ok_set_status_var x st :
  ui_ok st -> ui_ok (set_widgets (set_status_var x) st).
Proof. exact id. Qed.

Lemma ui_ok_set_initial_state v st : ui_ok st -> ui_ok (set_initial_state v st).
Proof. exact id. Qed.

(** The guard flag has the value [b]. *)
Definition flag_is (b : bool) (st : App) : Prop :=
  _ignore_rotation_callback st = b.

Lemma flag_is__save_state b st : flag_is b st -> flag_is b (_save_state st).
Proof.
  unfold flag_is. destruct (_save_state_spec st) as (h & e & -> & _). exact id.
Qed.

Lemma flag_is_set_widgets b f st : flag_is b st -> flag_is b (set_widgets f st).
Proof. exact id. Qed.

Lemma flag_is_set_ignore_rotation_callback b st :
  flag_is b (set_ignore_rotation_callback b st).
Proof. reflexivity. Qed.

(** With the guard flag down, taking the frame off and clearing the
    active view leaves the window in order. *)
Lemma ui_ok_unframed s st :
  flag_is false st ->
  ui_ok
    (set_widgets (set_status_var s)
       (set_active_view None (set_widgets (set_canvas_borders None) st))).
Proof. intros Hf. split; [reflexivity|exact Hf]. Qed.

Section Window.
Context `{Pillow}.

Lemma reachable_allocated evs :
  entry_allocated (heap (run start evs)) (current_entry (run start evs)).
Proof. exact (proj1 (wf_allocated _ (wf_run evs start wf_start))). Qed.

(** The window as it opens.  [__init__] returns with no image loaded, no
    active view, the default values installed, and one entry in the
    history, the baseline, which records the default values. *)
Theorem window_opens_in_default_state :
  exists baseline : Entry,
    __init__ = Returned start /\
    history start = [baseline] /\
    entry_value (heap start) baseline = default_values /\
    current_value start = default_values /\
    initial_state start = Some default_values /\
    images start = all_slots None /\
    original_images start = all_slots None /\
    active_view start = None /\
    status_var (widgets start) = Ready.
Proof. eexists. vm_compute. repeat split. Qed.

(** X14.  An arrow key moves the KV offsets.  In every state the window can
    reach, whether or not an image is loaded, [_nudge_kv(dx, dy)] adds [dx] to
    the horizontal offset of the active view (to none when no view is active)
    and [dy] to both vertical offsets, and pushes one history entry, which
    records the state after the move: also when nothing has moved.  The working
    rasters stay. *)
Theorem nudge_moves_offsets (evs : list Event) (dx dy : Z) :
  let st := run start evs in
  let d := kv_offset_of st in
  let st' := state_of (_nudge_kv dx dy st) in
  kv_offset_of st' =
    add_y_both
      (match active_view st with
       | Some view => add_x d view dx
       | None => d
       end) dy /\
  images st' = images st /\
  exists e : Entry,
    history st' = history_append (history st) e /\
    entry_value (heap st') e = current_value st'.
Proof.
  intros st d st'.
  destruct (_nudge_kv_spec dx dy st (reachable_allocated evs))
    as (R1 & R2 & _ & _ & R3).
  split; [exact R1|]. split; [exact R2|exact R3].
Qed.

(** X15.  A drag follows the pointer.  In every state the window can reach in
    which the KV image of a view is loaded: after a click at [(x0, y0)] on the
    view and any number of motion events on it, the horizontal offset of the
    view has moved by the horizontal distance from the click to the last
    pointer position, and both vertical offsets by the vertical distance.  The
    click pushes nothing to the history; every motion event pushes an entry of
    its own. *)
Theorem drag_follows_pointer (evs : list Event) (view : View)
    (img : RGBImage) (x0 y0 : Z) (pts : list (Z * Z)) :
  let st := run start evs in
  gets (images st) (kv_ view) = Some img ->
  let st1 := state_of (_activate_drag x0 y0 view st) in
  let stn := drag_through view st1 pts in
  let p := default (x0, y0) (last pts) in
  active_view st1 = Some view /\
  history st1 = history st /\
  kv_offset_of stn =
    add_y_both (add_x (kv_offset_of st) view (p.1 - x0)) (p.2 - y0) /\
  exists es : list Entry,
    length es = length pts /\
    history stn = fold_left history_append es (history st).
Proof.
  intros st Hi st1 stn p.
  destruct (drag_from_click view st img x0 y0 pts Hi (reachable_allocated evs))
    as (R1 & R2 & R3 & _ & R4).
  split; [exact R1|]. split; [exact R2|]. split; [exact R3|exact R4].
Qed.

Lemma ui_ok_update st :
  ui_ok st -> ui_ok (state_of (_update_match_overlay st)).
Proof. destruct (_update_match_overlay_display st) as [tk ->]. exact id. Qed.

Lemma ui_ok_saved st :
  ui_ok st -> ui_ok (state_of (_update_match_overlay (_save_state st))).
Proof. intros Hu. apply ui_ok_update, ui_ok__save_state, Hu. Qed.

Ltac ui_special :=
  lazymatch goal with
  | |- ui_ok (state_of (_update_match_overlay _)) => apply ui_ok_update
  | |- ui_ok (_save_state _) => apply ui_ok__save_state
  | |- ui_ok (install_fresh _ _) => apply ui_ok_install_fresh
  | |- ui_ok (?f _ ?s) => unfold ui_ok; progress app_proj; change (ui_ok s)
  end.

Ltac ui_step := inv_step ui_ok ltac:(idtac; ui_special).

Lemma ui_ok__activate_drag x y view st :
  ui_ok (state_of (_activate_drag x y view st)).
Proof. unfold _activate_drag. destruct view; split; reflexivity. Qed.

Lemma ui_ok__mouse_scroll e view st :
  ui_ok st -> ui_ok (state_of (_mouse_scroll e view st)).
Proof.
  intros [Hb Hf]. unfold _mouse_scroll. destruct view; [|split; assumption].
  apply ui_ok_saved. split; [exact Hb|reflexivity].
Qed.

Lemma ui_ok__reset_to_initial_values st : ui_ok (_reset_to_initial_values st).
Proof. unfold _reset_to_initial_values. split; reflexivity. Qed.

Lemma ui_ok_scale_set k v st : ui_ok st -> ui_ok (scale_set k v st).
Proof. intros Hu. repeat ui_step. Qed.

Lemma ui_ok_show_adjustments view st :
  ui_ok st -> ui_ok (show_adjustments view st).
Proof. intros Hu. repeat ui_step. Qed.

(** Setting an adjustment scale leaves the guard flag as it is. *)
Lemma flag_is_update b st :
  flag_is b st -> flag_is b (state_of (_update_match_overlay st)).
Proof. destruct (_update_match_overlay_display st) as [tk ->]. exact id. Qed.

Ltac flag_special :=
  lazymatch goal with
  | |- flag_is _ (state_of (_update_match_overlay _)) => apply flag_is_update
  | |- flag_is _ (_save_state _) => apply flag_is__save_state
  | |- flag_is ?b (?f _ ?s) =>
      unfold flag_is; progress app_proj; change (flag_is b s)
  end.

Lemma flag_is_scale_set b k v st :
  flag_is b st -> flag_is b (scale_set k v st).
Proof. intros Hf. repeat inv_step (flag_is b) ltac:(idtac; flag_special). Qed.

Lemma ui_ok__reset_to_default st :
  ui_ok st -> ui_ok (state_of (_reset_to_default st)).
Proof.
  intros Hu. unfold _reset_to_default.
  destruct (initial_state st) as [init|]; [|exact Hu].
  cbv zeta. apply ui_ok_saved, ui_ok_unframed, flag_is_set_widgets.
  apply flag_is_set_widgets, (flag_is_scale_set false),
    flag_is_set_widgets, (flag_is_scale_set false),
    flag_is_set_widgets, (flag_is_scale_set false),
    flag_is_set_widgets.
  apply flag_is_set_ignore_rotation_callback.
Qed.

Lemma ui_ok__undo_last_action st :
  ui_ok st -> ui_ok (state_of (_undo_last_action st)).
Proof.
  intros [Hb Hf]. unfold _undo_last_action.
  destruct (length (history st) <=? 1)%nat; [split; assumption|].
  app_proj. destruct (last (removelast (history st))) as [prev|];
    [|split; assumption].
  apply ui_ok_update, ui_ok_set_status_var, ui_ok_show_adjustments.
  destruct (active_view st) as [[|]|] eqn:Ev; split; simpl;
    rewrite ?Ev; first [exact Hb | exact Hf | reflexivity].
Qed.

Lemma ui_ok_load_slot files key acc :
  ui_ok acc.1 -> ui_ok (load_slot files key acc).1.
Proof.
  destruct acc as [st n]. unfold load_slot. simpl.
  destruct (gets files key); exact id.
Qed.

Lemma ui_ok__load_dataset selection st :
  ui_ok st -> ui_ok (state_of (_load_dataset selection st)).
Proof.
  intros Hi. unfold _load_dataset.
  destruct selection as [| |files]; [exact Hi | exact Hi |].
  pose proof
    (ui_ok_load_slot files kv_lat _
       (ui_ok_load_slot files drr_lat _
          (ui_ok_load_slot files kv_ap _
             (ui_ok_load_slot files drr_ap
                (set_original_images (all_slots None)
                   (set_images (all_slots None) st), 0) Hi)))) as Hl.
  destruct (load_slot files kv_lat _) as [st' loaded]. simpl in Hl.
  destruct (0 <? loaded); [|exact Hl].
  apply ui_ok_update, ui_ok_set_status_var, ui_ok_set_initial_state.
  apply ui_ok__reset_to_initial_values.
Qed.

Lemma ui_ok_step ev st : ui_ok st -> ui_ok (step st ev).
Proof.
  intros Hi. unfold step.
  destruct ev; simpl handle;
    try (apply ui_ok__load_dataset, Hi);
    try (apply ui_ok__undo_last_action, Hi);
    try (apply ui_ok__reset_to_default, Hi);
    try (apply ui_ok__mouse_scroll, Hi);
    try (apply ui_ok__activate_drag);
    cbv beta delta
      [_rotate_active _drag_kv _zoom _nudge_kv
       blend_row_Scale blend_row_Checkbutton
       _select_adjustment_image_from_menu _select_image_for_adjustment
       _adjust_image _reset_adjustments filter_menu _apply_selected_filter];
    repeat ui_step.
Qed.

Lemma ui_ok_run evs st : ui_ok st -> ui_ok (run st evs).
Proof.
  revert st. induction evs as [|ev evs IH]; intros st Hi; [exact Hi|].
  apply IH, ui_ok_step, Hi.
Qed.

Lemma ui_ok_start : ui_ok start.
Proof. split; vm_compute; reflexivity. Qed.

(** X16.  The frame marks the active view.  In every state the window can
    reach, the match canvas with the yellow frame is the active view (none is
    framed when none is active), and the flag that makes the rotation slider
    ignore its callback is down: no handler leaves it raised. *)
Theorem frame_marks_active_view (evs : list Event) :
  canvas_borders (widgets (run start evs)) = active_view (run start evs) /\
  _ignore_rotation_callback (run start evs) = false.
Proof. exact (ui_ok_run evs start ui_ok_start). Qed.

(** X17.  The rotation slider.  In every state the window can reach: with the
    AP view active, the slider callback stores the value it is handed, as it
    is, as the AP rotation, shows it in the label, pushes one history entry and
    returns (an error while redrawing is caught); the lateral rotation and the
    rasters are not touched.  With another view active, or none, it returns at
    once with the state as it was. *)
Theorem rotation_slider_sets_ap (evs : list Event) (val : float) :
  let st := run start evs in
  (active_view st = Some ap ->
   exists st' : App,
     _rotate_active val st = Returned st' /\
     rotation_of st' ap = val /\
     rotation_of st' lat = rotation_of st lat /\
     rotation_label (widgets st') = val /\
     images st' = images st /\
     exists e : Entry,
       history st' = history_append (history st) e /\
       entry_value (heap st') e = current_value st') /\
  (active_view st <> Some ap -> _rotate_active val st = Returned st).
Proof.
  intros st.
  destruct (_rotate_active_spec val st (reachable_allocated evs)) as [R1 R2].
  destruct (ui_ok_run evs start ui_ok_start) as [_ Hf]. fold st in Hf.
  split.
  - intros Hv. exact (R1 Hv Hf).
  - intros Hv. apply R2. left. exact Hv.
Qed.

(** X18.  A slider move recomputes the target from its original.  In every
    state the window can reach, [_adjust_image(adj_type, value)] stores [value]
    as the adjustment of the target's view.  With no original loaded for the
    target it stops there: no raster changes and nothing is pushed to the
    history.  With an original, the target's working raster becomes
    Sharpness(Contrast(Brightness(original))) with the three factors stored for
    the view after the move (the working raster of before is not read, so a
    filter applied earlier is gone), the other working rasters and the
    originals stay, and one history entry is pushed. *)
Theorem adjust_image_from_original (evs : list Event) (adj_type : AdjType)
    (value : float) :
  let st := run start evs in
  let target := current_adjustment_image st in
  let view := view_of_slot target in
  let st' := state_of (_adjust_image adj_type value st) in
  adjustment_of st' adj_type view = value /\
  original_images st' = original_images st /\
  (forall k : Slot, k <> target -> gets (images st') k = gets (images st) k) /\
  match gets (original_images st) target with
  | Some original =>
      gets (images st') target =
        Some (enhance_RGB Sharpness
                (enhance_RGB Contrast
                   (enhance_RGB Brightness original
                      (adjustment_of st' brightness view))
                   (adjustment_of st' contrast view))
                (adjustment_of st' sharpness view)) /\
      exists e : Entry,
        history st' = history_append (history st) e /\
        entry_value (heap st') e = current_value st'
  | None => images st' = images st /\ history st' = history st
  end.
Proof.
  intros st target view st'.
  destruct (_adjust_image_spec adj_type value st (reachable_allocated evs))
    as (R1 & R2 & R3 & R4).
  split; [exact R1|]. split; [exact R2|]. split; [exact R3|exact R4].
Qed.

(** ** Setting an adjustment scale to the value it stands for *)

Lemma setv_getv {A} (d : PerView A) view : setv d view (getv d view) = d.
Proof. destruct d, view; reflexivity. Qed.

Lemma write_num_same h (l : ref) :
  is_Some (num_cells h !! l) -> write_num h l (read_num h l) = h.
Proof.
  intros [d Hd]. unfold write_num, read_num. rewrite Hd. simpl.
  rewrite (insert_id _ _ _ Hd). destruct h; reflexivity.
Qed.

(** The value is within the range of an adjustment scale: the scale keeps
    it as it is. *)
Definition in_scale (v : float) : Prop := scale_clip 0.1 3.0 v = v.

(** [st'] is [st] after saves and redraws only: the dictionaries in use are
    the same objects, the store has grown, and the history has the entries
    [es] more, each a record of the values of [st]. *)
Definition settled (st st' : App) (es : list Entry) : Prop :=
  current_entry st' = current_entry st /\
  heap_le (heap st) (heap st') /\
  history st' = fold_left history_append es (history st) /\
  Forall (fun e => entry_allocated (heap st') e /\
                   entry_value (heap st') e = current_value st) es /\
  original_images st' = original_images st /\
  current_adjustment_image st' = current_adjustment_image st.

Lemma settled_refl st : settled st st [].
Proof.
  split; [reflexivity|]. split; [apply heap_le_refl|].
  split; [reflexivity|]. split; [constructor|]. split; reflexivity.
Qed.

Lemma settled_current st st' es :
  entry_allocated (heap st) (current_entry st) ->
  settled st st' es ->
  current_value st' = current_value st /\
  entry_allocated (heap st') (current_entry st').
Proof.
  intros Ha (C & E & _). split.
  - change (entry_value (heap st') (current_entry st') =
            entry_value (heap st) (current_entry st)).
    rewrite C. exact (entry_value_grow _ _ _ E Ha).
  - rewrite C. exact (entry_allocated_le _ _ _ E Ha).
Qed.

Lemma settled_trans st st1 st2 es1 es2 :
  entry_allocated (heap st) (current_entry st) ->
  settled st st1 es1 -> settled st1 st2 es2 ->
  settled st st2 (es1 ++ es2).
Proof.
  intros Ha S1 S2.
  destruct (settled_current st st1 es1 Ha S1) as [V1 A1].
  destruct S1 as (C1 & E1 & H1 & F1 & O1 & T1).
  destruct S2 as (C2 & E2 & H2 & F2 & O2 & T2).
  split; [rewrite C2; exact C1|].
  split; [exact (heap_le_trans _ _ _ E1 E2)|].
  split; [rewrite H2, H1, fold_left_app; reflexivity|].
  split; [|split; [rewrite O2; exact O1|rewrite T2; exact T1]].
  apply Forall_app. split.
  - eapply Forall_impl; [exact F1|]. intros e [Ae Ve].
    split; [exact (entry_allocated_le _ _ _ E2 Ae)|].
    rewrite (entry_value_grow _ _ _ E2 Ae). exact Ve.
  - eapply Forall_impl; [exact F2|]. intros e [Ae Ve].
    split; [exact Ae|]. rewrite Ve. exact V1.
Qed.

Lemma settled_set_widgets f st st' es :
  settled st st' es -> settled st (set_widgets f st') es.
Proof. exact id. Qed.

Lemma adjustment_of_current st st' k view :
  current_value st' = current_value st ->
  adjustment_of st' k view = adjustment_of st k view.
Proof.
  intros Hv.
  assert (forall s,
            adjustment_of s k view =
            getv (geta (s_adjustment_values (current_value s)) k) view) as E
    by (intros s; destruct k; reflexivity).
  rewrite !E, Hv. reflexivity.
Qed.

(** Set to the value stored for the view of the target, in range, an
    adjustment scale changes no value.  Its command stores the value
    again and, when the target has an original, renders the target anew
    and pushes one entry, a record of the very values. *)
Lemma scale_set_settled k v st :
  entry_allocated (heap st) (current_entry st) ->
  scale_clip 0.1 3.0 v =
    adjustment_of st k (view_of_slot (current_adjustment_image st)) ->
  exists es,
    settled st (scale_set k v st) es /\
    length es =
      (match gets (original_images st) (current_adjustment_image st) with
       | Some _ => 1 | None => 0 end)%nat.
Proof.
  intros Ha Hv. unfold scale_set. cbv zeta. rewrite Hv.
  unfold _adjust_image. cbv zeta. app_proj.
  unfold adjustment_of. rewrite setv_getv.
  rewrite write_num_same
    by (destruct Ha as (_ & _ & _ & _ & A5 & A6 & A7); destruct k; assumption).
  set (s0 := set_heap (heap st) _).
  assert (current_entry s0 = current_entry st /\ heap s0 = heap st /\
          history s0 = history st /\
          original_images s0 = original_images st /\
          current_adjustment_image s0 = current_adjustment_image st)
    as (C0 & E0 & H0 & O0 & T0) by (repeat split).
  clearbody s0.
  destruct (gets (original_images st) (current_adjustment_image st))
    as [original|].
  - set (s1 := set_images _ s0).
    assert (current_entry s1 = current_entry st /\ heap s1 = heap st /\
            history s1 = history st /\
            original_images s1 = original_images st /\
            current_adjustment_image s1 = current_adjustment_image st)
      as (C1 & E1 & H1 & O1 & T1)
      by (subst s1; app_proj; repeat split; assumption).
    clearbody s1.
    assert (entry_allocated (heap s1) (current_entry s1)) as Ha1
      by (rewrite C1, E1; exact Ha).
    destruct (saved_and_drawn s1 Ha1) as (tk & h & e & D & E & V & A & F).
    assert (current_value s1 = current_value st) as V1.
    { change (entry_value (heap s1) (current_entry s1) =
              entry_value (heap st) (current_entry st)).
      rewrite C1, E1. reflexivity. }
    exists [e]. split; [|reflexivity].
    assert (exists w,
              state_of
                (and_then (_update_match_overlay (_save_state s1))
                   (fun st0 =>
                      Returned
                        (set_widgets
                           (set_status_var
                              (Adjusted k
                                 (getv
                                    (read_num (heap st)
                                       (geta (adjustment_values st) k))
                                    (view_of_slot
                                       (current_adjustment_image st)))))
                           st0))) =
              set_widgets w
                (set_tk_images tk
                   (set_history (history_append (history s1) e)
                      (set_heap h s1)))) as [w ->].
    { destruct (_update_match_overlay (_save_state s1)) as [s|s];
        simpl in D |- *; subst s.
      - eexists. reflexivity.
      - exists (fun w => w). destruct s1; reflexivity. }
    split; [exact C1|]. split; [app_proj; rewrite <- E1; exact E|].
    split; [app_proj; rewrite H1; reflexivity|].
    split; [|split; [exact O1|exact T1]].
    constructor; [|constructor]. split; [exact A|].
    app_proj. rewrite V. exact V1.
  - simpl state_of. exists []. split; [|reflexivity].
    split; [exact C0|]. split; [rewrite E0; apply heap_le_refl|].
    split; [exact H0|]. split; [constructor|]. split; [exact O0|exact T0].
Qed.

(** So for the three scales set in a row. *)
Lemma show_adjustments_settled view st :
  entry_allocated (heap st) (current_entry st) ->
  view = view_of_slot (current_adjustment_image st) ->
  (forall k, in_scale (adjustment_of st k view)) ->
  exists es,
    settled st (show_adjustments view st) es /\
    length es =
      (match gets (original_images st) (current_adjustment_image st) with
       | Some _ => 3 | None => 0 end)%nat.
Proof.
  intros Ha -> Hin. cbv beta delta [show_adjustments]. cbv zeta.
  set (view := view_of_slot (current_adjustment_image st)) in *.
  destruct (scale_set_settled brightness (adjustment_of st brightness view)
              st Ha (Hin brightness)) as (es1 & S1 & L1).
  destruct (settled_current _ _ _ Ha S1) as [V1 A1].
  pose proof S1 as (_ & _ & _ & _ & O1 & T1).
  generalize dependent (scale_set brightness (adjustment_of st brightness view) st).
  intros s1 S1 V1 A1 O1 T1.
  assert (scale_clip 0.1 3.0 (adjustment_of s1 contrast view) =
          adjustment_of s1 contrast
            (view_of_slot (current_adjustment_image s1))) as Hc.
  { rewrite T1. fold view.
    rewrite (adjustment_of_current st s1 contrast view V1).
    exact (Hin contrast). }
  destruct (scale_set_settled contrast (adjustment_of s1 contrast view)
              s1 A1 Hc) as (es2 & S2 & L2).
  destruct (settled_current _ _ _ A1 S2) as [V2 A2].
  pose proof S2 as (_ & _ & _ & _ & O2 & T2).
  generalize dependent (scale_set contrast (adjustment_of s1 contrast view) s1).
  intros s2 S2 V2 A2 O2 T2.
  assert (scale_clip 0.1 3.0 (adjustment_of s2 sharpness view) =
          adjustment_of s2 sharpness
            (view_of_slot (current_adjustment_image s2))) as Hs.
  { rewrite T2, T1. fold view.
    rewrite (adjustment_of_current s1 s2 sharpness view V2),
      (adjustment_of_current st s1 sharpness view V1).
    exact (Hin sharpness). }
  destruct (scale_set_settled sharpness (adjustment_of s2 sharpness view)
              s2 A2 Hs) as (es3 & S3 & L3).
  generalize dependent (scale_set sharpness (adjustment_of s2 sharpness view) s2).
  intros s3 S3.
  exists (es1 ++ es2 ++ es3). split.
  - apply settled_set_widgets, settled_set_widgets, settled_set_widgets.
    apply (settled_trans st s1 s3 es1 (es2 ++ es3) Ha S1).
    exact (settled_trans s1 s2 s3 es2 es3 A1 S2 S3).
  - rewrite !length_app, L1, L2, L3, O2, O1, T2, T1.
    destruct (gets (original_images st) (current_adjustment_image st));
      reflexivity.
Qed.

(** What [_undo_last_action] does over a history of more than one entry,
    [prev] being the entry under the last one, with adjustment values
    within the range of the scales: the last entry is removed, the
    dictionaries of [prev] become the current ones, and, when the target
    has an original, the three adjustment scales push an entry each, a
    record of the values of [prev]. *)
Lemma _undo_last_action_restores st prev :
  (1 < length (history st))%nat ->
  last (removelast (history st)) = Some prev ->
  entry_allocated (heap st) prev ->
  (forall k,
     in_scale
       (getv (geta (s_adjustment_values (entry_value (heap st) prev)) k)
          (view_of_slot (current_adjustment_image st)))) ->
  let st' := state_of (_undo_last_action st) in
  exists es : list Entry,
    current_entry st' = prev /\
    current_value st' = entry_value (heap st) prev /\
    history st' = fold_left history_append es (removelast (history st)) /\
    length es =
      (match gets (original_images st) (current_adjustment_image st) with
       | Some _ => 3 | None => 0 end)%nat /\
    Forall (fun e => entry_value (heap st') e = entry_value (heap st) prev)
      es /\
    heap_le (heap st) (heap st') /\
    original_images st' = original_images st /\
    status_var (widgets st') = Undo_successful.
Proof.
  intros Hl Hprev Ap Hin. cbv zeta. unfold _undo_last_action.
  destruct (length (history st) <=? 1)%nat eqn:E;
    [apply Nat.leb_le in E; lia|].
  app_proj. rewrite Hprev.
  match goal with
  | |- context [show_adjustments _ ?S] =>
      assert (current_entry S = prev /\ heap S = heap st /\
              history S = removelast (history st) /\
              original_images S = original_images st /\
              current_adjustment_image S = current_adjustment_image st)
        as (C & Eh & Hh & O & T)
        by (destruct (active_view st) as [[|]|]; destruct prev;
            repeat split);
      generalize dependent S
  end.
  intros s8 C Eh Hh O T.
  assert (entry_allocated (heap s8) (current_entry s8)) as A8
    by (rewrite C, Eh; exact Ap).
  assert (current_value s8 = entry_value (heap st) prev) as V8.
  { change (entry_value (heap s8) (current_entry s8) =
            entry_value (heap st) prev).
    rewrite C, Eh. reflexivity. }
  assert (forall k,
            in_scale
              (adjustment_of s8 k
                 (view_of_slot (current_adjustment_image s8)))) as Hin8.
  { intros k. rewrite T.
    replace (adjustment_of s8 k (view_of_slot (current_adjustment_image st)))
      with (getv (geta (s_adjustment_values (current_value s8)) k)
              (view_of_slot (current_adjustment_image st)))
      by (destruct k; reflexivity).
    rewrite V8. exact (Hin k). }
  destruct (show_adjustments_settled
              (view_of_slot (current_adjustment_image s8)) s8 A8 eq_refl Hin8)
    as (es & S & L).
  destruct (settled_current _ _ _ A8 S) as [V9 _].
  generalize dependent
    (show_adjustments (view_of_slot (current_adjustment_image s8)) s8).
  intros s9 (Cs & Es & Hs & Fs & Os & Ts) Vs.
  destruct (_update_match_overlay_display
              (set_widgets (set_status_var Undo_successful) s9)) as [tk ->].
  exists es. app_proj.
  split; [change (current_entry s9 = prev); rewrite Cs; exact C|].
  split; [change (current_value s9 = entry_value (heap st) prev);
          rewrite Vs; exact V8|].
  split; [rewrite Hs, Hh; reflexivity|].
  split; [rewrite L, O, T; reflexivity|].
  split; [eapply Forall_impl; [exact Fs|]; intros e [_ Ve];
          rewrite Ve; exact V8|].
  split; [rewrite <- Eh; exact Es|].
  split; [rewrite Os; exact O|reflexivity].
Qed.

(** X19.  Undo reverts a nudge.  Take a state whose last history entry
    records the current values in dictionaries of its own (the entry does
    not share the offsets dictionary with the current state), the
    adjustment values of the target's view being within the range of the
    scales.  After a nudge by any [(dx, dy)] and an undo, the current
    values are those of before the nudge, and the dictionaries of the
    entry are the current ones from then on.  With no original loaded for
    the target the entry is the last of the history again; with one, the
    three adjustment scales undo sets have pushed an entry each on top of
    it, all three records of the values restored. *)
Theorem undo_reverts_a_nudge (dx dy : Z) (st : App) (e : Entry) :
  entry_allocated (heap st) (current_entry st) ->
  last (history st) = Some e ->
  entry_allocated (heap st) e ->
  entry_value (heap st) e = current_value st ->
  e_kv_offsets e <> kv_offsets st ->
  (forall k,
     in_scale
       (adjustment_of st k (view_of_slot (current_adjustment_image st)))) ->
  let st1 := state_of (_nudge_kv dx dy st) in
  let st2 := state_of (_undo_last_action st1) in
  current_value st2 = current_value st /\
  current_entry st2 = e /\
  status_var (widgets st2) = Undo_successful /\
  last (removelast (history st1)) = Some e /\
  exists es : list Entry,
    history st2 = fold_left history_append es (removelast (history st1)) /\
    length es =
      (match gets (original_images st) (current_adjustment_image st) with
       | Some _ => 3 | None => 0 end)%nat /\
    Forall (fun e' => entry_value (heap st2) e' = current_value st) es.
Proof.
  intros Ha Hl Ae Ve Hne Hin st1 st2.
  destruct (_nudge_kv_spec dx dy st Ha) as (_ & _ & _ & R4 & e1 & R5 & _).
  fold st1 in R4, R5.
  destruct (history_append_two (history st) e e1 Hl) as [Hlen Hlast].
  rewrite <- R5 in Hlen, Hlast.
  assert (entry_value (heap st1) e = current_value st) as Hv.
  { rewrite <- Ve.
    rewrite (entry_value_grow _ _ e R4 (entry_allocated_write_kv _ _ _ _ Ae)).
    unfold entry_value. rewrite read_kv_write_kv_ne by congruence. reflexivity. }
  assert (entry_allocated (heap st1) e) as Ae1
    by exact (entry_allocated_le _ _ _ R4
                (entry_allocated_write_kv _ _ _ _ Ae)).
  assert (original_images st1 = original_images st /\
          current_adjustment_image st1 = current_adjustment_image st)
    as [O1 T1].
  { subst st1. unfold _nudge_kv. cbv zeta.
    match goal with
    | |- context [_update_match_overlay ?s] =>
        destruct (_update_match_overlay_display s) as [tk ->]
    end.
    match goal with
    | |- context [_save_state ?s] =>
        destruct (_save_state_spec s) as (h & en & -> & _)
    end.
    app_proj.
    destruct (active_view st), (negb (dy =? 0)); split; reflexivity. }
  assert (forall k,
            in_scale
              (getv (geta (s_adjustment_values (entry_value (heap st1) e)) k)
                 (view_of_slot (current_adjustment_image st1)))) as Hin1.
  { intros k. rewrite Hv, T1. specialize (Hin k).
    destruct k; exact Hin. }
  destruct (_undo_last_action_restores st1 e Hlen Hlast Ae1 Hin1)
    as (es & C & V & Hh & L & F & _ & _ & Hs).
  fold st2 in C, V, Hh, L, F, Hs. rewrite O1, T1 in L. rewrite Hv in V, F.
  split; [exact V|]. split; [exact C|]. split; [exact Hs|].
  split; [exact Hlast|]. exists es.
  split; [exact Hh|]. split; [exact L|exact F].
Qed.

End Window.

(** * Entries that stay *)

(** The five dictionaries from a view to a number an entry refers to. *)
Definition num_refs (e : Entry) : list ref :=
  [e_rotations e; e_zoom_levels e; at_brightness (e_adjustment_values e);
   at_contrast (e_adjustment_values e); at_sharpness (e_adjustment_values e)].

(** The dictionaries of [e] are objects of the store other than the
    current ones. *)
Definition apart (st : App) (e : Entry) : Prop :=
  entry_allocated (heap st) e /\
  e_kv_offsets e <> kv_offsets st /\
  e_pan_offsets e <> pan_offsets st /\
  forall l : ref, l ∈ num_refs (current_entry st) -> l ∉ num_refs e.

(** [e] is apart and records [V]. *)
Definition kept (e : Entry) (V : Snapshot) (st : App) : Prop :=
  apart st e /\ entry_value (heap st) e = V.

Lemma entry_value_write_num h (l : ref) d e :
  l ∉ num_refs e -> entry_value (write_num h l d) e = entry_value h e.
Proof.
  intros Hn. unfold num_refs in Hn.
  repeat (apply not_elem_of_cons in Hn as [? Hn]).
  unfold entry_value. rewrite !read_num_write_num_ne by assumption.
  reflexivity.
Qed.

Lemma entry_value_write_kv h (l : ref) d e :
  e_kv_offsets e <> l -> entry_value (write_kv h l d) e = entry_value h e.
Proof.
  intros Hn. unfold entry_value.
  rewrite read_kv_write_kv_ne by congruence. reflexivity.
Qed.

Lemma entry_value_write_pan h (l : ref) d e :
  e_pan_offsets e <> l -> entry_value (write_pan h l d) e = entry_value h e.
Proof.
  intros Hn. unfold entry_value.
  rewrite read_pan_write_pan_ne by congruence. reflexivity.
Qed.

Lemma kept_write_kv e V st d :
  kept e V st -> kept e V (set_heap (write_kv (heap st) (kv_offsets st) d) st).
Proof.
  intros [(A & Hk & Hp & Hn) Hv]. split; [split|].
  - apply entry_allocated_write_kv, A.
  - split; [exact Hk|]. split; [exact Hp|exact Hn].
  - app_proj. rewrite entry_value_write_kv by exact Hk. exact Hv.
Qed.

Lemma kept_write_pan e V st d :
  kept e V st -> kept e V (set_heap (write_pan (heap st) (pan_offsets st) d) st).
Proof.
  intros [(A & Hk & Hp & Hn) Hv]. split; [split|].
  - apply entry_allocated_write_pan, A.
  - split; [exact Hk|]. split; [exact Hp|exact Hn].
  - app_proj. rewrite entry_value_write_pan by exact Hp. exact Hv.
Qed.

Lemma kept_write_num e V st (l : ref) d :
  l ∈ num_refs (current_entry st) ->
  kept e V st -> kept e V (set_heap (write_num (heap st) l d) st).
Proof.
  intros Hl [(A & Hk & Hp & Hn) Hv]. split; [split|].
  - apply entry_allocated_write_num, A.
  - split; [exact Hk|]. split; [exact Hp|exact Hn].
  - app_proj. rewrite entry_value_write_num by exact (Hn l Hl). exact Hv.
Qed.

Lemma kept_write_rotation e V st d :
  kept e V st -> kept e V (set_heap (write_num (heap st) (rotations st) d) st).
Proof. apply kept_write_num. unfold num_refs. simpl. set_solver. Qed.

Lemma kept_write_zoom e V st d :
  kept e V st -> kept e V (set_heap (write_num (heap st) (zoom_levels st) d) st).
Proof. apply kept_write_num. unfold num_refs. simpl. set_solver. Qed.

Lemma kept_write_adjustment e V st k d :
  kept e V st ->
  kept e V
    (set_heap (write_num (heap st) (geta (adjustment_values st) k) d) st).
Proof. apply kept_write_num. unfold num_refs. destruct k; simpl; set_solver. Qed.

Lemma kept__save_state e V st : kept e V st -> kept e V (_save_state st).
Proof.
  intros [(A & Hk & Hp & Hn) Hv].
  destruct (_save_state_spec st) as (h & e1 & -> & E).
  split; [split|].
  - app_proj. exact (entry_allocated_le _ _ _ E A).
  - split; [exact Hk|]. split; [exact Hp|exact Hn].
  - app_proj. rewrite (entry_value_grow _ _ _ E A). exact Hv.
Qed.

(** The dictionaries a reset installs are new objects. *)
Lemma install_fresh_new s st :
  exists h c,
    install_fresh s st =
    set_heap h
      (set_adjustment_values (e_adjustment_values c)
         (set_pan_offsets (e_pan_offsets c)
            (set_zoom_levels (e_zoom_levels c)
               (set_rotations (e_rotations c)
                  (set_kv_offsets (e_kv_offsets c) st))))) /\
    heap_le (heap st) h /\ entry_fresh (heap st) c.
Proof.
  unfold install_fresh. set (h0 := heap st).
  copy_step h1 kv. copy_step h2 rot. copy_step h3 zoom. copy_step h4 pan.
  copy_step h5 b. copy_step h6 c. copy_step h7 sh.
  assert (heap_le h0 h2) as G2 by eauto using heap_le_trans.
  assert (heap_le h0 h3) as G3 by eauto using heap_le_trans.
  assert (heap_le h0 h4) as G4 by eauto using heap_le_trans.
  assert (heap_le h0 h5) as G5 by eauto using heap_le_trans.
  assert (heap_le h0 h6) as G6 by eauto using heap_le_trans.
  assert (heap_le h0 h7) as G7 by eauto using heap_le_trans.
  exists h7, (mkEntry kv rot zoom pan (mkAdj b c sh) 0%float false).
  split; [reflexivity|]. split; [exact G7|].
  repeat split; simpl.
  - exact N.
  - destruct E as (_ & Hn & _). exact (lookup_le_None _ _ _ Hn N0).
  - destruct G2 as (_ & Hn & _). exact (lookup_le_None _ _ _ Hn N1).
  - destruct G3 as (_ & _ & Hp). exact (lookup_le_None _ _ _ Hp N2).
  - destruct G4 as (_ & Hn & _). exact (lookup_le_None _ _ _ Hn N3).
  - destruct G5 as (_ & Hn & _). exact (lookup_le_None _ _ _ Hn N4).
  - destruct G6 as (_ & Hn & _). exact (lookup_le_None _ _ _ Hn N5).
Qed.

(** An object of the store is none of the new ones. *)
Lemma allocated_apart_fresh h e c :
  entry_allocated h e -> entry_fresh h c ->
  e_kv_offsets e <> e_kv_offsets c /\
  e_pan_offsets e <> e_pan_offsets c /\
  forall l : ref, l ∈ num_refs c -> l ∉ num_refs e.
Proof.
  intros (A1 & A2 & A3 & A4 & A5 & A6 & A7) (F1 & F2 & F3 & F4 & F5 & F6 & F7).
  assert (forall l : ref, l ∈ num_refs e -> is_Some (num_cells h !! l)) as Ha.
  { intros l Hl. unfold num_refs in Hl.
    repeat (apply elem_of_cons in Hl as [->|Hl]; [assumption|]).
    apply elem_of_nil in Hl. contradiction. }
  assert (forall l : ref, l ∈ num_refs c -> num_cells h !! l = None) as Hf.
  { intros l Hl. unfold num_refs in Hl.
    repeat (apply elem_of_cons in Hl as [->|Hl]; [assumption|]).
    apply elem_of_nil in Hl. contradiction. }
  split; [|split].
  - intros Heq. rewrite Heq, F1 in A1. destruct A1 as [? [=]].
  - intros Heq. rewrite Heq, F4 in A4. destruct A4 as [? [=]].
  - intros l Hc He. pose proof (Ha l He) as [? Hs].
    rewrite (Hf l Hc) in Hs. discriminate Hs.
Qed.

Lemma kept_install_fresh e V s st :
  kept e V st -> kept e V (install_fresh s st).
Proof.
  intros [(A & Hk & Hp & Hn) Hv].
  destruct (install_fresh_new s st) as (h & c & -> & E & F).
  destruct (allocated_apart_fresh _ _ _ A F) as (Nk & Np & Nn).
  split; [split|].
  - app_proj. exact (entry_allocated_le _ _ _ E A).
  - app_proj. split; [exact Nk|]. split; [exact Np|exact Nn].
  - app_proj. rewrite (entry_value_grow _ _ _ E A). exact Hv.
Qed.

(** The gesture is Ctrl+Z. *)
Definition is_undo (ev : Event) : bool :=
  match ev with Control_z => true | _ => false end.

Section Staying.
Context `{Pillow}.

Lemma kept_update e V st :
  kept e V st -> kept e V (state_of (_update_match_overlay st)).
Proof. destruct (_update_match_overlay_display st) as [tk ->]. exact id. Qed.

Ltac kept_special :=
  lazymatch goal with
  | |- kept _ _ (state_of (_update_match_overlay _)) => apply kept_update
  | |- kept _ _ (_save_state _) => apply kept__save_state
  | |- kept _ _ (set_heap (write_kv _ (kv_offsets _) _) _) =>
      apply kept_write_kv
  | |- kept _ _ (set_heap (write_pan _ (pan_offsets _) _) _) =>
      apply kept_write_pan
  | |- kept _ _ (set_heap (write_num _ (rotations _) _) _) =>
      apply kept_write_rotation
  | |- kept _ _ (set_heap (write_num _ (zoom_levels _) _) _) =>
      apply kept_write_zoom
  | |- kept _ _ (set_heap (write_num _ (geta _ _) _) _) =>
      apply kept_write_adjustment
  | |- kept _ _ (install_fresh _ _) => apply kept_install_fresh
  | |- kept ?e ?V (?f _ ?s) =>
      unfold kept, apart; progress app_proj; change (kept e V s)
  end.

Lemma kept_load_slot e V files key acc :
  kept e V acc.1 -> kept e V (load_slot files key acc).1.
Proof.
  destruct acc as [st n]. unfold load_slot. simpl.
  destruct (gets files key); exact id.
Qed.

Lemma kept_set_widgets e V f st : kept e V st -> kept e V (set_widgets f st).
Proof. exact id. Qed.

Lemma kept_set_initial_state e V v st :
  kept e V st -> kept e V (set_initial_state v st).
Proof. exact id. Qed.

Lemma kept__load_dataset e V selection st :
  kept e V st -> kept e V (state_of (_load_dataset selection st)).
Proof.
  intros Hi. unfold _load_dataset.
  destruct selection as [| |files]; [exact Hi | exact Hi |].
  pose proof
    (kept_load_slot e V files kv_lat _
       (kept_load_slot e V files drr_lat _
          (kept_load_slot e V files kv_ap _
             (kept_load_slot e V files drr_ap
                (set_original_images (all_slots None)
                   (set_images (all_slots None) st), 0) Hi)))) as Hl.
  destruct (load_slot files kv_lat _) as [st' loaded]. simpl in Hl.
  destruct (0 <? loaded); [|exact Hl].
  apply kept_update, kept_set_widgets, kept_set_initial_state.
  cbv beta delta [_reset_to_initial_values].
  repeat inv_step (kept e V) ltac:(idtac; kept_special).
Qed.

(** Every gesture but Ctrl+Z leaves an entry that is apart as it is. *)
Lemma kept_step e V ev st :
  is_undo ev = false -> kept e V st -> kept e V (step st ev).
Proof.
  intros Hev Hi. unfold step.
  destruct ev; try discriminate Hev; simpl handle;
    try (apply kept__load_dataset, Hi);
    cbv beta delta
      [_rotate_active _activate_drag _drag_kv _mouse_scroll _zoom _nudge_kv
       _reset_to_default blend_row_Scale blend_row_Checkbutton
       _select_adjustment_image_from_menu _select_image_for_adjustment
       _adjust_image _reset_adjustments filter_menu _apply_selected_filter];
    repeat inv_step (kept e V) ltac:(idtac; kept_special).
Qed.

End Staying.

(** The dictionaries a reset installs are objects of the new store. *)
Lemma install_fresh_allocated s st :
  entry_allocated (heap (install_fresh s st))
    (current_entry (install_fresh s st)).
Proof.
  unfold install_fresh. set (h0 := heap st).
  copy_step h1 kv. copy_step h2 rot. copy_step h3 zoom. copy_step h4 pan.
  copy_step h5 b. copy_step h6 c. copy_step h7 sh.
  assert (heap_le h6 h7) as F6 by assumption.
  assert (heap_le h5 h7) as F5 by eauto using heap_le_trans.
  assert (heap_le h4 h7) as F4 by eauto using heap_le_trans.
  assert (heap_le h3 h7) as F3 by eauto using heap_le_trans.
  assert (heap_le h2 h7) as F2 by eauto using heap_le_trans.
  assert (heap_le h1 h7) as F1 by eauto using heap_le_trans.
  unfold current_entry. app_proj.
  destruct F1 as (K1 & _ & _), F2 as (_ & K2 & _), F3 as (_ & K3 & _),
    F4 as (_ & _ & K4), F5 as (_ & K5 & _), F6 as (_ & K6 & _).
  repeat split; simpl.
  - exact (lookup_weaken_is_Some _ _ _ (mk_is_Some _ _ L) K1).
  - exact (lookup_weaken_is_Some _ _ _ (mk_is_Some _ _ L0) K2).
  - exact (lookup_weaken_is_Some _ _ _ (mk_is_Some _ _ L1) K3).
  - exact (lookup_weaken_is_Some _ _ _ (mk_is_Some _ _ L2) K4).
  - exact (lookup_weaken_is_Some _ _ _ (mk_is_Some _ _ L3) K5).
  - exact (lookup_weaken_is_Some _ _ _ (mk_is_Some _ _ L4) K6).
  - exact (mk_is_Some _ _ L5).
Qed.

(** The dictionaries in use are objects of the store, and every entry of
    the history has dictionaries of its own. *)
Definition tidy (st : App) : Prop :=
  entry_allocated (heap st) (current_entry st) /\
  Forall (apart st) (history st).

Lemma tidy_from_kept st st' :
  history st' = history st ->
  entry_allocated (heap st') (current_entry st') ->
  (forall e V, kept e V st -> kept e V st') ->
  tidy st -> tidy st'.
Proof.
  intros Hh A' Hk [_ HF]. split; [exact A'|]. rewrite Hh.
  eapply Forall_impl; [exact HF|]. intros e Ha.
  exact (proj1 (Hk e _ (conj Ha eq_refl))).
Qed.

Lemma tidy_write_kv st d :
  tidy st -> tidy (set_heap (write_kv (heap st) (kv_offsets st) d) st).
Proof.
  intros Ht. apply (tidy_from_kept st); [reflexivity| |
    intros e V; apply kept_write_kv|exact Ht].
  apply (entry_allocated_write_kv (heap st)), Ht.
Qed.

Lemma tidy_write_pan st d :
  tidy st -> tidy (set_heap (write_pan (heap st) (pan_offsets st) d) st).
Proof.
  intros Ht. apply (tidy_from_kept st); [reflexivity| |
    intros e V; apply kept_write_pan|exact Ht].
  apply (entry_allocated_write_pan (heap st)), Ht.
Qed.

Lemma tidy_write_rotation st d :
  tidy st -> tidy (set_heap (write_num (heap st) (rotations st) d) st).
Proof.
  intros Ht. apply (tidy_from_kept st); [reflexivity| |
    intros e V; apply kept_write_rotation|exact Ht].
  apply (entry_allocated_write_num (heap st)), Ht.
Qed.

Lemma tidy_write_zoom st d :
  tidy st -> tidy (set_heap (write_num (heap st) (zoom_levels st) d) st).
Proof.
  intros Ht. apply (tidy_from_kept st); [reflexivity| |
    intros e V; apply kept_write_zoom|exact Ht].
  apply (entry_allocated_write_num (heap st)), Ht.
Qed.

Lemma tidy_write_adjustment st k d :
  tidy st ->
  tidy (set_heap (write_num (heap st) (geta (adjustment_values st) k) d) st).
Proof.
  intros Ht. apply (tidy_from_kept st); [reflexivity| |
    intros e V; apply kept_write_adjustment|exact Ht].
  apply (entry_allocated_write_num (heap st)), Ht.
Qed.

Lemma tidy_install_fresh s st : tidy st -> tidy (install_fresh s st).
Proof.
  intros Ht. apply (tidy_from_kept st); [|apply install_fresh_allocated|
    intros e V; apply kept_install_fresh|exact Ht].
  destruct (install_fresh_new s st) as (h & c & -> & _). reflexivity.
Qed.

(** The entry a save pushes has dictionaries of its own. *)
Lemma tidy__save_state st : tidy st -> tidy (_save_state st).
Proof.
  intros [A HF].
  destruct (snapshot_copy st A) as (E & _ & A1 & F).
  destruct (allocated_apart_fresh _ _ _ A F) as (Nk & Np & Nn).
  unfold _save_state. destruct (snapshot st) as [h e1]. simpl in E, A1, F, Nk, Np, Nn.
  split.
  - exact (entry_allocated_le _ _ _ E A).
  - app_proj. apply Forall_history_append.
    + eapply Forall_impl; [exact HF|]. intros e (Ae & Hk & Hp & Hn).
      split; [exact (entry_allocated_le _ _ _ E Ae)|].
      split; [exact Hk|]. split; [exact Hp|exact Hn].
    + split; [exact A1|]. split; [|split].
      * intros Heq. apply Nk. symmetry. exact Heq.
      * intros Heq. apply Np. symmetry. exact Heq.
      * intros l Hc He. exact (Nn l He Hc).
Qed.

Section Tidy.
Context `{Pillow}.

Lemma tidy_update st : tidy st -> tidy (state_of (_update_match_overlay st)).
Proof. destruct (_update_match_overlay_display st) as [tk ->]. exact id. Qed.

Ltac tidy_special :=
  lazymatch goal with
  | |- tidy (state_of (_update_match_overlay _)) => apply tidy_update
  | |- tidy (_save_state _) => apply tidy__save_state
  | |- tidy (set_heap (write_kv _ (kv_offsets _) _) _) =>
      apply tidy_write_kv
  | |- tidy (set_heap (write_pan _ (pan_offsets _) _) _) =>
      apply tidy_write_pan
  | |- tidy (set_heap (write_num _ (rotations _) _) _) =>
      apply tidy_write_rotation
  | |- tidy (set_heap (write_num _ (zoom_levels _) _) _) =>
      apply tidy_write_zoom
  | |- tidy (set_heap (write_num _ (geta _ _) _) _) =>
      apply tidy_write_adjustment
  | |- tidy (install_fresh _ _) => apply tidy_install_fresh
  | |- tidy (?f _ ?s) =>
      unfold tidy, apart, current_entry; progress app_proj; change (tidy s)
  end.

Lemma tidy_scale_set k v st : tidy st -> tidy (scale_set k v st).
Proof. intros Ht. repeat inv_step tidy ltac:(idtac; tidy_special). Qed.

Lemma tidy_load_slot files key acc :
  tidy acc.1 -> tidy (load_slot files key acc).1.
Proof.
  destruct acc as [st n]. unfold load_slot. simpl.
  destruct (gets files key); exact id.
Qed.

Lemma tidy_set_widgets f st : tidy st -> tidy (set_widgets f st).
Proof. exact id. Qed.

Lemma tidy_set_initial_state v st : tidy st -> tidy (set_initial_state v st).
Proof. exact id. Qed.

Lemma tidy__load_dataset selection st :
  tidy st -> tidy (state_of (_load_dataset selection st)).
Proof.
  intros Hi. unfold _load_dataset.
  destruct selection as [| |files]; [exact Hi | exact Hi |].
  pose proof
    (tidy_load_slot files kv_lat _
       (tidy_load_slot files drr_lat _
          (tidy_load_slot files kv_ap _
             (tidy_load_slot files drr_ap
                (set_original_images (all_slots None)
                   (set_images (all_slots None) st), 0) Hi)))) as Hl.
  destruct (load_slot files kv_lat _) as [st' loaded]. simpl in Hl.
  destruct (0 <? loaded); [|exact Hl].
  apply tidy_update, tidy_set_widgets, tidy_set_initial_state.
  cbv beta delta [_reset_to_initial_values].
  repeat inv_step tidy ltac:(idtac; tidy_special).
Qed.

Lemma tidy_step ev st : is_undo ev = false -> tidy st -> tidy (step st ev).
Proof.
  intros Hev Hi. unfold step.
  destruct ev; try discriminate Hev; simpl handle;
    try (apply tidy__load_dataset, Hi);
    cbv beta delta
      [_rotate_active _activate_drag _drag_kv _mouse_scroll _zoom _nudge_kv
       _reset_to_default blend_row_Scale blend_row_Checkbutton
       _select_adjustment_image_from_menu _select_image_for_adjustment
       _adjust_image _reset_adjustments filter_menu _apply_selected_filter];
    repeat inv_step tidy ltac:(idtac; tidy_special).
Qed.

(** No gesture of the list is Ctrl+Z. *)
Definition no_undo (evs : list Event) : bool :=
  forallb (fun ev => negb (is_undo ev)) evs.

Lemma tidy_run evs st : no_undo evs = true -> tidy st -> tidy (run st evs).
Proof.
  revert st. induction evs as [|ev evs IH]; intros st Hn Hi; [exact Hi|].
  simpl in Hn. apply andb_true_iff in Hn as [Hev Hn].
  apply negb_true_iff in Hev. apply IH; [exact Hn|].
  apply tidy_step; assumption.
Qed.

Lemma kept_run e V evs st :
  no_undo evs = true -> kept e V st -> kept e V (run st evs).
Proof.
  revert st. induction evs as [|ev evs IH]; intros st Hn Hi; [exact Hi|].
  simpl in Hn. apply andb_true_iff in Hn as [Hev Hn].
  apply negb_true_iff in Hev. apply IH; [exact Hn|].
  apply kept_step; assumption.
Qed.

Lemma tidy_start : tidy start.
Proof.
  unfold start, __init__. apply tidy_update, tidy__save_state.
  unfold _save_initial_state, _init_state. apply tidy_set_initial_state.
  split; [apply install_fresh_allocated|].
  destruct (install_fresh_new default_values
    (mkApp (all_slots None) (all_slots None) 0%nat 0%nat 0%nat 0%nat
       (mkAdj 0%nat 0%nat 0%nat) 0.5%float false Select_Filter drr_ap []
       None None None false
       (mkWidgets 0 0 100 1.0 1.0 1.0 1.0 1.0 1.0 Ready None None drr_ap)
       (mkTk (mkPerView None None) (all_slots None))
       empty_heap)) as (h & c & -> & _).
  app_proj. constructor.
Qed.

(** X20.  Without Ctrl+Z the history is a record that stays.  In a run of
    gestures none of which is Ctrl+Z, an entry that is in the history at some
    point records the same values at every later point: no later drag, nudge,
    rotation, zoom, adjustment, filter, reset or load writes to its
    dictionaries (a save may drop it from the history as the oldest of
    twenty-one; its content is not touched). *)
Theorem entries_stay_without_undo (evs evs' : list Event) (e : Entry) :
  no_undo (evs ++ evs') = true ->
  e ∈ history (run start evs) ->
  entry_value (heap (run start (evs ++ evs'))) e =
  entry_value (heap (run start evs)) e.
Proof.
  intros Hn He. unfold no_undo in Hn. rewrite forallb_app in Hn.
  apply andb_true_iff in Hn as [Hn Hn'].
  destruct (tidy_run evs start Hn tidy_start) as [_ HF].
  rewrite Forall_forall in HF. pose proof (HF e He) as Ha.
  unfold run. rewrite fold_left_app. fold (run start evs).
  fold (run (run start evs) evs').
  exact (proj2 (kept_run e _ evs' _ Hn' (conj Ha eq_refl))).
Qed.

End Tidy.

(** ** A reset *)

Lemma restore_slot_same k st :
  heap (restore_slot k st) = heap st /\
  history (restore_slot k st) = history st /\
  original_images (restore_slot k st) = original_images st /\
  widgets (restore_slot k st) = widgets st.
Proof.
  unfold restore_slot. destruct (gets (original_images st) k); repeat split.
Qed.

(** The four [restore_slot] of a reset. *)
Definition restore_slots (st : App) : App :=
  restore_slot kv_lat
    (restore_slot drr_lat (restore_slot kv_ap (restore_slot drr_ap st))).

Lemma restore_slots_same st :
  heap (restore_slots st) = heap st /\
  history (restore_slots st) = history st /\
  original_images (restore_slots st) = original_images st.
Proof.
  unfold restore_slots.
  destruct (restore_slot_same kv_lat
              (restore_slot drr_lat
                 (restore_slot kv_ap (restore_slot drr_ap st))))
    as (-> & -> & -> & _).
  destruct (restore_slot_same drr_lat
              (restore_slot kv_ap (restore_slot drr_ap st)))
    as (-> & -> & -> & _).
  destruct (restore_slot_same kv_ap (restore_slot drr_ap st))
    as (-> & -> & -> & _).
  destruct (restore_slot_same drr_ap st) as (-> & -> & -> & _).
  repeat split.
Qed.

(** New dictionaries are apart from every entry of the store. *)
Lemma tidy_install_new s st :
  Forall (entry_allocated (heap st)) (history st) ->
  tidy (install_fresh s st).
Proof.
  intros Hh. split; [apply install_fresh_allocated|].
  destruct (install_fresh_new s st) as (h & c & -> & E & F). app_proj.
  eapply Forall_impl; [exact Hh|]. intros e Ae.
  destruct (allocated_apart_fresh _ _ _ Ae F) as (Nk & Np & Nn).
  split; [app_proj; exact (entry_allocated_le _ _ _ E Ae)|].
  app_proj. split; [exact Nk|]. split; [exact Np|exact Nn].
Qed.

Section Reset.
Context `{Pillow}.

Lemma tidy_set_active_view v st : tidy st -> tidy (set_active_view v st).
Proof. exact id. Qed.

Lemma tidy_set_ignore_rotation_callback b st :
  tidy st -> tidy (set_ignore_rotation_callback b st).
Proof. exact id. Qed.

Lemma tidy_set_use_color_overlay b st :
  tidy st -> tidy (set_use_color_overlay b st).
Proof. exact id. Qed.

Lemma tidy_set_alpha a st : tidy st -> tidy (set_alpha a st).
Proof. exact id. Qed.

Lemma tidy__reset_to_default st :
  is_Some (initial_state st) ->
  Forall (entry_allocated (heap st)) (history st) ->
  tidy (state_of (_reset_to_default st)).
Proof.
  intros [init Hi] Hh. unfold _reset_to_default. rewrite Hi. cbv zeta.
  destruct (restore_slots_same st) as (Eh & El & _).
  fold (restore_slots st). rewrite <- Eh, <- El in Hh. clear Eh El.
  generalize dependent (restore_slots st). intros s1 Hh.
  pose proof (tidy_install_new init s1 Hh) as Ht.
  generalize dependent (install_fresh init s1). intros s2 Ht.
  apply tidy_update, tidy__save_state, tidy_set_widgets, tidy_set_active_view,
    tidy_set_widgets, tidy_set_widgets,
    tidy_set_widgets, tidy_scale_set, tidy_set_widgets, tidy_scale_set,
    tidy_set_widgets, tidy_scale_set,
    tidy_set_widgets, tidy_set_ignore_rotation_callback, tidy_set_widgets,
    tidy_set_ignore_rotation_callback, tidy_set_use_color_overlay,
    tidy_set_alpha.
  exact Ht.
Qed.

(** The three adjustment scales set to 1.0 in a state whose adjustment
    values are 1.0 for the view of the target. *)
Lemma scales_reset_settled st :
  entry_allocated (heap st) (current_entry st) ->
  (forall k,
     adjustment_of st k (view_of_slot (current_adjustment_image st)) =
     1.0%float) ->
  exists es,
    settled st
      (set_widgets (set_slider_val sharpness 1.0)
         (scale_set sharpness 1.0
            (set_widgets (set_slider_val contrast 1.0)
               (scale_set contrast 1.0
                  (set_widgets (set_slider_val brightness 1.0)
                     (scale_set brightness 1.0 st)))))) es.
Proof.
  intros Ha Hone.
  set (view := view_of_slot (current_adjustment_image st)) in *.
  assert (scale_clip 0.1 3.0 1.0 = adjustment_of st brightness view) as Hb
    by (rewrite Hone; reflexivity).
  destruct (scale_set_settled brightness 1.0 st Ha Hb) as (es1 & S1 & _).
  apply (settled_set_widgets (set_slider_val brightness 1.0)) in S1.
  destruct (settled_current _ _ _ Ha S1) as [V1 A1].
  pose proof S1 as (_ & _ & _ & _ & _ & T1).
  generalize dependent
    (set_widgets (set_slider_val brightness 1.0) (scale_set brightness 1.0 st)).
  intros s1 S1 V1 A1 T1.
  assert (scale_clip 0.1 3.0 1.0 =
          adjustment_of s1 contrast
            (view_of_slot (current_adjustment_image s1))) as Hc.
  { rewrite T1. fold view.
    rewrite (adjustment_of_current st s1 contrast view V1), Hone.
    reflexivity. }
  destruct (scale_set_settled contrast 1.0 s1 A1 Hc) as (es2 & S2 & _).
  apply (settled_set_widgets (set_slider_val contrast 1.0)) in S2.
  destruct (settled_current _ _ _ A1 S2) as [V2 A2].
  pose proof S2 as (_ & _ & _ & _ & _ & T2).
  generalize dependent
    (set_widgets (set_slider_val contrast 1.0) (scale_set contrast 1.0 s1)).
  intros s2 S2 V2 A2 T2.
  assert (scale_clip 0.1 3.0 1.0 =
          adjustment_of s2 sharpness
            (view_of_slot (current_adjustment_image s2))) as Hs.
  { rewrite T2, T1. fold view.
    rewrite (adjustment_of_current s1 s2 sharpness view V2),
      (adjustment_of_current st s1 sharpness view V1), Hone.
    reflexivity. }
  destruct (scale_set_settled sharpness 1.0 s2 A2 Hs) as (es3 & S3 & _).
  exists (es1 ++ es2 ++ es3).
  apply settled_set_widgets.
  apply (settled_trans st s1 _ es1 (es2 ++ es3) Ha S1).
  exact (settled_trans s1 s2 _ es2 es3 A1 S2 S3).
Qed.

Lemma _reset_to_default_values st :
  initial_state st = Some default_values ->
  let st' := state_of (_reset_to_default st) in
  current_value st' = default_values /\
  active_view st' = None /\
  original_images st' = original_images st /\
  status_var (widgets st') = Restored_to_default /\
  exists e : Entry,
    last (history st') = Some e /\
    entry_value (heap st') e = default_values.
Proof.
  intros Hi. cbv zeta. unfold _reset_to_default. rewrite Hi. cbv zeta.
  destruct (restore_slots_same st) as (_ & _ & Eo).
  fold (restore_slots st). rewrite <- Eo.
  generalize (restore_slots st). intros s1.
  pose proof (install_fresh_allocated default_values s1) as Ha.
  destruct (install_fresh_spec default_values s1)
    as (h & kv & rot & zoom & pan & adj & Heq & Hle
        & R1 & R2 & R3 & R4 & R5 & R6 & R7).
  rewrite Heq in Ha. rewrite Heq. clear Heq.
  match goal with
  | |- context [scale_set brightness _ ?S] =>
      assert (entry_allocated (heap S) (current_entry S)) as HaS
        by (revert Ha; unfold current_entry, entry_allocated; app_proj;
            simpl; exact id);
      assert (current_value S = default_values) as D
        by (unfold current_value; app_proj;
            rewrite R1, R2, R3, R4, R5, R6, R7; reflexivity);
      assert (original_images S = original_images s1) as O by reflexivity;
      generalize dependent S
  end.
  intros s3 HaS D O.
  assert (forall k,
            adjustment_of s3 k (view_of_slot (current_adjustment_image s3)) =
            1.0%float) as Hone.
  { intros k.
    replace (adjustment_of s3 k (view_of_slot (current_adjustment_image s3)))
      with (getv (geta (s_adjustment_values (current_value s3)) k)
              (view_of_slot (current_adjustment_image s3)))
      by (destruct k; reflexivity).
    rewrite D.
    destruct k, (view_of_slot (current_adjustment_image s3)); reflexivity. }
  destruct (scales_reset_settled s3 HaS Hone) as (es & S).
  destruct (settled_current _ _ _ HaS S) as [V4 A4].
  pose proof S as (_ & _ & _ & _ & O4 & _).
  generalize dependent
    (set_widgets (set_slider_val sharpness 1.0)
       (scale_set sharpness 1.0
          (set_widgets (set_slider_val contrast 1.0)
             (scale_set contrast 1.0
                (set_widgets (set_slider_val brightness 1.0)
                   (scale_set brightness 1.0 s3)))))).
  intros s4 _ V4 A4 O4.
  match goal with
  | |- context [_update_match_overlay (_save_state ?S)] =>
      assert (entry_allocated (heap S) (current_entry S)) as Ha5
        by exact A4;
      assert (current_value S = default_values) as D5
        by (rewrite <- D, <- V4; reflexivity);
      assert (active_view S = None) as Av by reflexivity;
      assert (original_images S = original_images s1) as O5
        by (rewrite <- O, <- O4; reflexivity);
      assert (status_var (widgets S) = Restored_to_default) as St
        by reflexivity;
      generalize dependent S
  end.
  intros s5 Ha5 D5 Av O5 St.
  destruct (saved_and_drawn s5 Ha5) as (tk & h' & e & -> & E & V & A & F).
  pose proof (current_value_grow s5 h' E Ha5) as G.
  split; [rewrite <- D5, <- G; reflexivity|].
  split; [exact Av|]. split; [exact O5|]. split; [exact St|].
  exists e. app_proj. split; [apply last_history_append|].
  rewrite V. exact D5.
Qed.

(** X21.  A reset.  In every state the window can reach, Ctrl+R installs
    the default values (offsets, rotations, zooms, pans, adjustments,
    alpha 0.5, overlay off), clears the active view and leaves the
    originals; the last entry of the history then records the default
    values.  The dictionaries it installs are new objects: whatever was
    undone before, no entry of the history shares a dictionary with the
    state after the reset, so every entry records the same values after
    any further gestures other than Ctrl+Z. *)
Theorem reset_restores_defaults (evs : list Event) :
  let st := run start evs in
  let st' := state_of (_reset_to_default st) in
  current_value st' = default_values /\
  active_view st' = None /\
  original_images st' = original_images st /\
  status_var (widgets st') = Restored_to_default /\
  (exists e : Entry,
     last (history st') = Some e /\
     entry_value (heap st') e = default_values) /\
  forall (e : Entry) (evs' : list Event),
    e ∈ history st' -> no_undo evs' = true ->
    entry_value (heap (run st' evs')) e = entry_value (heap st') e.
Proof.
  intros st st'.
  pose proof (wf_run evs start wf_start) as Hw. fold st in Hw.
  destruct (wf_allocated st Hw) as [_ Hh].
  destruct Hw as [(ty & _ & _ & _ & Hi) _].
  destruct (_reset_to_default_values st Hi) as (V & Av & O & S & L).
  fold st' in V, Av, O, S, L.
  split; [exact V|]. split; [exact Av|]. split; [exact O|].
  split; [exact S|]. split; [exact L|].
  intros e evs' He Hn.
  assert (tidy st') as [_ HF]
    by (apply tidy__reset_to_default; [rewrite Hi; eauto|exact Hh]).
  rewrite Forall_forall in HF.
  exact (proj2 (kept_run e _ evs' st' Hn (conj (HF e He) eq_refl))).
Qed.

End Reset.

(** * More runs on concrete inputs *)

Section More_runs.
Local Existing Instance nearest_pillow.

Lemma save_state_pushes_copy_witness :
  let st := start in
  let st' := _save_state st in
  exists e : Entry,
    history st' = history_append (history st) e /\
    last (history st') = Some e /\
    entry_value (heap st') e = current_value st /\
    current_value st' = current_value st /\
    entry_fresh (heap st) e /\
    (forall d,
       entry_value (write_kv (heap st') (kv_offsets st') d) e =
       entry_value (heap st') e) /\
    (forall d,
       entry_value (write_pan (heap st') (pan_offsets st') d) e =
       entry_value (heap st') e) /\
    (forall (l : ref) d,
       is_Some (num_cells (heap st) !! l) ->
       entry_value (write_num (heap st') l d) e = entry_value (heap st') e).
Proof.
  pose proof (save_state_pushes_copy start) as Hthm.
  cbv zeta in Hthm |- *. apply Hthm. vm_compute. repeat esplit.
Defined.

(** A click at (10, 10) on the AP canvas and two motion events, to
    (12, 10) and to (15, 14). *)
Lemma drag_follows_pointer_witness :
  let st := run start [Dataset_menu (Directory two_files)] in
  let st1 := state_of (_activate_drag 10 10 ap st) in
  let stn := drag_through ap st1 [(12, 10); (15, 14)] in
  let p := default (10, 10) (last [(12, 10); (15, 14)]) in
  active_view st1 = Some ap /\
  history st1 = history st /\
  kv_offset_of stn =
    add_y_both (add_x (kv_offset_of st) ap (p.1 - 10)) (p.2 - 10) /\
  exists es : list Entry,
    length es = length [(12, 10); (15, 14)] /\
    history stn = fold_left history_append es (history st).
Proof.
  pose proof (drag_follows_pointer [Dataset_menu (Directory two_files)] ap
                (checker 50 100) 10 10 [(12, 10); (15, 14)]) as Hthm.
  cbv zeta in Hthm |- *. apply Hthm. vm_compute. reflexivity.
Defined.

(** The same drag in numbers: the AP offset has moved by (5, 4), the
    lateral one by 4 vertically, and the history has grown by two. *)
Example drag_in_numbers :
  let st := run start [Dataset_menu (Directory two_files)] in
  let stn :=
    drag_through ap (state_of (_activate_drag 10 10 ap st))
      [(12, 10); (15, 14)] in
  kv_offset_of stn = mkKv 5 4 0 4 /\
  length (history st) = 1%nat /\ length (history stn) = 3%nat.
Proof. vm_compute. repeat split. Qed.

(** A wheel tick down from 0 degrees gives 359. *)
Lemma wheel_wraps_at_360_witness :
  let e := mkWheel (-120) 0 0 in
  let st := start in
  let k := 0 in
  let st' := state_of (_mouse_scroll e ap st) in
  let k' := (k + (if 0 <? delta e then 1 else -1)) mod 360 in
  rotation_of st' ap = float_of_int k' /\
  rotation_label (widgets st') = float_of_int k' /\
  rotation_scale (widgets st') = float_of_int (Z.min k' 180) /\
  _ignore_rotation_callback st' = false.
Proof.
  pose proof (wheel_wraps_at_360 (mkWheel (-120) 0 0) start 0) as Hthm.
  cbv zeta in Hthm |- *. apply Hthm; [lia|vm_compute; reflexivity].
Defined.

Example wheel_in_numbers :
  rotation_of (run start [MouseWheel ap (mkWheel (-120) 0 0)]) ap = 359%float /\
  rotation_scale (widgets (run start [MouseWheel ap (mkWheel (-120) 0 0)])) =
    180%float /\
  rotation_of (run start [MouseWheel ap (mkWheel (-120) 0 0);
                          MouseWheel ap (mkWheel 120 0 0)]) ap = 0%float.
Proof. vm_compute. repeat split. Qed.

Lemma filters_give_grey_witness :
  exists v : Z, getpixel (_f_collins_bone (checker 10 200)) 1 0 = (v, v, v).
Proof.
  exact (filters_give_grey Low_Dose_Boost
           (fun img => Some (_f_collins_bone img)) (checker 10 200)
           (_f_collins_bone (checker 10 200)) eq_refl eq_refl 1 0).
Defined.

(** A dataset with the four images. *)
Definition four_files : Slots (option RGBImage) :=
  mkSlots (Some (checker 10 200)) (Some (checker 50 100))
    (Some (checker 20 220)) (Some (checker 60 120)).

(** After the four images, a dataset with the two AP images only. *)
Lemma load_leaves_pictures_witness :
  let files := two_files in
  let st := run start [Dataset_menu (Directory four_files)] in
  let st' := state_of (_load_dataset (Directory files) st) in
  (forall view : View,
     gets files (drr_ view) = None \/ gets files (kv_ view) = None ->
     getv (match_canvas (tk_images st')) view =
     getv (match_canvas (tk_images st)) view) /\
  (forall k : Slot,
     gets files k = None ->
     gets (thumbnails (tk_images st')) k =
     gets (thumbnails (tk_images st)) k) /\
  brightness_scale (widgets st') = brightness_scale (widgets st) /\
  contrast_scale (widgets st') = contrast_scale (widgets st) /\
  sharpness_scale (widgets st') = sharpness_scale (widgets st) /\
  current_adjustment_image st' = current_adjustment_image st /\
  filter_var st' = filter_var st /\
  status_var (widgets st') = Loaded (count_loaded files) /\
  1 <= count_loaded files <= 4.
Proof.
  pose proof (load_leaves_pictures two_files
                (run start [Dataset_menu (Directory four_files)])) as Hthm.
  cbv zeta in Hthm |- *. apply Hthm. vm_compute. reflexivity.
Defined.

(** The same load in pictures: the lateral slots are empty, their
    thumbnails still show the images of before. *)
Example stale_thumbnails :
  let st' :=
    run start [Dataset_menu (Directory four_files);
               Dataset_menu (Directory two_files)] in
  gets (images st') kv_lat = None /\
  (fun im => getpixel im 0 0) <$> gets (thumbnails (tk_images st')) kv_lat =
  Some (60, 60, 60) /\
  status_var (widgets st') = Loaded 2.
Proof. vm_compute. repeat split. Qed.

Lemma plain_decide fn :
  bool_decide ("/"%char ∉ fn) && bool_decide ("\"%char ∉ fn) = true ->
  plain fn.
Proof.
  rewrite andb_true_iff, !bool_decide_eq_true. exact id.
Qed.

(** The name [10.PNG] is taken for the first slot. *)
Lemma candidate_by_digit_and_extension_witness :
  candidate posixpath (file_map drr_ap) (lit "10.PNG") = true <->
  file_map drr_ap `prefix_of` lower (lit "10.PNG") /\
  exists e : str, e ∈ valid /\ e `suffix_of` lower (lit "10.PNG").
Proof.
  apply (candidate_by_digit_and_extension posixpath drr_ap (lit "10.PNG")).
  apply plain_decide. vm_compute. reflexivity.
Defined.

Lemma slots_take_different_files_witness :
  let names := [lit "2_kv.png"; lit "1_drr.png"] in
  find_path posixpath (file_map drr_ap) names = Some (lit "1_drr.png") /\
  find_path posixpath (file_map kv_ap) names = Some (lit "2_kv.png") /\
  lit "1_drr.png" <> lit "2_kv.png".
Proof.
  cbv zeta. split; [reflexivity|]. split; [reflexivity|].
  apply (slots_take_different_files posixpath
           [lit "2_kv.png"; lit "1_drr.png"] drr_ap kv_ap);
    [discriminate|reflexivity|reflexivity].
Defined.

Lemma unique_candidate_any_order_witness :
  find_path posixpath (file_map drr_ap) [lit "1.png"; lit "notes.txt"] =
  find_path posixpath (file_map drr_ap) [lit "notes.txt"; lit "1.png"].
Proof.
  apply unique_candidate_any_order; [apply perm_swap|].
  intros f g Hf Hg Cf Cg.
  apply elem_of_cons in Hf as [->|Hf]; [discriminate Cf|].
  apply elem_of_cons in Hg as [->|Hg]; [discriminate Cg|].
  apply list_elem_of_singleton in Hf, Hg. congruence.
Defined.

(** The entry the window opens with. *)
Definition baseline : Entry :=
  default (mkEntry 0 0 0 0 (mkAdj 0 0 0) 0 false)%nat (last (history start)).

(** A nudge and an undo in the window with the AP images loaded, the
    target being the DRR AP slot. *)
Lemma undo_reverts_a_nudge_witness :
  let st := loaded_state in
  let e := baseline in
  let st1 := state_of (_nudge_kv 1 1 st) in
  let st2 := state_of (_undo_last_action st1) in
  current_value st2 = current_value st /\
  current_entry st2 = e /\
  status_var (widgets st2) = Undo_successful /\
  last (removelast (history st1)) = Some e /\
  exists es : list Entry,
    history st2 = fold_left history_append es (removelast (history st1)) /\
    length es =
      (match gets (original_images st) (current_adjustment_image st) with
       | Some _ => 3 | None => 0 end)%nat /\
    Forall (fun e' => entry_value (heap st2) e' = current_value st) es.
Proof.
  pose proof (undo_reverts_a_nudge 1 1 loaded_state baseline) as Hthm.
  cbv zeta in Hthm |- *.
  apply Hthm;
    [ vm_compute; repeat esplit | vm_compute; reflexivity
    | vm_compute; repeat esplit | vm_compute; reflexivity
    | vm_compute; discriminate
    | intros k; destruct k; vm_compute; reflexivity ].
Defined.

(** The same steps in numbers: the history of one entry has four after the
    nudge and the undo. *)
Example undo_in_numbers :
  let st1 := step loaded_state Key_Down in
  let st2 := step st1 Control_z in
  history_ap_y loaded_state = [0] /\ history_ap_y st1 = [0; 1] /\
  history_ap_y st2 = [0; 0; 0; 0] /\ ap_y (kv_offset_of st2) = 0.
Proof. vm_compute. repeat split. Qed.

(** A reload of a directory that has been emptied. *)
Lemma load_that_finds_nothing_witness :
  let st := run start [Dataset_menu (Directory two_files)] in
  let st' := state_of (_load_dataset (Directory (all_slots None)) st) in
  images st' = all_slots None /\
  original_images st' = all_slots None /\
  tk_images st' = tk_images st /\
  current_entry st' = current_entry st /\ heap st' = heap st /\
  history st' = history st /\ active_view st' = active_view st /\
  status_var (widgets st') = No_valid_images_found.
Proof.
  pose proof (load_that_finds_nothing (all_slots None)
                (run start [Dataset_menu (Directory two_files)])) as Hthm.
  cbv zeta in Hthm |- *. apply Hthm. reflexivity.
Defined.

(** The baseline entry through a nudge, a second nudge and a reset. *)
Lemma entries_stay_without_undo_witness :
  entry_value (heap (run start ([Key_Down] ++ [Key_Right; Control_r])))
    baseline =
  entry_value (heap (run start [Key_Down])) baseline.
Proof.
  pose proof (entries_stay_without_undo [Key_Down] [Key_Right; Control_r]
                baseline) as Hthm.
  apply Hthm; [reflexivity|].
  apply list_elem_of_In. vm_compute. left. reflexivity.
Defined.

End More_runs.
